(** * Recipe extraction of app.js: a shallow embedding and its properties

    The development follows the core of [src/app.js]: [parseRecipe],
    [extractJsonLdRecipe], [normalizeRecipe] and [extractHtmlRecipe].  The
    first part fixes the ECMAScript notions these four functions rest on
    (strings as sequences of UTF-16 code units, the values [JSON.parse]
    builds, exceptions, the coercions behind [||], [>] and [join]); the second
    part transcribes the four functions; the third part introduces the notions
    and the sample pages the statements use; the fourth part states and proves
    the properties. *)

From Stdlib Require Import List NArith ZArith Bool String Ascii Lia.
From Stdlib Require Import Floats.SpecFloat.
Import ListNotations.

Set Implicit Arguments.
Set Warnings "-register-all".

(* ===================================================================== *)
(** * Part I: the platform                                               *)
(* ===================================================================== *)

(** ** Strings

    An ECMAScript string is a finite sequence of 16-bit code units. *)

Definition jstring := list N.

(** [lit "abc"] is the string whose code units are the character codes of an
    ASCII literal. *)
Fixpoint lit (s : string) : jstring :=
  match s with
  | EmptyString => []
  | String c r => N_of_ascii c :: lit r
  end.

Arguments lit : simpl never.

Fixpoint jstr_eqb (a b : jstring) : bool :=
  match a, b with
  | [], [] => true
  | x :: a', y :: b' => N.eqb x y && jstr_eqb a' b'
  | _, _ => false
  end.

(** [s.length > 0] for a string, and the truthiness of a string. *)
Definition non_empty (s : jstring) : bool :=
  match s with [] => false | _ :: _ => true end.

(** The characters matched by [\s] in a regular expression and removed by
    [String.prototype.trim]: WhiteSpace and LineTerminator. *)
Definition is_space (c : N) : bool :=
  (N.leb 9 c && N.leb c 13) || N.eqb c 32 || N.eqb c 160 || N.eqb c 5760
  || (N.leb 8192 c && N.leb c 8202) || N.eqb c 8232 || N.eqb c 8233
  || N.eqb c 8239 || N.eqb c 8287 || N.eqb c 12288 || N.eqb c 65279.

Definition is_newline (c : N) : bool := N.eqb c 10.

Definition ch_dot : N := 46.
Definition ch_lt : N := 60.
Definition ch_gt : N := 62.
Definition ch_space : N := 32.

Fixpoint trimStart (s : jstring) : jstring :=
  match s with
  | [] => []
  | c :: r => if is_space c then trimStart r else s
  end.

Definition trimEnd (s : jstring) : jstring := rev (trimStart (rev s)).

(** [s.trim()] *)
Definition trim (s : jstring) : jstring := trimEnd (trimStart s).

Definition starts_with_space (s : jstring) : bool :=
  match s with
  | [] => false
  | c :: _ => is_space c
  end.

(** [s.split(/(?:\.\s+|\n+)/)].  The separator matches, at a position, a dot
    followed by a maximal run of white space, or else a maximal run of line
    feeds.  [skip] is the run being consumed after a separator has started
    ([None] while copying), [cur] the piece being built, in reverse. *)
Fixpoint split_loop (skip : option (N -> bool)) (cur : jstring) (s : jstring)
  : list jstring :=
  match s with
  | [] => [rev cur]
  | c :: rest =>
      if match skip with Some p => p c | None => false end
      then split_loop skip cur rest
      else if N.eqb c ch_dot && starts_with_space rest
      then rev cur :: split_loop (Some is_space) [] rest
      else if is_newline c
      then rev cur :: split_loop (Some is_newline) [] rest
      else split_loop None (c :: cur) rest
  end.

Definition split_sentences (s : jstring) : list jstring := split_loop None [] s.

Fixpoint has_gt (s : jstring) : bool :=
  match s with
  | [] => false
  | c :: r => N.eqb c ch_gt || has_gt r
  end.

(** [s.replace(/<[^>]*>/g, '')].  A match starts at a [<] that has a [>]
    somewhere after it and runs to the first such [>]; [inside] says that the
    scan is within a match. *)
Fixpoint strip_loop (inside : bool) (s : jstring) : jstring :=
  match s with
  | [] => []
  | c :: r =>
      if inside
      then if N.eqb c ch_gt then strip_loop false r else strip_loop true r
      else if N.eqb c ch_lt && has_gt r then strip_loop true r
      else c :: strip_loop false r
  end.

Definition strip_tags (s : jstring) : jstring := strip_loop false s.

(** [s.replace(/\s+/g, ' ')]: [in_run] says that the previous character was
    white space, already replaced. *)
Fixpoint collapse_loop (in_run : bool) (s : jstring) : jstring :=
  match s with
  | [] => []
  | c :: r =>
      if is_space c
      then if in_run then collapse_loop true r else ch_space :: collapse_loop true r
      else c :: collapse_loop false r
  end.

Definition collapse_spaces (s : jstring) : jstring := collapse_loop false s.


(** ** Exceptions

    The two kinds of exception the platform operations used by the core can
    raise, and the error monad the transcription is written in. *)

Inductive exn := SyntaxError | TypeError.

Inductive result (A : Type) : Type :=
| Return (a : A)
| Throw (e : exn).

Arguments Return {A} a.
Arguments Throw {A} e.

Definition bind {A B : Type} (c : result A) (k : A -> result B) : result B :=
  match c with
  | Return a => k a
  | Throw e => Throw e
  end.

Notation "x <- c ;; k" := (bind c (fun x => k))
  (at level 61, c at next level, right associativity).

(** [try { body } catch (e) { handler }] *)
Definition try_catch {A : Type} (body : result A) (handler : exn -> result A)
  : result A :=
  match body with
  | Return a => Return a
  | Throw e => handler e
  end.

Section MapM.
Variables A B : Type.
Variable f : A -> result B.

(** [array.map(f)] for a callback that may raise: the elements are visited
    in order and the first exception ends the traversal. *)
Fixpoint mapM (l : list A) : result (list B) :=
  match l with
  | [] => Return []
  | x :: r => y <- f x ;; ys <- mapM r ;; Return (y :: ys)
  end.

End MapM.

Section FilterM.
Variable A : Type.
Variable p : A -> result bool.

(** [array.filter(p)] for a predicate that may raise. *)
Fixpoint filterM (l : list A) : result (list A) :=
  match l with
  | [] => Return []
  | x :: r => b <- p x ;; ys <- filterM r ;; Return (if b then x :: ys else ys)
  end.

(** [array.find(p)] for a predicate that may raise: [None] is [undefined]. *)
Fixpoint findM (l : list A) : result (option A) :=
  match l with
  | [] => Return None
  | x :: r => b <- p x ;; if b then Return (Some x) else findM r
  end.

End FilterM.

(** ** Numbers and values

    A Number is an IEEE 754 binary64 value, here a [spec_float] of precision
    53 and exponent bound 1024.  A value is what [JSON.parse] can build,
    together with [undefined], which reading an absent property yields. *)

Definition prec : Z := 53.
Definition emax : Z := 1024.

Inductive value :=
| VUndefined
| VNull
| VBool (b : bool)
| VNumber (x : spec_float)
| VString (s : jstring)
| VArray (items : list value)
| VObject (props : list (jstring * value)).

(** The own property [k] of an object built by [JSON.parse]. *)
Fixpoint own (props : list (jstring * value)) (k : jstring) : option value :=
  match props with
  | [] => None
  | (k', v) :: r => if jstr_eqb k' k then Some v else own r k
  end.

(** [v[k]] and [v.k], for the property names app.js reads other than
    [length] of a string or an array: [@graph], [@type], [name],
    [recipeIngredient], [recipeInstructions], [text], [itemListElement], and
    [length] of an object.  None of them is an array index, and none is
    defined by the prototypes of objects, arrays, strings, numbers and
    booleans, so that only an object can have one, as an own property.
    Reading a property of [undefined] or [null] raises. *)
Definition Get (v : value) (k : jstring) : result value :=
  match v with
  | VUndefined | VNull => Throw TypeError
  | VBool _ | VNumber _ | VString _ | VArray _ => Return VUndefined
  | VObject props =>
      Return (match own props k with Some x => x | None => VUndefined end)
  end.

(** ToBoolean: the truthiness tested by [if], [||] and [&&]. *)
Definition ToBoolean (v : value) : bool :=
  match v with
  | VUndefined | VNull => false
  | VBool b => b
  | VNumber x =>
      match x with
      | S754_zero _ | S754_nan => false
      | _ => true
      end
  | VString s => non_empty s
  | VArray _ | VObject _ => true
  end.

(** [typeof v === 'string'] *)
Definition is_string (v : value) : bool :=
  match v with VString _ => true | _ => false end.

(** [v === 'lit'] for a string literal *)
Definition strict_eq_string (v : value) (s : jstring) : bool :=
  match v with VString t => jstr_eqb t s | _ => false end.

(** [a || b] *)
Definition or_else (a b : value) : value := if ToBoolean a then a else b.

(** ** Decimal text and Numbers *)

Local Open Scope Z_scope.

(** [dec_to_double neg m e] is the Number nearest to [m * 10^e] (ties to
    even), negated when [neg]: the value of a decimal literal.  For a negative
    exponent the quotient is computed with 55 bits at least and the position of
    the remainder handed to the rounding. *)
Definition dec_to_double (neg : bool) (m : N) (e : Z) : spec_float :=
  match m with
  | N0 => S754_zero neg
  | Npos p =>
      match e with
      | Zneg n =>
          let d := Z.pow 10 (Zpos n) in
          let k := Z.max 0 (Zdigits2 d - Zdigits2 (Zpos p) + 55) in
          let '(q, r) := Z.div_eucl (Z.shiftl (Zpos p) k) d in
          binary_round_aux prec emax neg q (- k) (new_location d r)
      | _ =>
          match Z.pow 10 e * Zpos p with
          | Zpos q => binary_round prec emax neg q 0
          | _ => S754_zero neg
          end
      end
  end.

Definition digit_char (d : Z) : N := Z.to_N (48 + d).

(** The decimal digits of a non-negative integer, most significant first;
    [fuel] bounds their number. *)
Fixpoint digits_loop (fuel : nat) (n : Z) (acc : jstring) : jstring :=
  match fuel with
  | O => acc
  | S f =>
      if Z.ltb n 10 then digit_char n :: acc
      else digits_loop f (Z.div n 10) (digit_char (Z.modulo n 10) :: acc)
  end.

Definition decimal_digits (n : Z) : jstring :=
  digits_loop (S (Z.to_nat (Z.log2 n))) n [].

(** [ge_pow10 num den j]: [num / den >= 10^j] *)
Definition ge_pow10 (num den j : Z) : bool :=
  if Z.leb 0 j then Z.leb (Z.pow 10 j * den) num
  else Z.leb den (num * Z.pow 10 (- j)).

(** The [n] with [10^(n-1) <= num/den < 10^n], from an estimate by the
    binary lengths, corrected upwards and then downwards. *)
Fixpoint adjust_up (fuel : nat) (num den n : Z) : Z :=
  match fuel with
  | O => n
  | S f => if ge_pow10 num den n then adjust_up f num den (n + 1) else n
  end.

Fixpoint adjust_down (fuel : nat) (num den n : Z) : Z :=
  match fuel with
  | O => n
  | S f => if ge_pow10 num den (n - 1) then n else adjust_down f num den (n - 1)
  end.

Definition decimal_exponent (num den : Z) : Z :=
  let est := Z.div ((Z.log2 num - Z.log2 den) * 30103) 100000 in
  adjust_down 4 num den (adjust_up 4 num den est).

(** [scaled num den j] is [floor (num/den * 10^j)]. *)
Definition scaled (num den j : Z) : Z :=
  if Z.leb 0 j then Z.div (num * Z.pow 10 j) den
  else Z.div num (den * Z.pow 10 (- j)).

(** The digits [s], their number [k] and the exponent [n] of Number::toString
    for the positive Number [m * 2^e]: [k] is the least number of digits for
    which some [s * 10^(n-k)] converts back to the Number, and among such [s]
    the one nearest to the Number is taken (the even one on a tie), as the
    standard recommends. *)
Fixpoint shortest_digits (fuel : nat) (k : Z) (x : spec_float) (num den n : Z)
  : Z * Z :=
  let lo := scaled num den (k - n) in
  let hi := lo + 1 in
  let back s := SFeqb (dec_to_double false (Z.to_N s) (n - k)) x in
  (* twice the distance of num/den to the middle of lo and hi, by its sign *)
  let side :=
    if Z.leb 0 (k - n)
    then Z.compare (2 * num * Z.pow 10 (k - n)) ((2 * lo + 1) * den)
    else Z.compare (2 * num) ((2 * lo + 1) * den * Z.pow 10 (n - k)) in
  match fuel with
  | O => (lo, k)
  | S f =>
      match back lo, back hi with
      | true, false => (lo, k)
      | false, true => (hi, k)
      | true, true =>
          match side with
          | Lt => (lo, k)
          | Gt => (hi, k)
          | Eq => if Z.even lo then (lo, k) else (hi, k)
          end
      | false, false => shortest_digits f (k + 1) x num den n
      end
  end.

Definition zeros (n : Z) : jstring := repeat 48%N (Z.to_nat n).

(** Number::toString for a positive finite Number [m * 2^e]. *)
Definition positive_to_string (m : positive) (e : Z) : jstring :=
  let num := match e with Zneg _ => Zpos m | _ => Z.shiftl (Zpos m) e end in
  let den := match e with Zneg p => Z.shiftl 1 (Zpos p) | _ => 1%Z end in
  let n0 := decimal_exponent num den in
  let '(s0, k) := shortest_digits 17 1 (S754_finite false m e) num den n0 in
  (* [hi] may have one digit more, a power of ten *)
  let '(s, n) := if Z.eqb s0 (Z.pow 10 k) then (Z.pow 10 (k - 1), n0 + 1) else (s0, n0) in
  let ds := decimal_digits s in
  if Z.leb k n && Z.leb n 21 then ds ++ zeros (n - k)
  else if Z.ltb 0 n && Z.leb n 21
  then firstn (Z.to_nat n) ds ++ lit "." ++ skipn (Z.to_nat n) ds
  else if Z.ltb (-6) n && Z.leb n 0 then lit "0." ++ zeros (- n) ++ ds
  else
    let ex := (if Z.ltb (n - 1) 0 then lit "-" else lit "+")
              ++ decimal_digits (Z.abs (n - 1)) in
    if Z.eqb k 1 then ds ++ lit "e" ++ ex
    else firstn 1 ds ++ lit "." ++ skipn 1 ds ++ lit "e" ++ ex.

(** Number::toString *)
Definition NumberToString (x : spec_float) : jstring :=
  match x with
  | S754_nan => lit "NaN"
  | S754_zero _ => lit "0"
  | S754_infinity s => if s then lit "-Infinity" else lit "Infinity"
  | S754_finite s m e =>
      (if s then lit "-" else []) ++ positive_to_string m e
  end.

Local Close Scope Z_scope.

(** ** Text to Number *)

Definition is_digit (c : N) : bool := N.leb 48 c && N.leb c 57.

(** The value of a digit in a radix up to 16, when it is one. *)
Definition digit_in (radix : N) (c : N) : option N :=
  let d :=
    if N.leb 48 c && N.leb c 57 then Some (c - 48)%N
    else if N.leb 97 c && N.leb c 102 then Some (c - 87)%N
    else if N.leb 65 c && N.leb c 70 then Some (c - 55)%N
    else None in
  match d with
  | Some n => if N.ltb n radix then Some n else None
  | None => None
  end.

(** The longest prefix of decimal digits, and what follows it. *)
Fixpoint take_digits (s : jstring) : jstring * jstring :=
  match s with
  | [] => ([], [])
  | c :: r =>
      if is_digit c
      then let '(ds, rest) := take_digits r in (c :: ds, rest)
      else ([], s)
  end.

Definition digits_value (ds : jstring) : N :=
  fold_left (fun a c => (10 * a + (c - 48))%N) ds 0%N.

(** The value of a string of digits of the radix, when all are. *)
Fixpoint radix_value (radix : N) (acc : N) (s : jstring) : option N :=
  match s with
  | [] => Some acc
  | c :: r =>
      match digit_in radix c with
      | Some d => radix_value radix (radix * acc + d)%N r
      | None => None
      end
  end.

(** An optional sign: whether it is a minus, and what follows it. *)
Definition take_sign (s : jstring) : bool * jstring :=
  match s with
  | c :: r => if N.eqb c 45 then (true, r) else if N.eqb c 43 then (false, r) else (false, s)
  | [] => (false, [])
  end.

(** An optional exponent part that ends the text. *)
Definition exponent_part (s : jstring) : option Z :=
  match s with
  | [] => Some 0%Z
  | c :: r =>
      if N.eqb c 101 || N.eqb c 69
      then let '(neg, r1) := take_sign r in
           match take_digits r1 with
           | ((_ :: _) as ds, []) =>
               let e := Z.of_N (digits_value ds) in
               Some (if neg then Z.opp e else e)
           | _ => None
           end
      else None
  end.

(** StrUnsignedDecimalLiteral, with the sign already read. *)
Definition unsigned_decimal (neg : bool) (s : jstring) : spec_float :=
  if jstr_eqb s (lit "Infinity") then S754_infinity neg
  else
    let '(ip, r1) := take_digits s in
    let '(fp, r2) :=
      match r1 with
      | c :: r => if N.eqb c 46 then take_digits r else ([], r1)
      | [] => ([], [])
      end in
    match ip ++ fp with
    | [] => S754_nan
    | ds =>
        match exponent_part r2 with
        | Some e => dec_to_double neg (digits_value ds) (e - Z.of_nat (List.length fp))
        | None => S754_nan
        end
    end.

Definition radix_literal (radix : N) (s : jstring) : spec_float :=
  match s with
  | [] => S754_nan
  | _ =>
      match radix_value radix 0 s with
      | Some n => dec_to_double false n 0
      | None => S754_nan
      end
  end.

(** StringToNumber: white space around the literal is ignored, the empty
    text is zero, and text that is no numeric literal is NaN. *)
Definition StringToNumber (s : jstring) : spec_float :=
  match trim s with
  | [] => S754_zero false
  | c :: r =>
      match r with
      | p :: digits =>
          if N.eqb c 48 && (N.eqb p 120 || N.eqb p 88) then radix_literal 16 digits
          else if N.eqb c 48 && (N.eqb p 111 || N.eqb p 79) then radix_literal 8 digits
          else if N.eqb c 48 && (N.eqb p 98 || N.eqb p 66) then radix_literal 2 digits
          else let '(neg, u) := take_sign (c :: r) in unsigned_decimal neg u
      | [] => let '(neg, u) := take_sign (c :: r) in unsigned_decimal neg u
      end
  end.

(** ** Coercions of values *)

Section Join.
Variable elem : value -> result jstring.

(** The elements of [array.join(sep)] after the first one. *)
Fixpoint join_rest (sep : jstring) (l : list value) : result jstring :=
  match l with
  | [] => Return []
  | x :: r => s <- elem x ;; t <- join_rest sep r ;; Return (sep ++ s ++ t)
  end.

Definition join_with (sep : jstring) (l : list value) : result jstring :=
  match l with
  | [] => Return []
  | x :: r => s <- elem x ;; t <- join_rest sep r ;; Return (s ++ t)
  end.

End Join.

Definition has_own (props : list (jstring * value)) (k : jstring) : bool :=
  match own props k with Some _ => true | None => false end.

(** ToString.  An array is converted by [Array.prototype.toString], which
    joins its elements with a comma, [undefined] and [null] giving the empty
    string.  An object built by [JSON.parse] inherits
    [Object.prototype.toString]; an own property called [toString] hides it,
    is not callable, and leaves the conversion with no primitive to return. *)
Fixpoint ToString (v : value) : result jstring :=
  match v with
  | VUndefined => Return (lit "undefined")
  | VNull => Return (lit "null")
  | VBool b => Return (if b then lit "true" else lit "false")
  | VNumber x => Return (NumberToString x)
  | VString s => Return s
  | VArray items =>
      join_with
        (fun x => match x with
                  | VUndefined | VNull => Return []
                  | _ => ToString x
                  end)
        (lit ",") items
  | VObject props =>
      if has_own props (lit "toString") then Throw TypeError
      else Return (lit "[object Object]")
  end.

(** The element conversion of [Array.prototype.join]. *)
Definition join_element (x : value) : result jstring :=
  match x with
  | VUndefined | VNull => Return []
  | _ => ToString x
  end.

(** [array.join(sep)] *)
Definition join (sep : jstring) (l : list value) : result jstring :=
  join_with join_element sep l.

(** ToPrimitive, for either hint: the values built by [JSON.parse] have no
    callable [valueOf] that returns a primitive, so that both orders of
    trying [valueOf] and [toString] end in [toString]. *)
Definition ToPrimitive (v : value) : result value :=
  match v with
  | VArray _ | VObject _ => s <- ToString v ;; Return (VString s)
  | _ => Return v
  end.

(** ToNumber of a primitive value. *)
Definition ToNumber (v : value) : spec_float :=
  match v with
  | VUndefined => S754_nan
  | VNull => S754_zero false
  | VBool b => if b then dec_to_double false 1 0 else S754_zero false
  | VNumber x => x
  | VString s => StringToNumber s
  | VArray _ | VObject _ => S754_nan
  end.

(** [v > 0] *)
Definition gt_zero (v : value) : result bool :=
  p <- ToPrimitive v ;; Return (SFltb (S754_zero false) (ToNumber p)).

(** [Array.isArray(v)] *)
Definition isArray (v : value) : bool :=
  match v with VArray _ => true | _ => false end.

(** [v.includes(s)] for an array [v] and a string literal [s] *)
Definition includes (items : list value) (s : jstring) : bool :=
  existsb (fun x => strict_eq_string x s) items.

(** ** JSON.parse

    A recursive-descent reading of the JSON grammar over the code units of
    the text.  [None] stands for a syntax error. *)

Definition is_json_ws (c : N) : bool :=
  N.eqb c 32 || N.eqb c 9 || N.eqb c 10 || N.eqb c 13.

Fixpoint skip_ws (s : jstring) : jstring :=
  match s with
  | [] => []
  | c :: r => if is_json_ws c then skip_ws r else s
  end.

(** [s] without the prefix [p], when it starts with it. *)
Fixpoint strip_prefix (p s : jstring) : option jstring :=
  match p, s with
  | [], _ => Some s
  | x :: p', y :: s' => if N.eqb x y then strip_prefix p' s' else None
  | _ :: _, [] => None
  end.

Definition hex4 (a b c d : N) : option N :=
  match digit_in 16 a, digit_in 16 b, digit_in 16 c, digit_in 16 d with
  | Some x, Some y, Some z, Some w => Some (((x * 16 + y) * 16 + z) * 16 + w)%N
  | _, _, _, _ => None
  end.

(** The simple escapes: the character after the backslash (a quote, a
    backslash, a slash, or one of b, f, n, r, t), and its value. *)
Definition simple_escape (c : N) : option N :=
  if N.eqb c 34 then Some 34%N
  else if N.eqb c 92 then Some 92%N
  else if N.eqb c 47 then Some 47%N
  else if N.eqb c 98 then Some 8%N
  else if N.eqb c 102 then Some 12%N
  else if N.eqb c 110 then Some 10%N
  else if N.eqb c 114 then Some 13%N
  else if N.eqb c 116 then Some 9%N
  else None.

(** The characters of a string literal after its opening quote, up to the
    closing one: the string (built in reverse in [acc]) and the rest. *)
Fixpoint string_body (acc : jstring) (s : jstring) : option (jstring * jstring) :=
  match s with
  | [] => None
  | c :: r =>
      if N.eqb c 34 then Some (rev acc, r)
      else if N.eqb c 92 then
        match r with
        | [] => None
        | e :: r1 =>
            if N.eqb e 117 then
              match r1 with
              | h1 :: h2 :: h3 :: h4 :: r2 =>
                  match hex4 h1 h2 h3 h4 with
                  | Some u => string_body (u :: acc) r2
                  | None => None
                  end
              | _ => None
              end
            else
              match simple_escape e with
              | Some u => string_body (u :: acc) r1
              | None => None
              end
        end
      else if N.ltb c 32 then None
      else string_body (c :: acc) r
  end.

(** The parts of a number literal, each read at the head of the text and
    returned with the rest: the minus sign; the integer part, a zero or
    digits that do not start with one; the fraction, a dot and digits, if
    there is a dot; the exponent, if there is an [e]. *)
Definition minus_sign (s : jstring) : bool * jstring :=
  match s with
  | c :: r => if N.eqb c 45 then (true, r) else (false, s)
  | [] => (false, [])
  end.

Definition int_part (s : jstring) : option (jstring * jstring) :=
  match s with
  | c :: r =>
      if N.eqb c 48 then Some ([c], r)
      else if is_digit c then Some (take_digits s)
      else None
  | [] => None
  end.

Definition frac_part (s : jstring) : option (jstring * jstring) :=
  match s with
  | c :: r =>
      if N.eqb c 46 then
        match take_digits r with
        | ([], _) => None
        | (fp, r2) => Some (fp, r2)
        end
      else Some ([], s)
  | [] => Some ([], [])
  end.

Definition exp_part (s : jstring) : option (Z * jstring) :=
  match s with
  | c :: r =>
      if N.eqb c 101 || N.eqb c 69 then
        let '(eneg, r3) := take_sign r in
        match take_digits r3 with
        | ([], _) => None
        | (ds, r4) =>
            let e := Z.of_N (digits_value ds) in
            Some (if eneg then Z.opp e else e, r4)
        end
      else Some (0%Z, s)
  | [] => Some (0%Z, [])
  end.

(** A number literal at the head of the text: its Number and the rest. *)
Definition number_literal (s : jstring) : option (spec_float * jstring) :=
  let '(neg, s1) := minus_sign s in
  match int_part s1 with
  | None => None
  | Some (ip, r1) =>
      match frac_part r1 with
      | None => None
      | Some (fp, r2) =>
          match exp_part r2 with
          | None => None
          | Some (e, r4) =>
              Some (dec_to_double neg (digits_value (ip ++ fp))
                      (e - Z.of_nat (List.length fp)), r4)
          end
      end
  end.

(** The property [k] set to [v]: a repeated name keeps its place and takes
    the later value. *)
Fixpoint set_prop (props : list (jstring * value)) (k : jstring) (v : value)
  : list (jstring * value) :=
  match props with
  | [] => [(k, v)]
  | (k', v') :: r =>
      if jstr_eqb k' k then (k', v) :: r else (k', v') :: set_prop r k v
  end.

Definition ch_comma : N := 44.
Definition ch_colon : N := 58.
Definition ch_quote : N := 34.
Definition ch_lbracket : N := 91.
Definition ch_rbracket : N := 93.
Definition ch_lbrace : N := 123.
Definition ch_rbrace : N := 125.

(** [parse_value] reads one value; [parse_elements] the elements of an array
    from the start of an element on, [parse_members] the members of an object
    from the start of a member on.  Every call made with less fuel is made on
    a shorter text or follows one that is, so that twice the length of the
    text is fuel enough ([JSON_parse_fuel] below). *)
Fixpoint parse_value (fuel : nat) (s : jstring) : option (value * jstring) :=
  match fuel with
  | O => None
  | S f =>
      match skip_ws s with
      | [] => None
      | c :: r =>
          if N.eqb c ch_lbrace then
            match skip_ws r with
            | d :: r1 =>
                if N.eqb d ch_rbrace then Some (VObject [], r1)
                else parse_members f [] r
            | [] => None
            end
          else if N.eqb c ch_lbracket then
            match skip_ws r with
            | d :: r1 =>
                if N.eqb d ch_rbracket then Some (VArray [], r1)
                else parse_elements f [] r
            | [] => None
            end
          else if N.eqb c ch_quote then
            match string_body [] r with
            | Some (str, r1) => Some (VString str, r1)
            | None => None
            end
          else
            match strip_prefix (lit "true") (c :: r),
                  strip_prefix (lit "false") (c :: r),
                  strip_prefix (lit "null") (c :: r) with
            | Some r1, _, _ => Some (VBool true, r1)
            | _, Some r1, _ => Some (VBool false, r1)
            | _, _, Some r1 => Some (VNull, r1)
            | None, None, None =>
                match number_literal (c :: r) with
                | Some (x, r1) => Some (VNumber x, r1)
                | None => None
                end
            end
      end
  end
with parse_elements (fuel : nat) (acc : list value) (s : jstring)
  : option (value * jstring) :=
  match fuel with
  | O => None
  | S f =>
      match parse_value f s with
      | None => None
      | Some (v, r) =>
          match skip_ws r with
          | d :: r1 =>
              if N.eqb d ch_comma then parse_elements f (acc ++ [v]) r1
              else if N.eqb d ch_rbracket then Some (VArray (acc ++ [v]), r1)
              else None
          | [] => None
          end
      end
  end
with parse_members (fuel : nat) (acc : list (jstring * value)) (s : jstring)
  : option (value * jstring) :=
  match fuel with
  | O => None
  | S f =>
      match skip_ws s with
      | q :: r =>
          if N.eqb q ch_quote then
            match string_body [] r with
            | None => None
            | Some (k, r1) =>
                match skip_ws r1 with
                | c :: r2 =>
                    if N.eqb c ch_colon then
                      match parse_value f r2 with
                      | None => None
                      | Some (v, r3) =>
                          match skip_ws r3 with
                          | d :: r4 =>
                              if N.eqb d ch_comma
                              then parse_members f (set_prop acc k v) r4
                              else if N.eqb d ch_rbrace
                              then Some (VObject (set_prop acc k v), r4)
                              else None
                          | [] => None
                          end
                      end
                    else None
                | [] => None
                end
            end
          else None
      | [] => None
      end
  end.

(** [jq "{'a': 1}"] is the text of an ASCII literal with its apostrophes
    read as double quotes, for writing JSON text. *)
Definition jq (s : string) : jstring :=
  map (fun c => if N.eqb c 39 then 34%N else c) (lit s).

(** [JSON.parse(text)] *)
Definition JSON_parse (text : jstring) : result value :=
  match parse_value (2 * List.length text + 2) text with
  | Some (v, r) =>
      match skip_ws r with
      | [] => Return v
      | _ :: _ => Throw SyntaxError
      end
  | None => Throw SyntaxError
  end.

(** ** encodeURIComponent

    The characters that are left as they are: letters, digits and the marks
    [- _ . ! ~ * ' ( )]. *)
Definition uri_unreserved (c : N) : bool :=
  (N.leb 65 c && N.leb c 90) || (N.leb 97 c && N.leb c 122) || is_digit c
  || N.eqb c 45 || N.eqb c 95 || N.eqb c 46 || N.eqb c 33 || N.eqb c 126
  || N.eqb c 42 || N.eqb c 39 || N.eqb c 40 || N.eqb c 41.

(** The upper-case hexadecimal digit of a number below 16. *)
Definition hex_digit (n : N) : N := if N.ltb n 10 then (48 + n)%N else (55 + n)%N.

Definition ch_percent : N := 37.

(** An octet as a percent sign and two hexadecimal digits. *)
Definition percent_octet (o : N) : jstring :=
  [ch_percent; hex_digit ((o / 16) mod 16); hex_digit (o mod 16)].

(** The UTF-8 octets of a code point. *)
Definition utf8 (cp : N) : list N :=
  if N.ltb cp 128 then [cp]
  else if N.ltb cp 2048 then [192 + cp / 64; 128 + cp mod 64]%N
  else if N.ltb cp 65536
  then [224 + cp / 4096; 128 + (cp / 64) mod 64; 128 + cp mod 64]%N
  else [240 + cp / 262144; 128 + (cp / 4096) mod 64;
        128 + (cp / 64) mod 64; 128 + cp mod 64]%N.

Definition percent_encode (cp : N) : jstring := flat_map percent_octet (utf8 cp).

(** Leading and trailing surrogates. *)
Definition is_lead (c : N) : bool := N.leb 55296 c && N.leb c 56319.
Definition is_trail (c : N) : bool := N.leb 56320 c && N.leb c 57343.

(** The code point of a surrogate pair. *)
Definition pair_code_point (lead trail : N) : N :=
  ((lead - 55296) * 1024 + (trail - 56320) + 65536)%N.

(** [encodeURIComponent(s)]; [None] stands for the URIError raised on a
    surrogate that has no partner. *)
Fixpoint encodeURIComponent (s : jstring) : option jstring :=
  match s with
  | [] => Some []
  | c :: r =>
      if uri_unreserved c then option_map (cons c) (encodeURIComponent r)
      else if is_trail c then None
      else if is_lead c then
        match r with
        | d :: r' =>
            if is_trail d
            then option_map (app (percent_encode (pair_code_point c d)))
                            (encodeURIComponent r')
            else None
        | [] => None
        end
      else option_map (app (percent_encode c)) (encodeURIComponent r)
  end.

(** ** The parsed document

    [parseRecipe] hands the page text to [DOMParser] and works on the
    document it returns, through two operations only: [querySelectorAll],
    which lists the elements matching a selector in document order, and the
    [textContent] of an element.  [querySelector] returns the first element
    of that list, or [null]. *)

Record Element := { textContent : jstring }.

Record Document := { querySelectorAll : jstring -> list Element }.

Definition querySelector (doc : Document) (selector : jstring) : option Element :=
  hd_error (querySelectorAll doc selector).

(* ===================================================================== *)
(** * Part II: the core of app.js                                        *)
(* ===================================================================== *)

(** The record [{ title, ingredients, instructions }].  The title and the
    ingredients are whatever values the structured data holds; the
    instructions have been through [trim] and are strings. *)
Record Recipe := {
  title : value;
  ingredients : list value;
  instructions : list jstring
}.

(** ** normalizeRecipe (lines 106-150) *)

(** [x.text || x.name || ''] (lines 130 and 135) *)
Definition text_or_name (x : value) : result value :=
  t <- Get x (lit "text") ;;
  if ToBoolean t then Return t
  else n <- Get x (lit "name") ;; Return (or_else n (VString [])).

(** The callback of line 134:
    [step => typeof step === 'string' ? step : (step.text || step.name || '')] *)
Definition resolve_step (step : value) : result value :=
  if is_string step then Return step else text_or_name step.

(** [v.map(f)]: only an array has the method. *)
Definition call_map (v : value) (f : value -> result value) : result (list value) :=
  match v with
  | VArray items => mapM f items
  | _ => Throw TypeError
  end.

(** The callback of lines 126-140. *)
Definition resolve_item (item : value) : result value :=
  if is_string item then Return item
  else
    t <- Get item (lit "text") ;;
    if ToBoolean t then Return t
    else
      n <- Get item (lit "name") ;;
      if ToBoolean n then Return n
      else
        ty <- Get item (lit "@type") ;;
        if strict_eq_string ty (lit "HowToStep") then text_or_name item
        else if strict_eq_string ty (lit "HowToSection") then
          l <- Get item (lit "itemListElement") ;;
          if ToBoolean l then
            steps <- call_map l resolve_step ;;
            joined <- join (lit " ") steps ;;
            Return (VString joined)
          else Return (VString [])
        else Return (VString []).

(** [s => s.length > 0] (line 140).  The length of a string or of an array
    is the number of its elements, a Number that is positive when there is
    one; a number or a boolean has no [length], and an object has the one it
    was given, if any. *)
Definition length_positive (s : value) : result bool :=
  match s with
  | VString t => Return (non_empty t)
  | VArray items => Return (match items with [] => false | _ :: _ => true end)
  | _ => len <- Get s (lit "length") ;; gt_zero len
  end.

(** [s => s.trim().length > 0] (line 124), on the strings [split] returns *)
Definition not_blank (s : jstring) : bool :=
  match trim s with [] => false | _ :: _ => true end.

(** [inst.replace(/<[^>]*>/g, '').replace(/\s+/g, ' ').trim()] on a string *)
Definition clean (s : jstring) : jstring :=
  trim (collapse_spaces (strip_tags s)).

(** The callback of lines 145-147: only a string has [replace]. *)
Definition clean_instruction (inst : value) : result jstring :=
  match inst with
  | VString s => Return (clean s)
  | _ => Throw TypeError
  end.

(** Lines 118-142: the instructions before the clean-up. *)
Definition raw_instructions (data : value) : result (list value) :=
  ri <- Get data (lit "recipeInstructions") ;;
  if ToBoolean ri then
    match ri with
    | VString s => Return (map VString (filter not_blank (split_sentences s)))
    | VArray items =>
        resolved <- mapM resolve_item items ;;
        filterM length_positive resolved
    | _ => Return []
    end
  else Return [].

Definition normalizeRecipe (data : value) : result Recipe :=
  name <- Get data (lit "name") ;;
  let title := or_else name (VString (lit "Untitled Recipe")) in
  ing <- Get data (lit "recipeIngredient") ;;
  let ingredients :=
    if ToBoolean ing
    then match ing with VArray items => items | _ => [ing] end
    else [] in
  raw <- raw_instructions data ;;
  instructions <- mapM clean_instruction raw ;;
  Return {| title := title; ingredients := ingredients; instructions := instructions |}.

(** ** extractJsonLdRecipe (lines 73-104) *)

(** The test of lines 88-89 and 94-95:
    [x['@type'] === 'Recipe' ||
     (Array.isArray(x['@type']) && x['@type'].includes('Recipe'))] *)
Definition is_recipe_type (x : value) : result bool :=
  ty <- Get x (lit "@type") ;;
  if strict_eq_string ty (lit "Recipe") then Return true
  else
    match ty with
    | VArray types => Return (includes types (lit "Recipe"))
    | _ => Return false
    end.

(** Lines 81-83: the value under [@graph] replaces the decoded one when it
    is truthy. *)
Definition unwrap_graph (data : value) : result value :=
  g <- Get data (lit "@graph") ;;
  Return (if ToBoolean g then g else data).

(** Lines 86-97 up to the calls of [normalizeRecipe]: the record handed to
    it, if any. *)
Definition select_recipe (data : value) : result (option value) :=
  match data with
  | VArray items =>
      recipeData <- findM is_recipe_type items ;;
      match recipeData with
      | Some r => Return (if ToBoolean r then Some r else None)
      | None => Return None
      end
  | _ =>
      b <- is_recipe_type data ;;
      Return (if b then Some data else None)
  end.

(** The body of the [try] of lines 77-97 for one script element:
    [Return (Some r)] when it returns [r] from the function, [Return None]
    when it runs to its end, [Throw] when it raises. *)
Definition try_script (script : Element) : result (option Recipe) :=
  parsed <- JSON_parse (textContent script) ;;
  data <- unwrap_graph parsed ;;
  selected <- select_recipe data ;;
  match selected with
  | Some r => recipe <- normalizeRecipe r ;; Return (Some recipe)
  | None => Return None
  end.

(** The loop of lines 76-101 and the [return null] after it: the [catch]
    goes on with the next script element. *)
Fixpoint scan_scripts (scripts : list Element) : result (option Recipe) :=
  match scripts with
  | [] => Return None
  | script :: rest =>
      found <- try_catch (try_script script) (fun _ => Return None) ;;
      match found with
      | Some recipe => Return (Some recipe)
      | None => scan_scripts rest
      end
  end.

Definition ld_json_selector : jstring := jq "script[type='application/ld+json']".

Definition extractJsonLdRecipe (doc : Document) : result (option Recipe) :=
  scan_scripts (querySelectorAll doc ld_json_selector).

(** ** extractHtmlRecipe (lines 152-218) *)

Definition titleSelectors : list jstring :=
  [ lit "h1.recipe-title"; lit "h1.entry-title"; lit ".recipe-name";
    jq "h1[itemprop='name']"; lit ".tasty-recipes-title";
    lit "h2.wprm-recipe-name"; lit "h1" ].

Definition ingredientSelectors : list jstring :=
  [ jq "[itemprop='recipeIngredient']"; lit ".ingredient"; lit ".ingredients li";
    lit ".recipe-ingredients li"; lit ".wprm-recipe-ingredient";
    lit ".tasty-recipes-ingredients li" ].

Definition instructionSelectors : list jstring :=
  [ jq "[itemprop='recipeInstructions']"; lit ".instructions li";
    lit ".recipe-instructions li"; lit ".directions li";
    lit ".wprm-recipe-instruction"; lit ".tasty-recipes-instructions li" ].

(** The loop of lines 169-175; the title is [''] when it never breaks. *)
Fixpoint find_title (doc : Document) (selectors : list jstring) : jstring :=
  match selectors with
  | [] => []
  | selector :: rest =>
      match querySelector doc selector with
      | Some el =>
          if non_empty (trim (textContent el)) then trim (textContent el)
          else find_title doc rest
      | None => find_title doc rest
      end
  end.

(** The loops of lines 187-193 and 205-211; the list is [[]] when they never
    break. *)
Fixpoint find_texts (doc : Document) (selectors : list jstring) : list jstring :=
  match selectors with
  | [] => []
  | selector :: rest =>
      let elements := querySelectorAll doc selector in
      if Nat.ltb 0 (List.length elements)
      then map (fun el => trim (textContent el)) elements
      else find_texts doc rest
  end.

Definition extractHtmlRecipe (doc : Document) : option Recipe :=
  let title := find_title doc titleSelectors in
  let ingredients := find_texts doc ingredientSelectors in
  let instructions := find_texts doc instructionSelectors in
  if non_empty title
     && (Nat.ltb 0 (List.length ingredients) || Nat.ltb 0 (List.length instructions))
  then Some {| title := VString title;
               ingredients := map VString ingredients;
               instructions := instructions |}
  else None.

(** ** parseRecipe (lines 60-71)

    [doc] is the document [DOMParser] built from the page text; [url] is not
    used by the function.  [None] is [null]. *)
Definition parseRecipe (doc : Document) (url : jstring) : result (option Recipe) :=
  recipe <- extractJsonLdRecipe doc ;;
  match recipe with
  | Some r => Return (Some r)
  | None => Return (extractHtmlRecipe doc)
  end.

(* ===================================================================== *)
(** * Part II, continued: the page around the core                       *)
(* ===================================================================== *)

(** ** The page

    What app.js reads and writes of the page that hosts it: the value of the
    URL input, whether the button is disabled, the text and the inline
    [display] of the error box, the inline [display] of the loading box and of
    the actions, whether the recipe card carries the class [visible], the text
    of the title element, and the children of the two lists, by their text.
    The elements are those that lines 5-10 and [displayRecipe] look up by id;
    the page is taken to have them. *)
Record Page := {
  urlInput_value : jstring;
  fetchBtn_disabled : bool;
  errorDiv_textContent : jstring;
  errorDiv_display : jstring;
  loadingDiv_display : jstring;
  recipeCard_visible : bool;
  actionsDiv_display : jstring;
  recipe_title : jstring;
  ingredients_list : list jstring;
  instructions_list : list jstring
}.

(** The assignments to one property each. *)
Definition set_urlInput_value (x : jstring) (p : Page) : Page :=
  {| urlInput_value := x;
     fetchBtn_disabled := fetchBtn_disabled p;
     errorDiv_textContent := errorDiv_textContent p;
     errorDiv_display := errorDiv_display p;
     loadingDiv_display := loadingDiv_display p;
     recipeCard_visible := recipeCard_visible p;
     actionsDiv_display := actionsDiv_display p;
     recipe_title := recipe_title p;
     ingredients_list := ingredients_list p;
     instructions_list := instructions_list p |}.

Definition set_fetchBtn_disabled (x : bool) (p : Page) : Page :=
  {| urlInput_value := urlInput_value p;
     fetchBtn_disabled := x;
     errorDiv_textContent := errorDiv_textContent p;
     errorDiv_display := errorDiv_display p;
     loadingDiv_display := loadingDiv_display p;
     recipeCard_visible := recipeCard_visible p;
     actionsDiv_display := actionsDiv_display p;
     recipe_title := recipe_title p;
     ingredients_list := ingredients_list p;
     instructions_list := instructions_list p |}.

Definition set_errorDiv_textContent (x : jstring) (p : Page) : Page :=
  {| urlInput_value := urlInput_value p;
     fetchBtn_disabled := fetchBtn_disabled p;
     errorDiv_textContent := x;
     errorDiv_display := errorDiv_display p;
     loadingDiv_display := loadingDiv_display p;
     recipeCard_visible := recipeCard_visible p;
     actionsDiv_display := actionsDiv_display p;
     recipe_title := recipe_title p;
     ingredients_list := ingredients_list p;
     instructions_list := instructions_list p |}.

Definition set_errorDiv_display (x : jstring) (p : Page) : Page :=
  {| urlInput_value := urlInput_value p;
     fetchBtn_disabled := fetchBtn_disabled p;
     errorDiv_textContent := errorDiv_textContent p;
     errorDiv_display := x;
     loadingDiv_display := loadingDiv_display p;
     recipeCard_visible := recipeCard_visible p;
     actionsDiv_display := actionsDiv_display p;
     recipe_title := recipe_title p;
     ingredients_list := ingredients_list p;
     instructions_list := instructions_list p |}.

Definition set_loadingDiv_display (x : jstring) (p : Page) : Page :=
  {| urlInput_value := urlInput_value p;
     fetchBtn_disabled := fetchBtn_disabled p;
     errorDiv_textContent := errorDiv_textContent p;
     errorDiv_display := errorDiv_display p;
     loadingDiv_display := x;
     recipeCard_visible := recipeCard_visible p;
     actionsDiv_display := actionsDiv_display p;
     recipe_title := recipe_title p;
     ingredients_list := ingredients_list p;
     instructions_list := instructions_list p |}.

Definition set_recipeCard_visible (x : bool) (p : Page) : Page :=
  {| urlInput_value := urlInput_value p;
     fetchBtn_disabled := fetchBtn_disabled p;
     errorDiv_textContent := errorDiv_textContent p;
     errorDiv_display := errorDiv_display p;
     loadingDiv_display := loadingDiv_display p;
     recipeCard_visible := x;
     actionsDiv_display := actionsDiv_display p;
     recipe_title := recipe_title p;
     ingredients_list := ingredients_list p;
     instructions_list := instructions_list p |}.

Definition set_actionsDiv_display (x : jstring) (p : Page) : Page :=
  {| urlInput_value := urlInput_value p;
     fetchBtn_disabled := fetchBtn_disabled p;
     errorDiv_textContent := errorDiv_textContent p;
     errorDiv_display := errorDiv_display p;
     loadingDiv_display := loadingDiv_display p;
     recipeCard_visible := recipeCard_visible p;
     actionsDiv_display := x;
     recipe_title := recipe_title p;
     ingredients_list := ingredients_list p;
     instructions_list := instructions_list p |}.

Definition set_recipe_title (x : jstring) (p : Page) : Page :=
  {| urlInput_value := urlInput_value p;
     fetchBtn_disabled := fetchBtn_disabled p;
     errorDiv_textContent := errorDiv_textContent p;
     errorDiv_display := errorDiv_display p;
     loadingDiv_display := loadingDiv_display p;
     recipeCard_visible := recipeCard_visible p;
     actionsDiv_display := actionsDiv_display p;
     recipe_title := x;
     ingredients_list := ingredients_list p;
     instructions_list := instructions_list p |}.

Definition set_ingredients_list (x : list jstring) (p : Page) : Page :=
  {| urlInput_value := urlInput_value p;
     fetchBtn_disabled := fetchBtn_disabled p;
     errorDiv_textContent := errorDiv_textContent p;
     errorDiv_display := errorDiv_display p;
     loadingDiv_display := loadingDiv_display p;
     recipeCard_visible := recipeCard_visible p;
     actionsDiv_display := actionsDiv_display p;
     recipe_title := recipe_title p;
     ingredients_list := x;
     instructions_list := instructions_list p |}.

Definition set_instructions_list (x : list jstring) (p : Page) : Page :=
  {| urlInput_value := urlInput_value p;
     fetchBtn_disabled := fetchBtn_disabled p;
     errorDiv_textContent := errorDiv_textContent p;
     errorDiv_display := errorDiv_display p;
     loadingDiv_display := loadingDiv_display p;
     recipeCard_visible := recipeCard_visible p;
     actionsDiv_display := actionsDiv_display p;
     recipe_title := recipe_title p;
     ingredients_list := ingredients_list p;
     instructions_list := x |}.

(** ** What the browser provides

    [new URL(s)] raising or not, the document [DOMParser] builds from a page
    text, and the messages of the exceptions that the engine itself raises,
    which differ from one engine to the other. *)
Record Browser := {
  URL_valid : jstring -> bool;
  parseFromString : jstring -> Document;
  exception_message : exn -> jstring;
  URIError_message : jstring
}.

(** An exception object, by its [message]. *)
Record Error := { message : jstring }.

(** A promise that has settled. *)
Inductive settled (A : Type) : Type :=
| Fulfilled (a : A)
| Rejected (err : Error).

Arguments Fulfilled {A} a.
Arguments Rejected {A} err.

(** What [fetch] resolves to: a response with its [ok] flag and with what its
    [text()] settles to. *)
Record Response := { ok : bool; text : settled jstring }.

(** ** showError, hideError, showLoading, hideLoading (lines 262-277) *)

Definition showError (message : jstring) (p : Page) : Page :=
  set_errorDiv_display (lit "block") (set_errorDiv_textContent message p).

Definition hideError (p : Page) : Page := set_errorDiv_display (lit "none") p.

Definition showLoading (p : Page) : Page := set_loadingDiv_display (lit "block") p.

Definition hideLoading (p : Page) : Page := set_loadingDiv_display (lit "none") p.

(** ** isValidUrl (lines 253-260) *)

Definition isValidUrl (b : Browser) (string : jstring) : bool := URL_valid b string.

(** ** resetCard (lines 246-251) *)

Definition resetCard (p : Page) : Page :=
  hideError
    (set_actionsDiv_display (lit "none")
       (set_recipeCard_visible false (set_urlInput_value [] p))).

(** ** displayRecipe (lines 220-244) *)

(** The conversion of a value assigned to [textContent]: [null] and
    [undefined] give the empty text, any other value its ToString. *)
Definition to_text (v : value) : result jstring :=
  match v with
  | VUndefined | VNull => Return []
  | _ => ToString v
  end.

(** The [forEach] of lines 226-230 from the item [ing] on: each item becomes
    a new [li] appended to the children [shown]; the first conversion that
    raises ends the loop, with the children appended so far in place. *)
Fixpoint append_items (items : list value) (shown : list jstring)
  : list jstring * result unit :=
  match items with
  | [] => (shown, Return tt)
  | ing :: rest =>
      match to_text ing with
      | Return t => append_items rest (shown ++ [t])
      | Throw e => (shown, Throw e)
      end
  end.

(** The [forEach] of lines 235-239, on instructions, which are strings. *)
Definition append_texts (texts : list jstring) (shown : list jstring) : list jstring :=
  fold_left (fun children inst => children ++ [inst]) texts shown.

(** The page after the call, and whether the call returned or raised. *)
Definition displayRecipe (recipe : Recipe) (p : Page) : Page * result unit :=
  match to_text (title recipe) with
  | Throw e => (p, Throw e)
  | Return t =>
      let p1 := set_recipe_title t p in
      let '(children, done) := append_items (ingredients recipe) [] in
      let p2 := set_ingredients_list children p1 in
      match done with
      | Throw e => (p2, Throw e)
      | Return _ =>
          let p3 := set_instructions_list (append_texts (instructions recipe) []) p2 in
          (set_actionsDiv_display (lit "flex") (set_recipeCard_visible true p3),
           Return tt)
      end
  end.

(** ** fetchRecipe (lines 17-58)

    The function is asynchronous: it runs to its first [await], and goes on
    when the promise of [fetch] has settled, and again when that of
    [response.text()] has.  Each of the three stretches is a function of the
    page as it is when the stretch starts. *)

Definition CORS_PROXY : jstring := lit "https://corsproxy.io/?".

(** The [finally] of lines 54-57. *)
Definition finish (p : Page) : Page := set_fetchBtn_disabled false (hideLoading p).

(** The [catch] of lines 52-54, followed by the [finally]. *)
Definition catch_error (error : Error) (p : Page) : Page :=
  finish
    (showError
       (if non_empty (message error) then message error
        else lit "Failed to fetch recipe. Try a different URL.")
       p).

(** Where a stretch leaves the call: done, waiting for [fetch] (with the URL
    requested and the trimmed URL typed), or waiting for the text of the
    response. *)
Inductive fetch_state :=
| Done (p : Page)
| AwaitFetch (request url : jstring) (p : Page)
| AwaitText (url : jstring) (p : Page).

(** Lines 18-38, up to the call of [fetch]. *)
Definition fetchRecipe_start (b : Browser) (p : Page) : fetch_state :=
  let url := trim (urlInput_value p) in
  if negb (non_empty url)
  then Done (showError (lit "Please enter a recipe URL") p)
  else if negb (isValidUrl b url)
  then Done (showError (lit "Please enter a valid URL") p)
  else
    let p1 :=
      set_fetchBtn_disabled true
        (set_actionsDiv_display (lit "none")
           (set_recipeCard_visible false (showLoading (hideError p)))) in
    match encodeURIComponent url with
    | None => Done (catch_error {| message := URIError_message b |} p1)
    | Some encoded => AwaitFetch (CORS_PROXY ++ encoded) url p1
    end.

(** Lines 38-44, once [fetch] has settled, up to the call of [text]. *)
Definition fetchRecipe_fetched (with_ok : settled bool) (url : jstring) (p : Page)
  : fetch_state :=
  match with_ok with
  | Rejected error => Done (catch_error error p)
  | Fulfilled false =>
      Done (catch_error {| message := lit "Failed to fetch the recipe page" |} p)
  | Fulfilled true => AwaitText url p
  end.

(** Lines 44-57, once [text] has settled. *)
Definition fetchRecipe_loaded (b : Browser) (html : settled jstring) (url : jstring)
  (p : Page) : Page :=
  match html with
  | Rejected error => catch_error error p
  | Fulfilled html =>
      match parseRecipe (parseFromString b html) url with
      | Throw e => catch_error {| message := exception_message b e |} p
      | Return None =>
          catch_error
            {| message :=
                 lit "Could not find recipe data on this page. Try a different recipe site." |}
            p
      | Return (Some recipe) =>
          match displayRecipe recipe p with
          | (p', Return _) => finish p'
          | (p', Throw e) => catch_error {| message := exception_message b e |} p'
          end
      end
  end.

(** A whole call.  While the call waits, the other handlers of the page
    run: Enter in the URL input starts another call (lines 13-15; line 35
    disables the button only), the user types, [resetCard] is called.
    [during_fetch] and [during_text] are what they do to the page during the
    first and during the second wait; [network] is what [fetch] settles to
    for the URL requested. *)
Definition fetchRecipe (b : Browser) (network : jstring -> settled Response)
  (during_fetch during_text : Page -> Page) (p : Page) : Page :=
  match fetchRecipe_start b p with
  | Done p' => p'
  | AwaitText url p' => p'
  | AwaitFetch request url p1 =>
      match network request with
      | Rejected error => catch_error error (during_fetch p1)
      | Fulfilled response =>
          match fetchRecipe_fetched (Fulfilled (ok response)) url (during_fetch p1) with
          | Done p' => p'
          | AwaitFetch _ _ p' => p'
          | AwaitText url' p2 =>
              fetchRecipe_loaded b (text response) url' (during_text p2)
          end
      end
  end.

(** The handler of lines 13-15 when the key is Enter, on an input that the
    user has emptied: a call of [fetchRecipe], which ends at its first
    guard. *)
Definition enter_on_emptied_input (b : Browser) (q : Page) : Page :=
  fetchRecipe b (fun _ => Rejected {| message := [] |}) (fun x => x) (fun x => x)
    (set_urlInput_value [] q).

(* ===================================================================== *)
(** * Part II, continued: the objects that the extraction can reach      *)
(* ===================================================================== *)

(** ** The world

    The functions of the core are handed a document, which is an object that
    every holder of a reference can read and change, and they run in a page
    whose elements the other functions of app.js write.  Here the core is
    transcribed once more, over that shared state: a world holds the hosting
    page, the nodes that each document has for a selector, in document
    order, and the text of every node.  A function that runs in the world
    takes the world as it is and returns, with its result or its exception,
    the world as it leaves it. *)
Module Shared.

Definition doc_ref := nat.
Definition node_ref := nat.

Record World := {
  hosting : Page;
  matching : doc_ref -> jstring -> list node_ref;
  node_text : node_ref -> jstring
}.

Definition Run (A : Type) : Type := World -> result A * World.

Definition ret {A : Type} (a : A) : Run A := fun w => (Return a, w).

Definition bind {A B : Type} (c : Run A) (k : A -> Run B) : Run B :=
  fun w =>
    match c w with
    | (Return a, w') => k a w'
    | (Throw e, w') => (Throw e, w')
    end.

Notation "x <<- c ;; k" := (bind c (fun x => k))
  (at level 61, c at next level, right associativity).

(** [try { body } catch (e) { handler }]: what the body wrote before it
    raised stays written. *)
Definition try_catch {A : Type} (body : Run A) (handler : exn -> Run A) : Run A :=
  fun w =>
    match body w with
    | (Return a, w') => (Return a, w')
    | (Throw e, w') => handler e w'
    end.

(** A computation on values, which reaches nothing of the world:
    [JSON.parse] and the methods of strings and arrays return new values. *)
Definition lift {A : Type} (r : result A) : Run A := fun w => (r, w).

(** ** The operations on nodes *)

(** [doc.querySelectorAll(selector)] *)
Definition querySelectorAll (doc : doc_ref) (selector : jstring) : Run (list node_ref) :=
  fun w => (Return (matching w doc selector), w).

(** [doc.querySelector(selector)] *)
Definition querySelector (doc : doc_ref) (selector : jstring) : Run (option node_ref) :=
  fun w => (Return (hd_error (matching w doc selector)), w).

(** [node.textContent], read *)
Definition textContent (node : node_ref) : Run jstring :=
  fun w => (Return (node_text w node), w).

(** [node.textContent = t], as any holder of the node can do *)
Definition set_textContent (node : node_ref) (t : jstring) : Run unit :=
  fun w =>
    (Return tt,
     {| hosting := hosting w;
        matching := matching w;
        node_text := fun n => if Nat.eqb n node then t else node_text w n |}).

(** ** extractJsonLdRecipe (lines 73-104) *)

(** The loop of lines 76-101: the text of the script element is read inside
    the [try]; the rest of the body works on the value decoded from it. *)
Fixpoint scan_scripts (scripts : list node_ref) : Run (option Recipe) :=
  match scripts with
  | [] => ret None
  | script :: rest =>
      found <<- try_catch
                  (text <<- textContent script ;;
                   lift (try_script (Build_Element text)))
                  (fun _ => ret None) ;;
      match found with
      | Some recipe => ret (Some recipe)
      | None => scan_scripts rest
      end
  end.

Definition extractJsonLdRecipe (doc : doc_ref) : Run (option Recipe) :=
  scripts <<- querySelectorAll doc ld_json_selector ;;
  scan_scripts scripts.

(** ** extractHtmlRecipe (lines 152-218) *)

(** The loop of lines 169-175, which reads the text of the element once for
    the test and once more for the title. *)
Fixpoint find_title (doc : doc_ref) (selectors : list jstring) : Run jstring :=
  match selectors with
  | [] => ret []
  | selector :: rest =>
      found <<- querySelector doc selector ;;
      match found with
      | Some el =>
          tested <<- textContent el ;;
          if non_empty (trim tested)
          then text <<- textContent el ;; ret (trim text)
          else find_title doc rest
      | None => find_title doc rest
      end
  end.

(** [Array.from(elements).map(el => el.textContent.trim())] *)
Fixpoint read_texts (elements : list node_ref) : Run (list jstring) :=
  match elements with
  | [] => ret []
  | el :: rest =>
      text <<- textContent el ;;
      texts <<- read_texts rest ;;
      ret (trim text :: texts)
  end.

(** The loops of lines 187-193 and 205-211 *)
Fixpoint find_texts (doc : doc_ref) (selectors : list jstring) : Run (list jstring) :=
  match selectors with
  | [] => ret []
  | selector :: rest =>
      elements <<- querySelectorAll doc selector ;;
      if Nat.ltb 0 (List.length elements)
      then read_texts elements
      else find_texts doc rest
  end.

Definition extractHtmlRecipe (doc : doc_ref) : Run (option Recipe) :=
  title <<- find_title doc titleSelectors ;;
  ingredients <<- find_texts doc ingredientSelectors ;;
  instructions <<- find_texts doc instructionSelectors ;;
  ret (if non_empty title
          && (Nat.ltb 0 (List.length ingredients)
              || Nat.ltb 0 (List.length instructions))
       then Some {| title := VString title;
                    ingredients := map VString ingredients;
                    instructions := instructions |}
       else None).

(** ** parseRecipe (lines 60-71), on the document that [DOMParser] built *)

Definition parseRecipe (doc : doc_ref) (url : jstring) : Run (option Recipe) :=
  recipe <<- extractJsonLdRecipe doc ;;
  match recipe with
  | Some r => ret (Some r)
  | None => extractHtmlRecipe doc
  end.

(** ** displayRecipe (lines 220-244), which writes the hosting page *)

Definition displayRecipe (recipe : Recipe) : Run unit :=
  fun w =>
    (snd (displayRecipe recipe (hosting w)),
     {| hosting := fst (displayRecipe recipe (hosting w));
        matching := matching w;
        node_text := node_text w |}).

End Shared.

(* ===================================================================== *)
(** * Part III: notions used in the statements                           *)
(* ===================================================================== *)

(** A script element that the loop passes over: its [try] body runs to its
    end without a record, or raises and is caught. *)
Definition yields_nothing (script : Element) : Prop :=
  try_catch (try_script script) (fun _ => Return None) = Return None.

(** Why the scan passes over a script element: its text does not decode; or
    the inspection of the decoded value raises (the look-up of [@graph] or
    the type test); or the decoded value holds no record to select; or the
    Normalizer raises on the record selected. *)
Inductive passed_over (script : Element) : Prop :=
| not_decoded (e : exn) :
    JSON_parse (textContent script) = Throw e ->
    passed_over script
| inspection_raises (parsed : value) (e : exn) :
    JSON_parse (textContent script) = Return parsed ->
    (unwrap_graph parsed = Throw e
     \/ exists data, unwrap_graph parsed = Return data /\ select_recipe data = Throw e) ->
    passed_over script
| no_record (parsed data : value) :
    JSON_parse (textContent script) = Return parsed ->
    unwrap_graph parsed = Return data ->
    select_recipe data = Return None ->
    passed_over script
| normalizer_raises (parsed data rec : value) (e : exn) :
    JSON_parse (textContent script) = Return parsed ->
    unwrap_graph parsed = Return data ->
    select_recipe data = Return (Some rec) ->
    normalizeRecipe rec = Throw e ->
    passed_over script.

(** The declared type of a value is Recipe: the value is an object whose
    [@type] is the string [Recipe], or a list that holds that string. *)
Definition recipe_typed (x : value) : Prop :=
  exists props,
    x = VObject props
    /\ (own props (lit "@type") = Some (VString (lit "Recipe"))
        \/ exists types,
             own props (lit "@type") = Some (VArray types)
             /\ In (VString (lit "Recipe")) types).

(** A value whose properties can be read: any but [undefined] and [null]. *)
Definition readable (x : value) : Prop := x <> VUndefined /\ x <> VNull.

(** The record that [extractHtmlRecipe] assembles, before it decides whether
    to return it. *)
Definition heuristic_recipe (doc : Document) : Recipe :=
  {| title := VString (find_title doc titleSelectors);
     ingredients := map VString (find_texts doc ingredientSelectors);
     instructions := find_texts doc instructionSelectors |}.

(** The test of line 213. *)
Definition usable (doc : Document) : Prop :=
  find_title doc titleSelectors <> []
  /\ (find_texts doc ingredientSelectors <> []
      \/ find_texts doc instructionSelectors <> []).

(** The trimmed texts of the elements that a selector matches. *)
Definition texts_of (doc : Document) (selector : jstring) : list jstring :=
  map (fun el => trim (textContent el)) (querySelectorAll doc selector).

(** A selector gives no title: it matches nothing, or the first element it
    matches has no text but white space. *)
Definition no_title (doc : Document) (selector : jstring) : Prop :=
  querySelector doc selector = None
  \/ exists el, querySelector doc selector = Some el /\ trim (textContent el) = [].

(** The document that a reference stands for in a world, as the core reads
    it: for each selector, the nodes it has with their text. *)
Definition document_at (w : Shared.World) (doc : Shared.doc_ref) : Document :=
  {| querySelectorAll := fun selector =>
       map (fun n => Build_Element (Shared.node_text w n))
           (Shared.matching w doc selector) |}.

(** The selectors that [parseRecipe] hands to the document. *)
Definition selectors_read : list jstring :=
  ld_json_selector :: titleSelectors ++ ingredientSelectors ++ instructionSelectors.

(** The object [{"@type": "HowToStep", "text": text}]. *)
Definition step_object (text : jstring) : value :=
  VObject [ (lit "@type", VString (lit "HowToStep")); (lit "text", VString text) ].

(** The record [{"@type": "Recipe", "recipeInstructions": items}]. *)
Definition recipe_with_steps (items : list value) : value :=
  VObject [ (lit "@type", VString (lit "Recipe"));
            (lit "recipeInstructions", VArray items) ].

(** The string has a character that is not white space. *)
Definition has_text (s : jstring) : bool :=
  existsb (fun c => negb (is_space c)) s.

(** The string holds no separator of the split: no dot followed by white
    space and no line feed. *)
Fixpoint no_boundary (s : jstring) : bool :=
  match s with
  | [] => true
  | c :: r =>
      negb (N.eqb c ch_dot && starts_with_space r) && negb (is_newline c)
      && no_boundary r
  end.

(** A sentence: text that the split leaves whole and that shows something
    once its markup tags are stripped. *)
Definition sentence (s : jstring) : Prop :=
  no_boundary s = true /\ has_text (strip_tags s) = true.

(** What may follow the second sentence: nothing, or a last dot followed by
    white space only. *)
Definition closing (tail : jstring) : bool :=
  match tail with
  | [] => true
  | c :: ws => N.eqb c ch_dot && non_empty ws && forallb is_space ws
  end.

(** No white space at either end. *)
Definition trimmed (s : jstring) : Prop :=
  starts_with_space s = false /\ starts_with_space (rev s) = false.

(** A property value that is absent or a string. *)
Definition text_or_absent (o : option value) : bool :=
  match o with
  | None | Some (VString _) => true
  | Some _ => false
  end.

(** A step of a section in one of the shapes the Normalizer is written for: a
    string, or an object whose [text] and [name], when present, are
    strings. *)
Definition plain_step (x : value) : bool :=
  match x with
  | VString _ => true
  | VObject props =>
      text_or_absent (own props (lit "text"))
      && text_or_absent (own props (lit "name"))
  | _ => false
  end.

(** An item of [recipeInstructions] in one of those shapes: a string, or an
    object whose [text] and [name], when present, are strings and whose
    [itemListElement], when present, is a list of plain steps. *)
Definition plain_item (x : value) : bool :=
  match x with
  | VString _ => true
  | VObject props =>
      text_or_absent (own props (lit "text"))
      && text_or_absent (own props (lit "name"))
      && match own props (lit "itemListElement") with
         | None => true
         | Some (VArray steps) => forallb plain_step steps
         | Some _ => false
         end
  | _ => false
  end.

(** The string holds no markup tag: no [<] with a [>] somewhere after it. *)
Fixpoint tag_free (s : jstring) : bool :=
  match s with
  | [] => true
  | c :: r => negb (N.eqb c ch_lt && has_gt r) && tag_free r
  end.

(** Every white-space character of the string is a space that no white space
    follows. *)
Fixpoint single_spaced (s : jstring) : bool :=
  match s with
  | [] => true
  | c :: r =>
      (if is_space c then N.eqb c ch_space && negb (starts_with_space r) else true)
      && single_spaced r
  end.

(** The string holds no [<]. *)
Definition no_lt (s : jstring) : Prop := Forall (fun c => N.eqb c ch_lt = false) s.

(** A character that [encodeURIComponent] can put out: an unreserved one
    (the hexadecimal digits of an escape are such), or the percent sign of an
    escape. *)
Definition uri_safe (c : N) : bool := uri_unreserved c || N.eqb c ch_percent.

(** No code unit of the string is a surrogate. *)
Definition no_surrogate (s : jstring) : Prop :=
  Forall (fun c => is_lead c = false /\ is_trail c = false) s.

(** Every code unit of the string is one: a number below 2^16. *)
Definition utf16_units (s : jstring) : Prop := Forall (fun c => (c < 65536)%N) s.

(** The reading of an escaped text back, by which the escaping is shown to
    lose nothing: the value of a hexadecimal digit, the octets that the
    escapes and the other characters stand for, the code points of a
    sequence of UTF-8 octets, and the code units of a code point. *)
Definition hex_value (c : N) : N := if N.ltb c 58 then (c - 48)%N else (c - 55)%N.

Fixpoint unescape (s : jstring) : list N :=
  match s with
  | [] => []
  | c :: r =>
      if N.eqb c ch_percent then
        match r with
        | h :: l :: r' => (16 * hex_value h + hex_value l)%N :: unescape r'
        | _ => []
        end
      else c :: unescape r
  end.

Fixpoint utf8_code_points (octets : list N) : list N :=
  match octets with
  | [] => []
  | o :: r =>
      if N.ltb o 128 then o :: utf8_code_points r
      else if N.ltb o 224 then
        match r with
        | o2 :: r2 => ((o - 192) * 64 + (o2 - 128))%N :: utf8_code_points r2
        | _ => []
        end
      else if N.ltb o 240 then
        match r with
        | o2 :: o3 :: r3 =>
            ((o - 224) * 4096 + (o2 - 128) * 64 + (o3 - 128))%N :: utf8_code_points r3
        | _ => []
        end
      else
        match r with
        | o2 :: o3 :: o4 :: r4 =>
            ((o - 240) * 262144 + (o2 - 128) * 4096 + (o3 - 128) * 64 + (o4 - 128))%N
            :: utf8_code_points r4
        | _ => []
        end
  end.

Definition utf16 (cp : N) : jstring :=
  if N.ltb cp 65536 then [cp]
  else [55296 + (cp - 65536) / 1024; 56320 + (cp - 65536) mod 1024]%N.

Definition unescaped (encoded : jstring) : jstring :=
  flat_map utf16 (utf8_code_points (unescape encoded)).

(** The page fields that [displayRecipe] leaves alone. *)
Definition same_controls (p q : Page) : Prop :=
  urlInput_value q = urlInput_value p
  /\ fetchBtn_disabled q = fetchBtn_disabled p
  /\ errorDiv_textContent q = errorDiv_textContent p
  /\ errorDiv_display q = errorDiv_display p
  /\ loadingDiv_display q = loadingDiv_display p.

(** The page presents a recipe: the card and the actions are shown, the error
    box is not. *)
Definition shows_card (q : Page) : Prop :=
  recipeCard_visible q = true
  /\ actionsDiv_display q = lit "flex"
  /\ errorDiv_display q = lit "none".

(** The page presents an error: the error box is shown with a message in it,
    the card and the actions are not. *)
Definition shows_error (q : Page) : Prop :=
  recipeCard_visible q = false
  /\ actionsDiv_display q = lit "none"
  /\ errorDiv_display q = lit "block"
  /\ errorDiv_textContent q <> [].

(** The page as a call leaves it when it starts to wait (lines 31-35). *)
Definition awaiting (p : Page) : Page :=
  set_fetchBtn_disabled true
    (set_actionsDiv_display (lit "none")
       (set_recipeCard_visible false (showLoading (hideError p)))).

(** No handler runs during a wait. *)
Definition undisturbed (during : Page -> Page) : Prop := forall q, during q = q.

(** The recipe that the page shows. *)
Definition same_content (p q : Page) : Prop :=
  recipe_title q = recipe_title p
  /\ ingredients_list q = ingredients_list p
  /\ instructions_list q = instructions_list p.

(** ** Sample pages and records *)

(** A document given by the texts of its structured-data script elements and
    by the texts of the elements that each of the other selectors matches. *)
Definition document_of (scripts : list jstring)
  (matches : list (jstring * list jstring)) : Document :=
  {| querySelectorAll := fun selector =>
       if jstr_eqb selector ld_json_selector then map Build_Element scripts
       else
         match find (fun m => jstr_eqb (fst m) selector) matches with
         | Some (_, texts) => map Build_Element texts
         | None => []
         end |}.

(** A structured-data block for a pie, and the record it decodes to. *)
Definition pie_block : jstring :=
  jq "{'@context':'https://schema.org','@type':'Recipe','name':'Pie','recipeIngredient':['1 egg','2 cups flour'],'recipeInstructions':['Mix <b>well</b>.','Bake.']}".

Definition pie_record : value :=
  VObject [ (lit "@context", VString (lit "https://schema.org"));
            (lit "@type", VString (lit "Recipe"));
            (lit "name", VString (lit "Pie"));
            (lit "recipeIngredient",
              VArray [VString (lit "1 egg"); VString (lit "2 cups flour")]);
            (lit "recipeInstructions",
              VArray [VString (lit "Mix <b>well</b>."); VString (lit "Bake.")]) ].

(** The Recipe extracted from the pie block. *)
Definition pie : Recipe :=
  {| title := VString (lit "Pie");
     ingredients := [VString (lit "1 egg"); VString (lit "2 cups flour")];
     instructions := [lit "Mix well."; lit "Bake."] |}.

(** An item of a graph that is no recipe. *)
Definition webpage_record : value :=
  VObject [ (lit "@type", VString (lit "WebPage")) ].

(** A record whose type is a list that contains [Recipe]. *)
Definition typed_pie_record : value :=
  VObject [ (lit "@type", VArray [VString (lit "Thing"); VString (lit "Recipe")]);
            (lit "name", VString (lit "Pie")) ].

(** A graph of three items, the second and the third Recipe-typed. *)
Definition graph_block : jstring :=
  jq "{'@graph':[{'@type':'WebPage'},{'@type':['Thing','Recipe'],'name':'Pie'},{'@type':'Recipe','name':'Cake'}]}".

(** A page without structured data: its [h1] of class [recipe-title] holds a
    single space, and an element of class [recipe-name] holds the title. *)
Definition pancake_page : Document :=
  document_of []
    [ (lit "h1.recipe-title", [lit " "]);
      (lit ".recipe-name", [lit "Pancakes"]);
      (lit "h1", [lit " "]);
      (lit ".ingredients li", [lit " 2 eggs"; lit "milk "]);
      (lit ".wprm-recipe-ingredient", [lit "not read"]) ].

(** A Recipe block with an empty name and an empty instruction, and the record
    it decodes to. *)
Definition unnamed_block : jstring :=
  jq "{'@type':'Recipe','name':'','recipeIngredient':['1 egg'],'recipeInstructions':['Mix','']}".

Definition unnamed_record : value :=
  VObject [ (lit "@type", VString (lit "Recipe"));
            (lit "name", VString []);
            (lit "recipeIngredient", VArray [VString (lit "1 egg")]);
            (lit "recipeInstructions", VArray (map VString [lit "Mix"; []])) ].

(** A Recipe block whose list of instructions holds [null], and the record it
    decodes to. *)
Definition null_step_block : jstring :=
  jq "{'@type':'Recipe','name':'Pie','recipeIngredient':['1 egg'],'recipeInstructions':['Mix',null]}".

Definition null_step_record : value :=
  VObject [ (lit "@type", VString (lit "Recipe"));
            (lit "name", VString (lit "Pie"));
            (lit "recipeIngredient", VArray [VString (lit "1 egg")]);
            (lit "recipeInstructions", VArray [VString (lit "Mix"); VNull]) ].

(** A Recipe block whose section holds one step object where a list of steps
    is expected, and the record it decodes to. *)
Definition single_step_section_block : jstring :=
  jq "{'@type':'Recipe','name':'Pie','recipeInstructions':[{'@type':'HowToSection','itemListElement':{'@type':'HowToStep','text':'Mix'}}]}".

Definition single_step_section_record : value :=
  VObject [ (lit "@type", VString (lit "Recipe"));
            (lit "name", VString (lit "Pie"));
            (lit "recipeInstructions",
              VArray [ VObject [ (lit "@type", VString (lit "HowToSection"));
                                 (lit "itemListElement",
                                   VObject [ (lit "@type", VString (lit "HowToStep"));
                                             (lit "text", VString (lit "Mix")) ]) ] ]) ].

(** A record whose instructions are one string of two sentences, closed by
    a dot and a space. *)
Definition two_sentence_record : value :=
  VObject [ (lit "@type", VString (lit "Recipe"));
            (lit "name", VString (lit "Pie"));
            (lit "recipeInstructions",
              VString (lit "Mix the <b>flour</b> and 1.5 cups of milk"
                         ++ lit ". " ++ lit " Bake for 20 minutes" ++ lit ". ")) ].

(** A browser for the examples: a URL is valid when it starts with [http],
    every page text gives the pie page, and the messages are those of one
    engine. *)
Definition sample_browser : Browser :=
  {| URL_valid := fun s =>
       match strip_prefix (lit "http") s with Some _ => true | None => false end;
     parseFromString := fun _ => document_of [pie_block] [];
     exception_message := fun _ => lit "Cannot convert object to primitive value";
     URIError_message := lit "URI malformed" |}.

(** A world, on a given hosting page, whose document 0 has one
    structured-data script element, node 7, holding the pie block. *)
Definition pie_world (hosting : Page) : Shared.World :=
  {| Shared.hosting := hosting;
     Shared.matching := fun doc selector =>
       if Nat.eqb doc 0 && jstr_eqb selector ld_json_selector then [7%nat] else [];
     Shared.node_text := fun n => if Nat.eqb n 7 then pie_block else [] |}.

(** A network on which the proxy answers every request with a page, and one
    that is down. *)
Definition pie_network : jstring -> settled Response :=
  fun _ => Fulfilled {| ok := true; text := Fulfilled (lit "<html>") |}.

Definition no_network : jstring -> settled Response :=
  fun _ => Rejected {| message := lit "Failed to fetch" |}.

(** A page on which a URL has been typed while an earlier recipe is shown. *)
Definition sample_page : Page :=
  {| urlInput_value := lit " https://example.org/pie?id=1&x=a b ";
     fetchBtn_disabled := false;
     errorDiv_textContent := lit "Please enter a recipe URL";
     errorDiv_display := lit "block";
     loadingDiv_display := lit "none";
     recipeCard_visible := true;
     actionsDiv_display := lit "flex";
     recipe_title := lit "Soup";
     ingredients_list := [lit "water"];
     instructions_list := [lit "Boil."] |}.

(* ===================================================================== *)
(** * Part IV: properties                                                *)
(* ===================================================================== *)

Unset Implicit Arguments.

(** ** The fuel of the JSON reader *)

Lemma skip_ws_length (s : jstring) : List.length (skip_ws s) <= List.length s.
Proof.
  induction s as [|c s IH]; simpl; [lia|].
  destruct (is_json_ws c); simpl; lia.
Qed.

Lemma string_body_length_upto (n : nat) :
  forall s acc str r,
    List.length s <= n ->
    string_body acc s = Some (str, r) -> List.length r < List.length s.
Proof.
  induction n as [|n IH]; intros s acc str r Hn H.
  - destruct s; [discriminate|simpl in Hn; lia].
  - destruct s as [|c s]; [discriminate|]. simpl in Hn.
    cbn [string_body] in H.
    destruct (N.eqb c 34).
    + injection H as _ <-. simpl. lia.
    + destruct (N.eqb c 92).
      * destruct s as [|e s1]; [discriminate|].
        destruct (N.eqb e 117).
        -- destruct s1 as [|h1 [|h2 [|h3 [|h4 r2]]]]; try discriminate.
           destruct (hex4 h1 h2 h3 h4); [|discriminate].
           apply IH in H; simpl in *; lia.
        -- destruct (simple_escape e); [|discriminate].
           apply IH in H; simpl in *; lia.
      * destruct (N.ltb c 32); [discriminate|].
        apply IH in H; simpl in *; lia.
Qed.

Lemma string_body_length (s acc str r : jstring) :
  string_body acc s = Some (str, r) -> List.length r < List.length s.
Proof. apply (string_body_length_upto (List.length s)). lia. Qed.

Lemma strip_prefix_length (p s r : jstring) :
  strip_prefix p s = Some r -> List.length r + List.length p = List.length s.
Proof.
  revert s. induction p as [|x p IH]; intros s H; simpl in H.
  - injection H as <-. simpl. lia.
  - destruct s as [|y s]; [discriminate|]. destruct (N.eqb x y); [|discriminate].
    apply IH in H. simpl. lia.
Qed.

Lemma take_digits_length (s ds r : jstring) :
  take_digits s = (ds, r) -> List.length r <= List.length s.
Proof.
  revert ds r. induction s as [|c s IH]; intros ds r H; simpl in H.
  - injection H as <- <-. simpl. lia.
  - destruct (is_digit c).
    + destruct (take_digits s) as [ds' r'] eqn:E. injection H as <- <-.
      specialize (IH _ _ eq_refl). simpl. lia.
    + injection H as <- <-. lia.
Qed.

Lemma take_sign_length (s r : jstring) (neg : bool) :
  take_sign s = (neg, r) -> List.length r <= List.length s.
Proof.
  destruct s as [|c s]; simpl; intros H.
  - injection H as _ <-. simpl. lia.
  - destruct (N.eqb c 45); [injection H as _ <-; simpl; lia|].
    destruct (N.eqb c 43); injection H as _ <-; simpl; lia.
Qed.

Lemma minus_sign_length (s r : jstring) (neg : bool) :
  minus_sign s = (neg, r) -> List.length r <= List.length s.
Proof.
  destruct s as [|c s]; simpl; intros H.
  - injection H as _ <-. simpl. lia.
  - destruct (N.eqb c 45); injection H as _ <-; simpl; lia.
Qed.

Lemma int_part_length (s ip r : jstring) :
  int_part s = Some (ip, r) -> List.length r < List.length s.
Proof.
  destruct s as [|c s]; [discriminate|]. unfold int_part.
  destruct (N.eqb c 48); [intros H; injection H as _ <-; simpl; lia|].
  destruct (is_digit c) eqn:Hc; [|discriminate].
  cbn [take_digits]. rewrite Hc.
  destruct (take_digits s) as [ds' r'] eqn:E. intros H. injection H as _ <-.
  apply take_digits_length in E. simpl. lia.
Qed.

Lemma frac_part_length (s fp r : jstring) :
  frac_part s = Some (fp, r) -> List.length r <= List.length s.
Proof.
  destruct s as [|c s]; simpl; intros H; [injection H as _ <-; simpl; lia|].
  destruct (N.eqb c 46); [|injection H as _ <-; simpl; lia].
  destruct (take_digits s) as [[|d ds] r'] eqn:E; [discriminate|].
  injection H as _ <-. apply take_digits_length in E. lia.
Qed.

Lemma exp_part_length (s r : jstring) (e : Z) :
  exp_part s = Some (e, r) -> List.length r <= List.length s.
Proof.
  destruct s as [|c s]; simpl; intros H; [injection H as _ <-; simpl; lia|].
  destruct (N.eqb c 101 || N.eqb c 69); [|injection H as _ <-; simpl; lia].
  destruct (take_sign s) as [eneg r3] eqn:Es.
  destruct (take_digits r3) as [[|d ds] r'] eqn:E; [discriminate|].
  injection H as _ <-. apply take_sign_length in Es.
  apply take_digits_length in E. lia.
Qed.

Lemma number_literal_length (s r : jstring) (x : spec_float) :
  number_literal s = Some (x, r) -> List.length r < List.length s.
Proof.
  unfold number_literal.
  destruct (minus_sign s) as [neg s1] eqn:Hs. apply minus_sign_length in Hs.
  destruct (int_part s1) as [[ip r1]|] eqn:Hi; [|discriminate].
  apply int_part_length in Hi.
  destruct (frac_part r1) as [[fp r2]|] eqn:Hf; [|discriminate].
  apply frac_part_length in Hf.
  destruct (exp_part r2) as [[e r4]|] eqn:He; [|discriminate].
  apply exp_part_length in He.
  intros H. injection H as _ <-. lia.
Qed.

(** What a successful reading leaves is shorter than what it was given. *)
Lemma parse_shrinks (f : nat) :
  (forall s v r, parse_value f s = Some (v, r) -> List.length r < List.length s)
  /\ (forall acc s v r,
        parse_elements f acc s = Some (v, r) -> List.length r < List.length s)
  /\ (forall acc s v r,
        parse_members f acc s = Some (v, r) -> List.length r < List.length s).
Proof.
  induction f as [|f (IHv & IHe & IHm)]; [repeat split; discriminate|].
  repeat split.
  - intros s v r. cbn [parse_value].
    pose proof (skip_ws_length s) as Hs.
    destruct (skip_ws s) as [|c r0]; [discriminate|]. simpl in Hs.
    destruct (N.eqb c ch_lbrace).
    { pose proof (skip_ws_length r0) as Hr.
      destruct (skip_ws r0) as [|d r1]; [discriminate|]. simpl in Hr.
      destruct (N.eqb d ch_rbrace).
      - intros H. injection H as _ <-. lia.
      - intros H. apply IHm in H. lia. }
    destruct (N.eqb c ch_lbracket).
    { pose proof (skip_ws_length r0) as Hr.
      destruct (skip_ws r0) as [|d r1]; [discriminate|]. simpl in Hr.
      destruct (N.eqb d ch_rbracket).
      - intros H. injection H as _ <-. lia.
      - intros H. apply IHe in H. lia. }
    destruct (N.eqb c ch_quote).
    { destruct (string_body [] r0) as [[str r1]|] eqn:E; [|discriminate].
      apply string_body_length in E. intros H. injection H as _ <-. lia. }
    destruct (strip_prefix (lit "true") (c :: r0)) as [r1|] eqn:E1.
    { apply strip_prefix_length in E1. intros H. injection H as _ <-.
      change (List.length (lit "true")) with 4 in E1. simpl in E1. lia. }
    destruct (strip_prefix (lit "false") (c :: r0)) as [r1|] eqn:E2.
    { apply strip_prefix_length in E2. intros H. injection H as _ <-.
      change (List.length (lit "false")) with 5 in E2. simpl in E2. lia. }
    destruct (strip_prefix (lit "null") (c :: r0)) as [r1|] eqn:E3.
    { apply strip_prefix_length in E3. intros H. injection H as _ <-.
      change (List.length (lit "null")) with 4 in E3. simpl in E3. lia. }
    destruct (number_literal (c :: r0)) as [[x r1]|] eqn:E; [|discriminate].
    apply number_literal_length in E. intros H. injection H as _ <-. simpl in E. lia.
  - intros acc s v r. cbn [parse_elements].
    destruct (parse_value f s) as [[v0 r0]|] eqn:E; [|discriminate].
    apply IHv in E. pose proof (skip_ws_length r0) as Hr.
    destruct (skip_ws r0) as [|d r1]; [discriminate|]. simpl in Hr.
    destruct (N.eqb d ch_comma); [intros H; apply IHe in H; lia|].
    destruct (N.eqb d ch_rbracket); [|discriminate].
    intros H. injection H as _ <-. lia.
  - intros acc s v r. cbn [parse_members].
    pose proof (skip_ws_length s) as Hs.
    destruct (skip_ws s) as [|q r0]; [discriminate|]. simpl in Hs.
    destruct (N.eqb q ch_quote); [|discriminate].
    destruct (string_body [] r0) as [[k r1]|] eqn:Ek; [|discriminate].
    apply string_body_length in Ek. pose proof (skip_ws_length r1) as Hr1.
    destruct (skip_ws r1) as [|c r2]; [discriminate|]. simpl in Hr1.
    destruct (N.eqb c ch_colon); [|discriminate].
    destruct (parse_value f r2) as [[v0 r3]|] eqn:E; [|discriminate].
    apply IHv in E. pose proof (skip_ws_length r3) as Hr3.
    destruct (skip_ws r3) as [|d r4]; [discriminate|]. simpl in Hr3.
    destruct (N.eqb d ch_comma); [intros H; apply IHm in H; lia|].
    destruct (N.eqb d ch_rbrace); [|discriminate].
    intros H. injection H as _ <-. lia.
Qed.

Lemma parse_elements_S (f : nat) (acc : list value) (s : jstring) :
  parse_elements (S f) acc s
  = match parse_value f s with
    | None => None
    | Some (v, r) =>
        match skip_ws r with
        | d :: r1 =>
            if N.eqb d ch_comma then parse_elements f (acc ++ [v]) r1
            else if N.eqb d ch_rbracket then Some (VArray (acc ++ [v]), r1)
            else None
        | [] => None
        end
    end.
Proof. reflexivity. Qed.

Lemma parse_members_S (f : nat) (acc : list (jstring * value)) (s : jstring) :
  parse_members (S f) acc s
  = match skip_ws s with
    | q :: r =>
        if N.eqb q ch_quote then
          match string_body [] r with
          | None => None
          | Some (k, r1) =>
              match skip_ws r1 with
              | c :: r2 =>
                  if N.eqb c ch_colon then
                    match parse_value f r2 with
                    | None => None
                    | Some (v, r3) =>
                        match skip_ws r3 with
                        | d :: r4 =>
                            if N.eqb d ch_comma
                            then parse_members f (set_prop acc k v) r4
                            else if N.eqb d ch_rbrace
                            then Some (VObject (set_prop acc k v), r4)
                            else None
                        | [] => None
                        end
                    end
                  else None
              | [] => None
              end
          end
        else None
    | [] => None
    end.
Proof. reflexivity. Qed.

(** With twice the length of the text as fuel, one unit more changes
    nothing. *)
Lemma parse_fuel_step (f : nat) :
  (forall s, 2 * List.length s + 1 <= f -> parse_value (S f) s = parse_value f s)
  /\ (forall acc s, 2 * List.length s + 2 <= f ->
        parse_elements (S f) acc s = parse_elements f acc s)
  /\ (forall acc s, 2 * List.length s + 2 <= f ->
        parse_members (S f) acc s = parse_members f acc s).
Proof.
  induction f as [|f (IHv & IHe & IHm)]; [repeat split; intros; lia|].
  repeat split.
  - intros s Hf. cbn [parse_value].
    pose proof (skip_ws_length s) as Hs.
    destruct (skip_ws s) as [|c r0]; [reflexivity|]. simpl in Hs.
    pose proof (skip_ws_length r0) as Hr.
    rewrite (IHm [] r0) by lia. rewrite (IHe [] r0) by lia. reflexivity.
  - intros acc s Hf.
    rewrite (parse_elements_S (S f) acc s), (parse_elements_S f acc s).
    rewrite (IHv s) by lia.
    destruct (parse_value f s) as [[v0 r0]|] eqn:E; [|reflexivity].
    apply (proj1 (parse_shrinks f)) in E. pose proof (skip_ws_length r0) as Hr.
    destruct (skip_ws r0) as [|d r1]; [reflexivity|]. simpl in Hr.
    rewrite (IHe (acc ++ [v0]) r1) by lia. reflexivity.
  - intros acc s Hf.
    rewrite (parse_members_S (S f) acc s), (parse_members_S f acc s).
    pose proof (skip_ws_length s) as Hs.
    destruct (skip_ws s) as [|q r0]; [reflexivity|]. simpl in Hs.
    destruct (N.eqb q ch_quote); [|reflexivity].
    destruct (string_body [] r0) as [[k r1]|] eqn:Ek; [|reflexivity].
    apply string_body_length in Ek. pose proof (skip_ws_length r1) as Hr1.
    destruct (skip_ws r1) as [|c r2]; [reflexivity|]. simpl in Hr1.
    destruct (N.eqb c ch_colon); [|reflexivity].
    rewrite (IHv r2) by lia.
    destruct (parse_value f r2) as [[v0 r3]|] eqn:E; [|reflexivity].
    apply (proj1 (parse_shrinks f)) in E. pose proof (skip_ws_length r3) as Hr3.
    destruct (skip_ws r3) as [|d r4]; [reflexivity|]. simpl in Hr3.
    rewrite (IHm (set_prop acc k v0) r4) by lia. reflexivity.
Qed.

(** The fuel [JSON_parse] gives the reader is enough: with any amount more,
    the reading is the same. *)
Theorem JSON_parse_fuel (text : jstring) (more : nat) :
  parse_value (2 * List.length text + 2 + more) text
  = parse_value (2 * List.length text + 2) text.
Proof.
  induction more as [|more IH]; [rewrite Nat.add_0_r; reflexivity|].
  rewrite Nat.add_succ_r, <- IH.
  apply (proj1 (parse_fuel_step _)). lia.
Qed.

(** ** The platform functions on sample inputs *)

Example split_on_dot_and_space :
  split_sentences (lit "Mix well. Bake.") = [lit "Mix well"; lit "Bake."].
Proof. vm_compute. reflexivity. Qed.

Example split_keeps_decimal_point :
  split_sentences (lit "Add 1.5 cups.  Stir") = [lit "Add 1.5 cups"; lit "Stir"].
Proof. vm_compute. reflexivity. Qed.

Example split_on_line_feeds :
  split_sentences (map (fun c => if N.eqb c 124 then 10%N else c) (lit "a||b|. c."))
  = [lit "a"; lit "b"; lit ""; lit "c."].
Proof. vm_compute. reflexivity. Qed.

Example strip_tags_pairs :
  strip_tags (lit "<b>Mix</b> a < b <i") = lit "Mix a < b <i".
Proof. vm_compute. reflexivity. Qed.

Example strip_tags_to_first_gt : strip_tags (lit "x<a<b>y>z") = lit "xy>z".
Proof. vm_compute. reflexivity. Qed.

Example clean_sample : clean (lit "  <p>Mix   the <b>flour</b> </p> ") = lit "Mix the flour".
Proof. vm_compute. reflexivity. Qed.

Example number_to_string_samples :
  map (fun d => NumberToString (dec_to_double false (Z.to_N (fst d)) (snd d)))
    [ (1, -1); (1, 21); (1, -7); (123456, -3); (5, -324); (9007199254740993, 0);
      (30000000000000004, -17); (1, 400); (2, -324) ]%Z
  = [ lit "0.1"; lit "1e+21"; lit "1e-7"; lit "123.456"; lit "5e-324";
      lit "9007199254740992"; lit "0.30000000000000004"; lit "Infinity"; lit "0" ].
Proof. vm_compute. reflexivity. Qed.

Example gt_zero_samples :
  map gt_zero
    [ VString (lit "5"); VString (lit "abc"); VString (lit " 0x10 "); VBool true;
      VNull; VUndefined; VArray [VArray [VString (lit "3")]]; VArray [];
      VObject []; VObject [(lit "toString", VNull)] ]
  = [ Return true; Return false; Return true; Return true;
      Return false; Return false; Return true; Return false;
      Return false; Throw TypeError ].
Proof. vm_compute. reflexivity. Qed.

Example join_sample :
  join (lit " ")
    [ VString (lit "a"); VNull; VArray [VString (lit "b"); VBool true; VObject []];
      VNumber (dec_to_double true 25 (-1)) ]
  = Return (lit "a  b,true,[object Object] -2.5").
Proof. vm_compute. reflexivity. Qed.

Example JSON_parse_object :
  JSON_parse (jq "{'a': [1, true, null, 'xA\n'], 'b': {}, 'a': -0.5e1}")
  = Return (VObject [ (lit "a", VNumber (dec_to_double true 5 0));
                      (lit "b", VObject []) ]).
Proof. vm_compute. reflexivity. Qed.

Example JSON_parse_errors :
  map JSON_parse
    [ lit ""; lit "01"; lit "[1,]"; lit "1."; lit "nul"; jq "{'a' 1}";
      jq "{'a':1,}"; jq "'a' x"; jq "{a:1}"; lit "[1 2]" ]
  = repeat (Throw SyntaxError) 10.
Proof. vm_compute. reflexivity. Qed.

Example parseRecipe_graph_with_sections :
  parseRecipe
    (document_of
       [ jq "{'@context':'https://schema.org','@graph':[{'@type':'WebPage'},{'@type':['Thing','Recipe'],'name':'Pie','recipeIngredient':'1 egg','recipeInstructions':[{'@type':'HowToStep','text':'<p>Mix  well</p>'},'Bake. ',' ','',{'@type':'HowToSection','itemListElement':[{'text':'Cool'},'Slice',{'name':'Serve'},{}]}]}]}" ]
       []) []
  = Return (Some {| title := VString (lit "Pie");
                    ingredients := [VString (lit "1 egg")];
                    instructions :=
                      [lit "Mix well"; lit "Bake."; lit ""; lit "Cool Slice Serve"] |}).
Proof. vm_compute. reflexivity. Qed.

Example parseRecipe_heuristic :
  parseRecipe
    (document_of []
       [ (lit "h1", [lit "  Pie "]); (lit ".ingredient", [lit " 1 egg"; lit "flour "]) ])
    []
  = Return (Some {| title := VString (lit "Pie");
                    ingredients := [VString (lit "1 egg"); VString (lit "flour")];
                    instructions := [] |}).
Proof. vm_compute. reflexivity. Qed.

Example parseRecipe_not_found :
  parseRecipe (document_of [jq "{'@type':'WebPage'}"] [(lit "h1", [lit "Pie"])]) []
  = Return None.
Proof. vm_compute. reflexivity. Qed.

(** ** Strings and the error monad *)

Lemma jstr_eqb_eq (a b : jstring) : jstr_eqb a b = true <-> a = b.
Proof.
  revert b; induction a as [|x a IH]; intros [|y b]; simpl; split;
    try congruence; try reflexivity.
  - intros H. apply andb_true_iff in H as [Hx Hr].
    apply N.eqb_eq in Hx. apply IH in Hr. congruence.
  - intros H. injection H as -> ->.
    rewrite N.eqb_refl. simpl. apply IH. reflexivity.
Qed.

Lemma jstr_eqb_refl (a : jstring) : jstr_eqb a a = true.
Proof. apply jstr_eqb_eq. reflexivity. Qed.

Lemma non_empty_true (s : jstring) : non_empty s = true <-> s <> [].
Proof. destruct s; simpl; split; congruence. Qed.

Lemma bind_Return_inv (A B : Type) (c : result A) (k : A -> result B) (b : B) :
  bind c k = Return b -> exists a, c = Return a /\ k a = Return b.
Proof. destruct c as [a|e]; simpl; intros H; [eauto | discriminate]. Qed.

Section FindFacts.
Variable A : Type.
Variable p : A -> result bool.

(** [find] returns the first element on which the predicate holds, when
    the predicate has returned [false] on all the elements before it. *)
Lemma findM_first (pre : list A) (r : A) (post : list A) :
  Forall (fun x => p x = Return false) pre ->
  p r = Return true ->
  findM p (pre ++ r :: post) = Return (Some r).
Proof.
  intros Hpre Hr. induction Hpre as [|x pre Hx _ IH]; simpl.
  - rewrite Hr. reflexivity.
  - rewrite Hx. simpl. exact IH.
Qed.

Lemma findM_sound (l : list A) (r : A) :
  findM p l = Return (Some r) ->
  exists pre post,
    l = pre ++ r :: post /\ Forall (fun x => p x = Return false) pre
    /\ p r = Return true.
Proof.
  induction l as [|x l IH]; simpl; intros H; [discriminate|].
  apply bind_Return_inv in H as [b [Hb H]]. destruct b.
  - injection H as ->. exists [], l. auto.
  - destruct (IH H) as (pre & post & -> & Hpre & Hr).
    exists (x :: pre), post. auto.
Qed.

End FindFacts.

(** ** The scan over the script elements *)

Lemma yields_nothing_cases (script : Element) :
  yields_nothing script <->
  try_script script = Return None \/ exists e, try_script script = Throw e.
Proof.
  unfold yields_nothing. destruct (try_script script) as [[r|]|e]; simpl; split;
    intros H; try discriminate; eauto.
  - destruct H as [H|[e H]]; discriminate.
Qed.

Lemma scan_scripts_cons (script : Element) (rest : list Element) :
  scan_scripts (script :: rest) =
  match try_script script with
  | Return (Some recipe) => Return (Some recipe)
  | _ => scan_scripts rest
  end.
Proof. simpl. destruct (try_script script) as [[r|]|e]; reflexivity. Qed.

Lemma scan_scripts_skip (before rest : list Element) :
  Forall yields_nothing before ->
  scan_scripts (before ++ rest) = scan_scripts rest.
Proof.
  induction 1 as [|b before Hb _ IH]; [reflexivity|].
  rewrite <- app_comm_cons, scan_scripts_cons.
  apply yields_nothing_cases in Hb as [Hb|[e Hb]]; rewrite Hb; exact IH.
Qed.

Lemma scan_scripts_hit (before after : list Element) (script : Element) (r : Recipe) :
  Forall yields_nothing before ->
  try_script script = Return (Some r) ->
  scan_scripts (before ++ script :: after) = Return (Some r).
Proof.
  intros Hb Hs. rewrite scan_scripts_skip by assumption.
  rewrite scan_scripts_cons, Hs. reflexivity.
Qed.

Lemma scan_scripts_sound (scripts : list Element) (r : Recipe) :
  scan_scripts scripts = Return (Some r) ->
  exists before script after,
    scripts = before ++ script :: after /\ Forall yields_nothing before
    /\ try_script script = Return (Some r).
Proof.
  induction scripts as [|s scripts IH]; [discriminate|].
  rewrite scan_scripts_cons. intros H.
  destruct (try_script s) as [[r'|]|e] eqn:Hs.
  - injection H as ->. exists [], s, scripts. auto.
  - destruct (IH H) as (before & script & after & -> & Hb & Hr).
    exists (s :: before), script, after. split; [reflexivity|]. split; [|assumption].
    constructor; [|assumption]. apply yields_nothing_cases. auto.
  - destruct (IH H) as (before & script & after & -> & Hb & Hr).
    exists (s :: before), script, after. split; [reflexivity|]. split; [|assumption].
    constructor; [|assumption]. apply yields_nothing_cases. eauto.
Qed.

(** The loop never lets an exception out. *)
Lemma scan_scripts_returns (scripts : list Element) :
  exists out, scan_scripts scripts = Return out.
Proof.
  induction scripts as [|s scripts [out IH]]; [exists None; reflexivity|].
  rewrite scan_scripts_cons.
  destruct (try_script s) as [[r|]|e]; eauto.
Qed.


Lemma try_script_inv (script : Element) (r : Recipe) :
  try_script script = Return (Some r) ->
  exists parsed data rec,
    JSON_parse (textContent script) = Return parsed
    /\ unwrap_graph parsed = Return data
    /\ select_recipe data = Return (Some rec)
    /\ normalizeRecipe rec = Return r.
Proof.
  unfold try_script. intros H.
  apply bind_Return_inv in H as (parsed & Hp & H).
  apply bind_Return_inv in H as (data & Hd & H).
  apply bind_Return_inv in H as (sel & Hs & H).
  destruct sel as [rec|]; [|discriminate].
  apply bind_Return_inv in H as (r' & Hn & H). injection H as ->.
  exists parsed, data, rec. auto.
Qed.

Lemma try_script_intro (script : Element) (parsed data rec : value) (r : Recipe) :
  JSON_parse (textContent script) = Return parsed ->
  unwrap_graph parsed = Return data ->
  select_recipe data = Return (Some rec) ->
  normalizeRecipe rec = Return r ->
  try_script script = Return (Some r).
Proof.
  intros Hp Hd Hs Hn. unfold try_script. rewrite Hp. simpl.
  rewrite Hd. simpl. rewrite Hs. simpl. rewrite Hn. reflexivity.
Qed.

(** Only an object passes the type test. *)
Lemma is_recipe_type_object (x : value) :
  is_recipe_type x = Return true -> exists props, x = VObject props.
Proof.
  unfold is_recipe_type. destruct x; simpl; intros H; try discriminate; eauto.
Qed.

Lemma select_recipe_typed (data rec : value) :
  select_recipe data = Return (Some rec) -> is_recipe_type rec = Return true.
Proof.
  destruct data; simpl; intros H; try discriminate.
  - apply bind_Return_inv in H as ([r|] & Hf & H); [|discriminate].
    apply findM_sound in Hf as (pre & post & _ & _ & Hr).
    destruct (ToBoolean r); [|discriminate]. injection H as ->. exact Hr.
  - apply bind_Return_inv in H as (b & Hb & H).
    destruct b; [|discriminate]. injection H as <-. exact Hb.
Qed.

Lemma passed_over_yields_nothing (script : Element) :
  passed_over script <-> yields_nothing script.
Proof.
  rewrite yields_nothing_cases. unfold try_script. split.
  - intros [e Hp|parsed e Hp [Hd|(data & Hd & Hs)]|parsed data Hp Hd Hs
           |parsed data rec e Hp Hd Hs Hn]; rewrite Hp; cbn [bind].
    + right. exists e. reflexivity.
    + rewrite Hd. right. exists e. reflexivity.
    + rewrite Hd. cbn [bind]. rewrite Hs. right. exists e. reflexivity.
    + rewrite Hd. cbn [bind]. rewrite Hs. left. reflexivity.
    + rewrite Hd. cbn [bind]. rewrite Hs. cbn [bind]. rewrite Hn.
      right. exists e. reflexivity.
  - intros H.
    destruct (JSON_parse (textContent script)) as [parsed|e] eqn:Hp;
      [|eapply not_decoded; exact Hp].
    cbn [bind] in H.
    destruct (unwrap_graph parsed) as [data|e] eqn:Hd;
      [|eapply inspection_raises; [exact Hp | left; exact Hd]].
    cbn [bind] in H.
    destruct (select_recipe data) as [[rec|]|e] eqn:Hs.
    + cbn [bind] in H. destruct (normalizeRecipe rec) as [r|e] eqn:Hn.
      * destruct H as [H|[e H]]; discriminate.
      * eapply normalizer_raises; eassumption.
    + eapply no_record; eassumption.
    + eapply inspection_raises; [exact Hp | right; exists data; split; eassumption].
Qed.

Lemma Forall_passed_over (scripts : list Element) :
  Forall passed_over scripts <-> Forall yields_nothing scripts.
Proof.
  split; intros H; (eapply Forall_impl; [|exact H]); intros script;
    apply passed_over_yields_nothing.
Qed.

(** ** The top-level function *)

Lemma length_positive_list (A : Type) (l : list A) :
  Nat.ltb 0 (List.length l) = true <-> l <> [].
Proof. unfold Nat.ltb. destruct l; simpl; split; congruence. Qed.

Lemma extractHtmlRecipe_usable (doc : Document) :
  usable doc -> extractHtmlRecipe doc = Some (heuristic_recipe doc).
Proof.
  intros [Ht Hl]. unfold extractHtmlRecipe.
  apply non_empty_true in Ht. rewrite Ht, andb_true_l.
  assert (H : (Nat.ltb 0 (List.length (find_texts doc ingredientSelectors))
               || Nat.ltb 0 (List.length (find_texts doc instructionSelectors))) = true).
  { apply orb_true_iff. destruct Hl as [H|H]; [left|right];
      apply length_positive_list; exact H. }
  rewrite H. reflexivity.
Qed.

Lemma extractHtmlRecipe_unusable (doc : Document) :
  ~ usable doc -> extractHtmlRecipe doc = None.
Proof.
  intros Hn. unfold extractHtmlRecipe.
  destruct (non_empty (find_title doc titleSelectors)) eqn:Ht; [|reflexivity].
  destruct (Nat.ltb 0 (List.length (find_texts doc ingredientSelectors))
            || Nat.ltb 0 (List.length (find_texts doc instructionSelectors))) eqn:Hl;
    [|reflexivity].
  exfalso. apply Hn. split; [apply non_empty_true; exact Ht|].
  apply orb_true_iff in Hl as [H|H]; [left|right]; apply length_positive_list; exact H.
Qed.

Lemma usable_dec (doc : Document) : usable doc \/ ~ usable doc.
Proof.
  unfold usable.
  destruct (find_title doc titleSelectors) as [|c t].
  - right. intros [H _]. congruence.
  - destruct (find_texts doc ingredientSelectors) as [|x xs].
    + destruct (find_texts doc instructionSelectors) as [|y ys].
      * right. intros [_ [H|H]]; congruence.
      * left. split; [discriminate|]. right. discriminate.
    + left. split; [discriminate|]. left. discriminate.
Qed.

(** C6: the top-level extraction never raises.  For every document
    [parseRecipe] returns, either a Recipe or [null] (not found); and inside
    the scan a script element whose processing raises, whatever the
    exception, is passed over and the scan goes on with the rest. *)
Theorem parseRecipe_never_raises (doc : Document) (url : jstring) :
  (exists out : option Recipe, parseRecipe doc url = Return out)
  /\ (forall script rest e,
        try_script script = Throw e ->
        scan_scripts (script :: rest) = scan_scripts rest).
Proof.
  split.
  - unfold parseRecipe, extractJsonLdRecipe.
    destruct (scan_scripts_returns (querySelectorAll doc ld_json_selector))
      as [[r|] H]; rewrite H; simpl; eauto.
  - intros script rest e H. rewrite scan_scripts_cons, H. reflexivity.
Qed.

(** A page whose first block makes the Normalizer raise: [parseRecipe] returns,
    and the scan goes on with the block after it. *)
Lemma parseRecipe_never_raises_witness :
  (exists out : option Recipe,
      parseRecipe (document_of [null_step_block; pie_block] []) [] = Return out)
  /\ scan_scripts [Build_Element null_step_block; Build_Element pie_block]
     = scan_scripts [Build_Element pie_block].
Proof.
  destruct (parseRecipe_never_raises
              (document_of [null_step_block; pie_block] []) []) as [Hout Hskip].
  split; [exact Hout|].
  apply (Hskip (Build_Element null_step_block) [Build_Element pie_block] TypeError).
  vm_compute. reflexivity.
Defined.





(** ** Selection of the record *)

Lemma includes_In (types : list value) (s : jstring) :
  includes types s = true <-> In (VString s) types.
Proof.
  unfold includes. rewrite existsb_exists. split.
  - intros (x & Hin & Hx). destruct x; simpl in Hx; try discriminate.
    apply jstr_eqb_eq in Hx. subst. exact Hin.
  - intros Hin. exists (VString s). split; [exact Hin|]. simpl. apply jstr_eqb_refl.
Qed.

Lemma is_recipe_type_single (props : list (jstring * value)) :
  own props (lit "@type") = Some (VString (lit "Recipe")) ->
  is_recipe_type (VObject props) = Return true.
Proof. intros H. unfold is_recipe_type. simpl. rewrite H. reflexivity. Qed.

Lemma is_recipe_type_list (props : list (jstring * value)) (types : list value) :
  own props (lit "@type") = Some (VArray types) ->
  In (VString (lit "Recipe")) types ->
  is_recipe_type (VObject props) = Return true.
Proof.
  intros H Hin. unfold is_recipe_type. simpl. rewrite H. simpl.
  apply includes_In in Hin. rewrite Hin. reflexivity.
Qed.

Lemma select_recipe_first (pre : list value) (rec : value) (post : list value) :
  Forall (fun x => is_recipe_type x = Return false) pre ->
  is_recipe_type rec = Return true ->
  select_recipe (VArray (pre ++ rec :: post)) = Return (Some rec).
Proof.
  intros Hpre Hrec. unfold select_recipe.
  rewrite (@findM_first _ _ _ _ post Hpre Hrec). simpl.
  destruct (is_recipe_type_object _ Hrec) as [props ->]. reflexivity.
Qed.

Lemma select_recipe_single (data : value) :
  isArray data = false ->
  is_recipe_type data = Return true ->
  select_recipe data = Return (Some data).
Proof.
  intros Ha Ht. destruct data; simpl in Ha; try discriminate;
    unfold select_recipe; rewrite Ht; reflexivity.
Qed.

Lemma is_recipe_type_true_iff (x : value) :
  is_recipe_type x = Return true <-> recipe_typed x.
Proof.
  split.
  - intros H. destruct (is_recipe_type_object x H) as [props ->].
    exists props. split; [reflexivity|].
    unfold is_recipe_type in H. cbn [Get bind] in H.
    destruct (own props (lit "@type")) as [ty|]; [|discriminate].
    destruct ty as [| |b|n|s|types|o]; try discriminate.
    + cbn [strict_eq_string] in H.
      destruct (jstr_eqb s (lit "Recipe")) eqn:Hs; [|discriminate].
      apply jstr_eqb_eq in Hs. subst s. left. reflexivity.
    + cbn [strict_eq_string] in H. injection H as H.
      apply includes_In in H. right. exists types. split; [reflexivity|exact H].
  - intros (props & -> & [H|(types & H & Hin)]).
    + exact (is_recipe_type_single props H).
    + exact (is_recipe_type_list props types H Hin).
Qed.

Lemma is_recipe_type_readable (x : value) :
  readable x <-> exists b, is_recipe_type x = Return b.
Proof.
  unfold readable, is_recipe_type. split.
  - intros [Hu Hn]. destruct x as [| |b|n|s|items|props]; try congruence;
      cbn [Get bind]; try (eexists; reflexivity).
    destruct (own props (lit "@type")) as [[| |b|n|s|types|o]|];
      try (eexists; reflexivity).
    cbn [strict_eq_string]. destruct (jstr_eqb s (lit "Recipe")); eexists; reflexivity.
  - intros [b H]. destruct x; try discriminate; split; discriminate.
Qed.

Lemma is_recipe_type_false_iff (x : value) :
  is_recipe_type x = Return false <-> readable x /\ ~ recipe_typed x.
Proof.
  split.
  - intros H. split; [apply is_recipe_type_readable; eauto|].
    intros Ht. apply is_recipe_type_true_iff in Ht. congruence.
  - intros [Hr Hn]. apply is_recipe_type_readable in Hr as [[] H]; [|exact H].
    apply is_recipe_type_true_iff in H. contradiction.
Qed.

Lemma rejected_items (items : list value) :
  Forall (fun x => is_recipe_type x = Return false) items
  <-> Forall (fun x => readable x /\ ~ recipe_typed x) items.
Proof.
  split; intros H; (eapply Forall_impl; [|exact H]); intros x;
    apply is_recipe_type_false_iff.
Qed.

Lemma select_recipe_sound (data rec : value) :
  select_recipe data = Return (Some rec) ->
  recipe_typed rec
  /\ ((isArray data = false /\ rec = data)
      \/ exists pre post,
           data = VArray (pre ++ rec :: post)
           /\ Forall (fun x => readable x /\ ~ recipe_typed x) pre).
Proof.
  intros H. split.
  - apply is_recipe_type_true_iff. exact (select_recipe_typed data rec H).
  - destruct data as [| |b|n|s|items|props]; cbn [select_recipe] in H;
      try (apply bind_Return_inv in H as (b' & _ & H);
           destruct b'; [|discriminate]; injection H as <-;
           left; split; reflexivity).
    right. apply bind_Return_inv in H as ([r|] & Hf & H); [|discriminate].
    apply findM_sound in Hf as (pre & post & -> & Hpre & _).
    destruct (ToBoolean r); [|discriminate]. injection H as ->.
    exists pre, post. split; [reflexivity|]. apply rejected_items. exact Hpre.
Qed.

(** C4 (as amended): how the scan selects the record.  (1) A decoded value
    whose [@graph] property is truthy is replaced by the value of that
    property before the type inspection, and a decoded value whose [@graph]
    property is falsy is inspected itself.  (2) The type test accepts exactly
    the objects whose [@type] is the string [Recipe] or a list that holds it,
    and rejects exactly the other values whose properties can be read; on
    [null] it raises.  (3) In a list, the item selected is the first one that
    is Recipe-typed, the items before it being readable and not Recipe-typed;
    a value that is not a list is selected when it is Recipe-typed itself;
    and a record that is selected is always Recipe-typed and is the value
    itself or the first such item of the list.  (4) Across script elements,
    the result is the normalization of the record selected from the first
    element in document order that is not passed over (an element is passed
    over when it fails to decode, raises, or holds no such record); a result
    of the scan always arises in this way, so that no candidates are compared
    with each other. *)
Theorem first_recipe_record_wins :
  (forall parsed g,
      Get parsed (lit "@graph") = Return g -> ToBoolean g = true ->
      unwrap_graph parsed = Return g)
  /\ (forall parsed g,
      Get parsed (lit "@graph") = Return g -> ToBoolean g = false ->
      unwrap_graph parsed = Return parsed)
  /\ (forall x, is_recipe_type x = Return true <-> recipe_typed x)
  /\ (forall x, is_recipe_type x = Return false <-> readable x /\ ~ recipe_typed x)
  /\ (forall pre rec post,
      Forall (fun x => readable x /\ ~ recipe_typed x) pre ->
      recipe_typed rec ->
      select_recipe (VArray (pre ++ rec :: post)) = Return (Some rec))
  /\ (forall data,
      isArray data = false -> recipe_typed data ->
      select_recipe data = Return (Some data))
  /\ (forall data rec,
      select_recipe data = Return (Some rec) ->
      recipe_typed rec
      /\ ((isArray data = false /\ rec = data)
          \/ exists pre post,
               data = VArray (pre ++ rec :: post)
               /\ Forall (fun x => readable x /\ ~ recipe_typed x) pre))
  /\ (forall doc before script after r,
      querySelectorAll doc ld_json_selector = before ++ script :: after ->
      Forall passed_over before ->
      try_script script = Return (Some r) ->
      extractJsonLdRecipe doc = Return (Some r))
  /\ (forall doc r,
      extractJsonLdRecipe doc = Return (Some r) ->
      exists before script after parsed data rec,
        querySelectorAll doc ld_json_selector = before ++ script :: after
        /\ Forall passed_over before
        /\ JSON_parse (textContent script) = Return parsed
        /\ unwrap_graph parsed = Return data
        /\ select_recipe data = Return (Some rec)
        /\ recipe_typed rec
        /\ normalizeRecipe rec = Return r).
Proof.
  split; [|split; [|split; [|split; [|split; [|split; [|split; [|split]]]]]]].
  - intros parsed g Hg Ht. unfold unwrap_graph. rewrite Hg. simpl. rewrite Ht. reflexivity.
  - intros parsed g Hg Ht. unfold unwrap_graph. rewrite Hg. simpl. rewrite Ht. reflexivity.
  - exact is_recipe_type_true_iff.
  - exact is_recipe_type_false_iff.
  - intros pre rec post Hpre Hrec. apply select_recipe_first.
    + apply rejected_items. exact Hpre.
    + apply is_recipe_type_true_iff. exact Hrec.
  - intros data Ha Hrec. apply select_recipe_single; [exact Ha|].
    apply is_recipe_type_true_iff. exact Hrec.
  - exact select_recipe_sound.
  - intros doc before script after r Hl Hb Hs. unfold extractJsonLdRecipe.
    rewrite Hl. apply scan_scripts_hit; [|exact Hs].
    apply Forall_passed_over. exact Hb.
  - intros doc r H. apply scan_scripts_sound in H as (before & script & after & Hl & Hb & Hs).
    apply try_script_inv in Hs as (parsed & data & rec & Hp & Hd & Hsel & Hn).
    exists before, script, after, parsed, data, rec.
    split; [exact Hl|]. split; [apply Forall_passed_over; exact Hb|].
    split; [exact Hp|]. split; [exact Hd|]. split; [exact Hsel|].
    split; [exact (proj1 (select_recipe_sound data rec Hsel)) | exact Hn].
Qed.

(** The graph of three items, in a page whose first block is truncated: the
    second item is the record selected, the first one, whose type is
    [WebPage], being rejected. *)
Lemma first_recipe_record_wins_witness :
  is_recipe_type webpage_record = Return false
  /\ select_recipe
       (VArray ([webpage_record] ++ typed_pie_record
                  :: [VObject [ (lit "@type", VString (lit "Recipe"));
                                (lit "name", VString (lit "Cake")) ]]))
     = Return (Some typed_pie_record)
  /\ extractJsonLdRecipe (document_of [jq "[1,2"; graph_block; pie_block] [])
     = Return (Some {| title := VString (lit "Pie");
                       ingredients := []; instructions := [] |}).
Proof.
  destruct first_recipe_record_wins
    as (_ & _ & _ & Hfalse & Hlist & _ & _ & Hblocks & _).
  assert (Hweb : readable webpage_record /\ ~ recipe_typed webpage_record).
  { split; [split; discriminate|].
    intros (props & Hp & [H|(types & H & _)]); injection Hp as <-; discriminate H. }
  split; [apply Hfalse; exact Hweb|]. split.
  - apply Hlist.
    + constructor; [exact Hweb | constructor].
    + exists [ (lit "@type", VArray [VString (lit "Thing"); VString (lit "Recipe")]);
               (lit "name", VString (lit "Pie")) ].
      split; [reflexivity|]. right.
      exists [VString (lit "Thing"); VString (lit "Recipe")].
      split; [reflexivity | right; left; reflexivity].
  - apply (Hblocks (document_of [jq "[1,2"; graph_block; pie_block] [])
             [Build_Element (jq "[1,2")] (Build_Element graph_block)
             [Build_Element pie_block]).
    + reflexivity.
    + constructor; [|constructor].
      apply (@not_decoded (Build_Element (jq "[1,2")) SyntaxError).
      vm_compute. reflexivity.
    + vm_compute. reflexivity.
Defined.

(** C4 as stated fails in two ways.  A decoded value that contains the
    [@graph] key with the value [null] is not unwrapped: it is inspected
    itself and, being Recipe-typed, normalized.  And the record selected is
    not always the first Recipe-typed one in document order: in a list whose
    first item is [null] the inspection raises, the script element is passed
    over, and the record of a later element is the one returned. *)
Lemma graph_key_and_first_record_counterexample :
  JSON_parse (jq "{'@graph':null,'@type':'Recipe','name':'Pie'}")
  = Return (VObject [ (lit "@graph", VNull);
                      (lit "@type", VString (lit "Recipe"));
                      (lit "name", VString (lit "Pie")) ])
  /\ parseRecipe
       (document_of [jq "{'@graph':null,'@type':'Recipe','name':'Pie'}"] []) []
     = Return (Some {| title := VString (lit "Pie");
                       ingredients := []; instructions := [] |})
  /\ JSON_parse (jq "[null,{'@type':'Recipe','name':'A'}]")
     = Return (VArray [ VNull;
                        VObject [ (lit "@type", VString (lit "Recipe"));
                                  (lit "name", VString (lit "A")) ] ])
  /\ is_recipe_type (VObject [ (lit "@type", VString (lit "Recipe"));
                               (lit "name", VString (lit "A")) ])
     = Return true
  /\ parseRecipe
       (document_of [ jq "[null,{'@type':'Recipe','name':'A'}]";
                      jq "{'@type':'Recipe','name':'B'}" ] []) []
     = Return (Some {| title := VString (lit "B");
                       ingredients := []; instructions := [] |}).
Proof. vm_compute. repeat split. Qed.

(** ** The heuristic extractor *)

Lemma find_title_first (doc : Document) (pre : list jstring) (selector : jstring)
  (post : list jstring) (el : Element) :
  Forall (no_title doc) pre ->
  querySelector doc selector = Some el ->
  trim (textContent el) <> [] ->
  find_title doc (pre ++ selector :: post) = trim (textContent el).
Proof.
  intros Hpre Hel Ht. induction Hpre as [|s pre Hs _ IH]; simpl.
  - rewrite Hel. apply non_empty_true in Ht. rewrite Ht. reflexivity.
  - destruct Hs as [Hs|(el' & Hs & Hb)]; rewrite Hs; [exact IH|].
    rewrite Hb. simpl. exact IH.
Qed.

Lemma find_texts_first (doc : Document) (pre : list jstring) (selector : jstring)
  (post : list jstring) :
  Forall (fun s => querySelectorAll doc s = []) pre ->
  querySelectorAll doc selector <> [] ->
  find_texts doc (pre ++ selector :: post) = texts_of doc selector.
Proof.
  intros Hpre Hsel. induction Hpre as [|s pre Hs _ IH]; simpl.
  - apply length_positive_list in Hsel. rewrite Hsel. reflexivity.
  - rewrite Hs. simpl. exact IH.
Qed.

(** C7 (as amended): the selector used for a field.  For the ingredients
    and for the instructions it is the first selector of the priority list
    that matches at least one element; the field is the trimmed texts of all
    the elements it matches, whatever the selectors after it match.  For the
    title it is the first selector of the priority list whose first matching
    element has text other than white space; a selector that matches only
    elements without text, or whose first match has none, is passed over. *)
Theorem first_matching_selector_wins (doc : Document) :
  (forall pre selector post el,
      titleSelectors = pre ++ selector :: post ->
      Forall (no_title doc) pre ->
      querySelector doc selector = Some el ->
      trim (textContent el) <> [] ->
      find_title doc titleSelectors = trim (textContent el))
  /\ (forall pre selector post,
      ingredientSelectors = pre ++ selector :: post ->
      Forall (fun s => querySelectorAll doc s = []) pre ->
      querySelectorAll doc selector <> [] ->
      find_texts doc ingredientSelectors = texts_of doc selector)
  /\ (forall pre selector post,
      instructionSelectors = pre ++ selector :: post ->
      Forall (fun s => querySelectorAll doc s = []) pre ->
      querySelectorAll doc selector <> [] ->
      find_texts doc instructionSelectors = texts_of doc selector).
Proof.
  repeat split.
  - intros pre selector post el -> Hpre Hel Ht. apply find_title_first; assumption.
  - intros pre selector post -> Hpre Hsel. apply find_texts_first; assumption.
  - intros pre selector post -> Hpre Hsel. apply find_texts_first; assumption.
Qed.

(** The pancake page: the title comes from the third title selector, the
    ingredients from the third ingredient selector. *)
Lemma first_matching_selector_wins_witness :
  find_title pancake_page titleSelectors = lit "Pancakes"
  /\ find_texts pancake_page ingredientSelectors = [lit "2 eggs"; lit "milk"].
Proof.
  destruct (first_matching_selector_wins pancake_page) as (Htitle & Hing & _).
  split.
  - apply (Htitle [lit "h1.recipe-title"; lit "h1.entry-title"] (lit ".recipe-name")
             [jq "h1[itemprop='name']"; lit ".tasty-recipes-title";
              lit "h2.wprm-recipe-name"; lit "h1"]
             (Build_Element (lit "Pancakes"))).
    + reflexivity.
    + constructor; [right; exists (Build_Element (lit " ")); split; reflexivity|].
      constructor; [left; reflexivity|]. constructor.
    + reflexivity.
    + discriminate.
  - apply (Hing [jq "[itemprop='recipeIngredient']"; lit ".ingredient"]
             (lit ".ingredients li")
             [lit ".recipe-ingredients li"; lit ".wprm-recipe-ingredient";
              lit ".tasty-recipes-ingredients li"]).
    + reflexivity.
    + repeat constructor.
    + discriminate.
Defined.

(** C7 as stated fails for the title: the first selector of the priority
    list, [h1.recipe-title], matches an element, whose text is a single
    space; it is passed over, and the title comes from the third selector,
    [.recipe-name]. *)
Lemma title_selector_counterexample :
  querySelectorAll pancake_page (lit "h1.recipe-title") = [Build_Element (lit " ")]
  /\ querySelectorAll pancake_page (lit ".recipe-name")
     = [Build_Element (lit "Pancakes")]
  /\ find_title pancake_page titleSelectors = lit "Pancakes"
  /\ extractHtmlRecipe pancake_page
     = Some {| title := VString (lit "Pancakes");
               ingredients := [VString (lit "2 eggs"); VString (lit "milk")];
               instructions := [] |}.
Proof. vm_compute. repeat split. Qed.

(** ** The result as a function of the queries *)

Lemma find_title_ext (d1 d2 : Document) (selectors : list jstring) :
  Forall (fun s => querySelectorAll d1 s = querySelectorAll d2 s) selectors ->
  find_title d1 selectors = find_title d2 selectors.
Proof.
  induction 1 as [|s l Hs _ IH]; simpl; [reflexivity|].
  unfold querySelector. rewrite Hs, IH. reflexivity.
Qed.

Lemma find_texts_ext (d1 d2 : Document) (selectors : list jstring) :
  Forall (fun s => querySelectorAll d1 s = querySelectorAll d2 s) selectors ->
  find_texts d1 selectors = find_texts d2 selectors.
Proof.
  induction 1 as [|s l Hs _ IH]; simpl; [reflexivity|].
  rewrite Hs, IH. reflexivity.
Qed.

Lemma parseRecipe_ext (d1 d2 : Document) (url1 url2 : jstring) :
  (forall s, In s selectors_read -> querySelectorAll d1 s = querySelectorAll d2 s) ->
  parseRecipe d1 url1 = parseRecipe d2 url2.
Proof.
  intros H.
  assert (Hall : Forall (fun s => querySelectorAll d1 s = querySelectorAll d2 s)
                   selectors_read) by (apply Forall_forall; exact H).
  unfold selectors_read in Hall.
  apply Forall_cons_iff in Hall as [Hld Hall].
  apply Forall_app in Hall as [Ht Hall].
  apply Forall_app in Hall as [Hi Hs].
  unfold parseRecipe, extractJsonLdRecipe, extractHtmlRecipe.
  rewrite Hld, (@find_title_ext d1 d2 _ Ht), (@find_texts_ext d1 d2 _ Hi),
    (@find_texts_ext d1 d2 _ Hs).
  reflexivity.
Qed.

(** ** The extraction in the shared world *)

Lemma scan_scripts_at (w : Shared.World) (scripts : list Shared.node_ref) :
  Shared.scan_scripts scripts w
  = (scan_scripts (map (fun n => Build_Element (Shared.node_text w n)) scripts), w).
Proof.
  induction scripts as [|n scripts IH]; [reflexivity|].
  cbn [map]. rewrite scan_scripts_cons.
  cbn [Shared.scan_scripts].
  unfold Shared.bind at 1, Shared.try_catch, Shared.bind, Shared.textContent,
    Shared.lift, Shared.ret.
  destruct (try_script (Build_Element (Shared.node_text w n))) as [[r|]|e];
    [reflexivity | exact IH | exact IH].
Qed.

Lemma extractJsonLdRecipe_at (w : Shared.World) (doc : Shared.doc_ref) :
  Shared.extractJsonLdRecipe doc w = (extractJsonLdRecipe (document_at w doc), w).
Proof.
  unfold Shared.extractJsonLdRecipe, Shared.bind, Shared.querySelectorAll.
  rewrite scan_scripts_at. reflexivity.
Qed.

Lemma find_title_at (w : Shared.World) (doc : Shared.doc_ref) (selectors : list jstring) :
  Shared.find_title doc selectors w
  = (Return (find_title (document_at w doc) selectors), w).
Proof.
  induction selectors as [|selector rest IH]; [reflexivity|].
  cbn [Shared.find_title find_title].
  unfold Shared.bind at 1, Shared.querySelector, querySelector.
  cbn [document_at querySelectorAll].
  destruct (Shared.matching w doc selector) as [|el els]; cbn [hd_error map]; [exact IH|].
  unfold Shared.bind at 1, Shared.textContent at 1. cbn [textContent].
  destruct (non_empty (trim (Shared.node_text w el))); [reflexivity | exact IH].
Qed.

Lemma read_texts_at (w : Shared.World) (elements : list Shared.node_ref) :
  Shared.read_texts elements w
  = (Return (map (fun n => trim (Shared.node_text w n)) elements), w).
Proof.
  induction elements as [|el rest IH]; [reflexivity|].
  cbn [Shared.read_texts map].
  unfold Shared.bind at 1, Shared.textContent at 1, Shared.bind at 1.
  rewrite IH. reflexivity.
Qed.

Lemma find_texts_at (w : Shared.World) (doc : Shared.doc_ref) (selectors : list jstring) :
  Shared.find_texts doc selectors w
  = (Return (find_texts (document_at w doc) selectors), w).
Proof.
  induction selectors as [|selector rest IH]; [reflexivity|].
  cbn [Shared.find_texts find_texts].
  unfold Shared.bind at 1, Shared.querySelectorAll.
  cbn [document_at querySelectorAll]. rewrite length_map.
  destruct (Nat.ltb 0 (List.length (Shared.matching w doc selector))); [|exact IH].
  rewrite read_texts_at, map_map. reflexivity.
Qed.

Lemma extractHtmlRecipe_at (w : Shared.World) (doc : Shared.doc_ref) :
  Shared.extractHtmlRecipe doc w = (Return (extractHtmlRecipe (document_at w doc)), w).
Proof.
  unfold Shared.extractHtmlRecipe, Shared.bind, extractHtmlRecipe.
  rewrite find_title_at, !find_texts_at. reflexivity.
Qed.

Lemma parseRecipe_at (w : Shared.World) (doc : Shared.doc_ref) (url : jstring) :
  Shared.parseRecipe doc url w = (parseRecipe (document_at w doc) url, w).
Proof.
  unfold Shared.parseRecipe, Shared.bind, parseRecipe.
  rewrite extractJsonLdRecipe_at.
  destruct (extractJsonLdRecipe (document_at w doc)) as [[r|]|e]; try reflexivity.
  apply extractHtmlRecipe_at.
Qed.

(** C9: extraction changes nothing that is shared, and its result is a
    function of the document.  In a world of documents whose nodes any holder
    can write, and of a hosting page that [displayRecipe] writes, a call of
    [parseRecipe] on a document leaves the world as it found it, and returns
    what the function of the document as it stands returns.  So a second call
    on the same document, whatever the two URLs, returns the identical result
    and again the same world; a call of [displayRecipe] between the two does
    not change the result either; and the result is the same in any world in
    which the selectors of the core match nodes with the same texts. *)
Theorem extraction_changes_nothing (w : Shared.World) (doc : Shared.doc_ref)
  (url url' : jstring) :
  Shared.parseRecipe doc url w = (parseRecipe (document_at w doc) url, w)
  /\ Shared.parseRecipe doc url' (snd (Shared.parseRecipe doc url w))
     = Shared.parseRecipe doc url w
  /\ (forall recipe,
        fst (Shared.parseRecipe doc url' (snd (Shared.displayRecipe recipe w)))
        = fst (Shared.parseRecipe doc url w))
  /\ (forall w',
        (forall s, In s selectors_read ->
           map (Shared.node_text w') (Shared.matching w' doc s)
           = map (Shared.node_text w) (Shared.matching w doc s)) ->
        fst (Shared.parseRecipe doc url' w') = fst (Shared.parseRecipe doc url w)).
Proof.
  split; [apply parseRecipe_at|]. split; [|split].
  - rewrite (parseRecipe_at w doc url). cbn [snd].
    rewrite (parseRecipe_at w doc url'). reflexivity.
  - intros recipe. rewrite !parseRecipe_at. cbn [fst].
    apply parseRecipe_ext. intros s _. reflexivity.
  - intros w' H. rewrite !parseRecipe_at. cbn [fst].
    apply parseRecipe_ext. intros s Hs. cbn [document_at querySelectorAll].
    rewrite <- !(map_map (Shared.node_text _) Build_Element).
    rewrite (H s Hs). reflexivity.
Qed.

(** The shared state is real: in the world of the pie block, the extraction
    returns the pie; once the text of the script node has been overwritten,
    it finds nothing. *)
Example a_write_changes_the_result :
  fst (Shared.parseRecipe 0 [] (pie_world sample_page)) = Return (Some pie)
  /\ fst (Shared.parseRecipe 0 []
            (snd (Shared.set_textContent 7 (lit "{}") (pie_world sample_page))))
     = Return None.
Proof. split; vm_compute; reflexivity. Qed.

(** ** The Normalizer on lists of instructions *)

Lemma mapM_resolve_strings (steps : list jstring) :
  mapM resolve_item (map VString steps) = Return (map VString steps).
Proof.
  induction steps as [|s steps IH]; simpl; [reflexivity|].
  rewrite IH. reflexivity.
Qed.

Lemma filterM_length_strings (steps : list jstring) :
  filterM length_positive (map VString steps)
  = Return (map VString (filter non_empty steps)).
Proof.
  induction steps as [|s steps IH]; simpl; [reflexivity|].
  rewrite IH. simpl. destruct (non_empty s); reflexivity.
Qed.

Lemma mapM_clean_strings (steps : list jstring) :
  mapM clean_instruction (map VString steps) = Return (map clean steps).
Proof.
  induction steps as [|s steps IH]; simpl; [reflexivity|].
  rewrite IH. reflexivity.
Qed.

(** The Normalizer on a record with a non-empty text [name], a list of
    ingredients and a list of strings as instructions. *)
Lemma normalizeRecipe_plain (rec : value) (name : jstring) (ings : list value)
  (steps : list jstring) :
  Get rec (lit "name") = Return (VString name) ->
  name <> [] ->
  Get rec (lit "recipeIngredient") = Return (VArray ings) ->
  Get rec (lit "recipeInstructions") = Return (VArray (map VString steps)) ->
  normalizeRecipe rec
  = Return {| title := VString name;
              ingredients := ings;
              instructions := map clean (filter non_empty steps) |}.
Proof.
  intros Hn Hne Hi Hs. unfold normalizeRecipe, raw_instructions.
  rewrite Hn. simpl. rewrite Hi. simpl. rewrite Hs. simpl.
  rewrite mapM_resolve_strings. simpl.
  rewrite filterM_length_strings. simpl.
  rewrite mapM_clean_strings. simpl.
  unfold or_else. simpl. apply non_empty_true in Hne. rewrite Hne. reflexivity.
Qed.

(** C1 (as amended): a plain structured-data record is extracted as it
    stands.  For every document in which the first structured-data script
    element that the scan does not pass over decodes to a value from which a
    Recipe-typed record is selected, that record having a non-empty text
    [name], a [recipeIngredient] list and a [recipeInstructions] list of
    strings: [parseRecipe] returns the Recipe whose title is the name, whose
    ingredients are the list in order, and whose instructions are the
    non-empty strings of the list in order, each with its markup tags
    stripped, its runs of white space collapsed, and trimmed. *)
Theorem structured_recipe_is_extracted
  (doc : Document) (url : jstring) (before after : list Element)
  (script : Element) (parsed data rec : value)
  (name : jstring) (ings : list value) (steps : list jstring) :
  querySelectorAll doc ld_json_selector = before ++ script :: after ->
  Forall yields_nothing before ->
  JSON_parse (textContent script) = Return parsed ->
  unwrap_graph parsed = Return data ->
  select_recipe data = Return (Some rec) ->
  Get rec (lit "name") = Return (VString name) ->
  name <> [] ->
  Get rec (lit "recipeIngredient") = Return (VArray ings) ->
  Get rec (lit "recipeInstructions") = Return (VArray (map VString steps)) ->
  parseRecipe doc url
  = Return (Some {| title := VString name;
                    ingredients := ings;
                    instructions := map clean (filter non_empty steps) |}).
Proof.
  intros Hl Hb Hp Hd Hsel Hn Hne Hi Hs.
  unfold parseRecipe, extractJsonLdRecipe. rewrite Hl.
  rewrite (scan_scripts_hit before after script _ Hb
             (try_script_intro script _ _ _ _ Hp Hd Hsel
                (normalizeRecipe_plain _ _ _ _ Hn Hne Hi Hs))).
  reflexivity.
Qed.

(** A page whose first block is an organization and whose second block is the
    pie block. *)
Lemma structured_recipe_is_extracted_witness :
  parseRecipe (document_of [jq "{'@type':'Organization'}"; pie_block] []) []
  = Return (Some {| title := VString (lit "Pie");
                    ingredients := [VString (lit "1 egg"); VString (lit "2 cups flour")];
                    instructions :=
                      map clean (filter non_empty [lit "Mix <b>well</b>."; lit "Bake."]) |}).
Proof.
  apply (@structured_recipe_is_extracted
           (document_of [jq "{'@type':'Organization'}"; pie_block] []) []
           [Build_Element (jq "{'@type':'Organization'}")] []
           (Build_Element pie_block) pie_record pie_record pie_record
           (lit "Pie") [VString (lit "1 egg"); VString (lit "2 cups flour")]
           [lit "Mix <b>well</b>."; lit "Bake."]).
  - reflexivity.
  - constructor; [vm_compute; reflexivity | constructor].
  - vm_compute; reflexivity.
  - reflexivity.
  - reflexivity.
  - reflexivity.
  - discriminate.
  - reflexivity.
  - reflexivity.
Defined.

(** C1 as stated fails on a valid Recipe-typed block whose [name] is the
    empty string and whose list of instructions holds an empty string: the
    title is the default one, not the name, and the empty instruction is
    dropped, so that the instructions are not the cleaned list.  It fails as
    well on a document that contains such a block after another Recipe-typed
    block: the Recipe returned is that of the first one. *)
Lemma structured_recipe_counterexample :
  JSON_parse unnamed_block = Return unnamed_record
  /\ is_recipe_type unnamed_record = Return true
  /\ Get unnamed_record (lit "name") = Return (VString [])
  /\ Get unnamed_record (lit "recipeInstructions")
     = Return (VArray (map VString [lit "Mix"; []]))
  /\ parseRecipe (document_of [unnamed_block] []) []
     = Return (Some {| title := VString (lit "Untitled Recipe");
                       ingredients := [VString (lit "1 egg")];
                       instructions := [lit "Mix"] |})
  /\ VString (lit "Untitled Recipe") <> VString []
  /\ [lit "Mix"] <> map clean [lit "Mix"; []]
  /\ JSON_parse pie_block = Return pie_record
  /\ parseRecipe (document_of [jq "{'@type':'Recipe','name':'Cake'}"; pie_block] []) []
     = Return (Some {| title := VString (lit "Cake");
                       ingredients := []; instructions := [] |}).
Proof. vm_compute. repeat split; discriminate. Qed.

(** ** Step objects *)

Lemma resolve_step_object (text : jstring) :
  resolve_item (step_object text) = Return (VString text).
Proof. destruct text; reflexivity. Qed.

Lemma mapM_resolve_step_objects (texts : list jstring) :
  mapM resolve_item (map step_object texts) = Return (map VString texts).
Proof.
  induction texts as [|t texts IH]; [reflexivity|].
  cbn [map mapM]. rewrite resolve_step_object, IH. reflexivity.
Qed.

(** C10: the filter comes before the clean-up.  When [recipeInstructions]
    is a list, the instructions are the resolved items, filtered by
    [s.length > 0], and then cleaned one by one, no filter following; on a list
    of step objects the result is the clean-up of the non-empty texts; and on
    the step objects with the texts [" "] and ["<br>"], both non-empty,
    the instructions returned are two empty strings. *)
Theorem filter_precedes_cleanup :
  (forall items,
      normalizeRecipe (recipe_with_steps items)
      = (resolved <- mapM resolve_item items ;;
         kept <- filterM length_positive resolved ;;
         cleaned <- mapM clean_instruction kept ;;
         Return {| title := VString (lit "Untitled Recipe");
                   ingredients := [];
                   instructions := cleaned |}))
  /\ (forall texts,
      normalizeRecipe (recipe_with_steps (map step_object texts))
      = Return {| title := VString (lit "Untitled Recipe");
                  ingredients := [];
                  instructions := map clean (filter non_empty texts) |})
  /\ normalizeRecipe (recipe_with_steps [step_object (lit " "); step_object (lit "<br>")])
     = Return {| title := VString (lit "Untitled Recipe");
                 ingredients := [];
                 instructions := [ []; [] ] |}.
Proof.
  assert (H : forall items,
      normalizeRecipe (recipe_with_steps items)
      = (resolved <- mapM resolve_item items ;;
         kept <- filterM length_positive resolved ;;
         cleaned <- mapM clean_instruction kept ;;
         Return {| title := VString (lit "Untitled Recipe");
                   ingredients := [];
                   instructions := cleaned |})).
  { intros items. unfold normalizeRecipe, raw_instructions.
    replace (Get (recipe_with_steps items) (lit "name"))
      with (Return VUndefined) by reflexivity.
    replace (Get (recipe_with_steps items) (lit "recipeIngredient"))
      with (Return VUndefined) by reflexivity.
    replace (Get (recipe_with_steps items) (lit "recipeInstructions"))
      with (Return (VArray items)) by reflexivity.
    cbn [bind ToBoolean or_else].
    destruct (mapM resolve_item items) as [resolved|e]; [|reflexivity].
    cbn [bind]. destruct (filterM length_positive resolved) as [kept|e];
      [|reflexivity].
    cbn [bind]. destruct (mapM clean_instruction kept); reflexivity. }
  split; [exact H|]. split; [|reflexivity].
  intros texts. rewrite H, mapM_resolve_step_objects. cbn [bind].
  rewrite filterM_length_strings. cbn [bind].
  rewrite mapM_clean_strings. reflexivity.
Qed.

(** ** Records on which the Normalizer raises *)

(** C2: the Normalizer is not total.  On the record decoded from a Recipe
    block whose list of instructions holds [null], reading [item.text] raises
    a TypeError; on one whose section holds a single step object in place of
    a list of steps, calling [map] on it does.  No default is substituted:
    the exception leaves [normalizeRecipe], the [catch] of the scan passes
    the whole block over, and a page with nothing else to offer gets
    [null]. *)
Theorem normalizeRecipe_raises :
  JSON_parse null_step_block = Return null_step_record
  /\ normalizeRecipe null_step_record = Throw TypeError
  /\ parseRecipe (document_of [null_step_block] []) [] = Return None
  /\ JSON_parse single_step_section_block = Return single_step_section_record
  /\ normalizeRecipe single_step_section_record = Throw TypeError
  /\ parseRecipe (document_of [single_step_section_block] []) [] = Return None.
Proof. vm_compute. repeat split. Qed.

(** ** Splitting and cleaning text *)

Lemma no_boundary_cons (c : N) (r : jstring) :
  no_boundary (c :: r) = true ->
  (N.eqb c ch_dot && starts_with_space r) = false
  /\ is_newline c = false /\ no_boundary r = true.
Proof.
  simpl. intros H. apply andb_true_iff in H as [H Hr].
  apply andb_true_iff in H as [Hd Hn].
  apply negb_true_iff in Hd. apply negb_true_iff in Hn. auto.
Qed.

Lemma split_loop_whole (s cur : jstring) :
  no_boundary s = true -> split_loop None cur s = [rev cur ++ s].
Proof.
  revert cur. induction s as [|c s IH]; intros cur H.
  - simpl. rewrite app_nil_r. reflexivity.
  - apply no_boundary_cons in H as (Hd & Hn & Hr).
    cbn [split_loop]. rewrite Hd, Hn, (IH (c :: cur) Hr).
    simpl. rewrite <- app_assoc. reflexivity.
Qed.

Lemma split_loop_at_dot (a cur : jstring) (sp : N) (rest : jstring) :
  no_boundary a = true -> is_space sp = true ->
  split_loop None cur (a ++ ch_dot :: sp :: rest)
  = (rev cur ++ a) :: split_loop (Some is_space) [] (sp :: rest).
Proof.
  intros Ha Hsp. revert cur. induction a as [|c a IH]; intros cur.
  - cbn [app split_loop starts_with_space]. rewrite Hsp, N.eqb_refl.
    rewrite app_nil_r. reflexivity.
  - apply no_boundary_cons in Ha as (Hd & Hn & Hr).
    cbn [app split_loop].
    assert (Hd' : (N.eqb c ch_dot && starts_with_space (a ++ ch_dot :: sp :: rest))
                  = false).
    { destruct a as [|d a]; [|exact Hd].
      simpl. apply andb_false_r. }
    rewrite Hd', Hn, (IH Hr (c :: cur)).
    simpl. rewrite <- app_assoc. reflexivity.
Qed.

Lemma split_loop_skip_space (s : jstring) :
  split_loop (Some is_space) [] s
  = match trimStart s with
    | [] => [[]]
    | t => split_loop None [] t
    end.
Proof.
  induction s as [|c s IH]; [reflexivity|].
  cbn [split_loop trimStart]. destruct (is_space c) eqn:Hc; [exact IH|].
  cbn [split_loop]. reflexivity.
Qed.

Lemma no_boundary_trimStart (s : jstring) :
  no_boundary s = true -> no_boundary (trimStart s) = true.
Proof.
  induction s as [|c s IH]; [reflexivity|]. intros H. cbn [trimStart].
  destruct (is_space c); [|exact H].
  apply no_boundary_cons in H as (_ & _ & Hr). exact (IH Hr).
Qed.

Lemma has_text_trimStart (s : jstring) : has_text (trimStart s) = has_text s.
Proof.
  induction s as [|c s IH]; [reflexivity|]. cbn [trimStart].
  destruct (is_space c) eqn:Hc; [|reflexivity].
  rewrite IH. unfold has_text. simpl. rewrite Hc. reflexivity.
Qed.

Lemma non_empty_trimStart (s : jstring) : non_empty (trimStart s) = has_text s.
Proof.
  induction s as [|c s IH]; [reflexivity|]. cbn [trimStart].
  unfold has_text. simpl. destruct (is_space c) eqn:Hc; [exact IH|reflexivity].
Qed.

Lemma has_text_rev (s : jstring) : has_text (rev s) = has_text s.
Proof.
  unfold has_text. induction s as [|c s IH]; [reflexivity|].
  simpl. rewrite existsb_app, IH. simpl. rewrite orb_false_r. apply orb_comm.
Qed.

Lemma non_empty_rev (s : jstring) : non_empty (rev s) = non_empty s.
Proof. destruct s as [|c s]; [reflexivity|]. simpl. destruct (rev s); reflexivity. Qed.

Lemma non_empty_trim (s : jstring) : non_empty (trim s) = has_text s.
Proof.
  unfold trim, trimEnd.
  rewrite non_empty_rev, non_empty_trimStart, has_text_rev, has_text_trimStart.
  reflexivity.
Qed.

Lemma not_blank_has_text (s : jstring) : not_blank s = has_text s.
Proof. rewrite <- non_empty_trim. unfold not_blank. destruct (trim s); reflexivity. Qed.

Lemma has_text_collapse (in_run : bool) (s : jstring) :
  has_text (collapse_loop in_run s) = has_text s.
Proof.
  revert in_run. induction s as [|c s IH]; intros in_run; [reflexivity|].
  cbn [collapse_loop]. unfold has_text in *. destruct (is_space c) eqn:Hc.
  - destruct in_run; simpl; rewrite Hc, IH; reflexivity.
  - simpl. rewrite Hc, IH. reflexivity.
Qed.

Lemma has_text_strip (inside : bool) (s : jstring) :
  has_text (strip_loop inside s) = true -> has_text s = true.
Proof.
  revert inside. induction s as [|c s IH]; intros inside; [destruct inside; auto|].
  cbn [strip_loop]. unfold has_text in *. simpl. intros H.
  apply orb_true_iff.
  destruct inside.
  - right. destruct (N.eqb c ch_gt); eapply IH; exact H.
  - destruct (N.eqb c ch_lt && has_gt s).
    + right. eapply IH; exact H.
    + simpl in H. apply orb_true_iff in H as [H|H]; [left; exact H|].
      right. eapply IH; exact H.
Qed.

Lemma non_empty_clean (s : jstring) : non_empty (clean s) = has_text (strip_tags s).
Proof. unfold clean. rewrite non_empty_trim. apply has_text_collapse. Qed.

Lemma starts_with_space_trimStart (s : jstring) :
  starts_with_space (trimStart s) = false.
Proof.
  induction s as [|c s IH]; [reflexivity|]. cbn [trimStart].
  destruct (is_space c) eqn:Hc; [exact IH|exact Hc].
Qed.

Lemma trimStart_snoc (l : jstring) (c : N) :
  is_space c = false -> trimStart (l ++ [c]) = trimStart l ++ [c].
Proof.
  intros Hc. induction l as [|d l IH]; simpl; [rewrite Hc; reflexivity|].
  destruct (is_space d); [exact IH|reflexivity].
Qed.

Lemma starts_with_space_trimEnd (s : jstring) :
  starts_with_space s = false -> starts_with_space (trimEnd s) = false.
Proof.
  destruct s as [|c s]; [reflexivity|]. simpl. intros Hc.
  unfold trimEnd. simpl rev. rewrite (trimStart_snoc _ _ Hc), rev_unit.
  exact Hc.
Qed.

(** What [trim] returns has no white space at either end. *)
Lemma trim_trimmed (s : jstring) : trimmed (trim s).
Proof.
  unfold trimmed, trim. split.
  - apply starts_with_space_trimEnd, starts_with_space_trimStart.
  - unfold trimEnd. rewrite rev_involutive. apply starts_with_space_trimStart.
Qed.

Lemma space_is_not_lt (c : N) : is_space c = true -> N.eqb c ch_lt = false.
Proof.
  intros Hc. destruct (N.eqb_spec c ch_lt) as [->|]; [discriminate|reflexivity].
Qed.

Lemma trimStart_collapse (s : jstring) :
  trimStart (collapse_loop true s) = trimStart (collapse_loop false s).
Proof.
  destruct s as [|c s]; [reflexivity|]. cbn [collapse_loop].
  destruct (is_space c); reflexivity.
Qed.

Lemma clean_space_cons (c : N) (s : jstring) :
  is_space c = true -> clean (c :: s) = clean s.
Proof.
  intros Hc. unfold clean, strip_tags, collapse_spaces, trim.
  cbn [strip_loop]. rewrite (space_is_not_lt _ Hc). cbn [andb collapse_loop].
  rewrite Hc. cbn [trimStart].
  replace (is_space ch_space) with true by reflexivity.
  rewrite trimStart_collapse. reflexivity.
Qed.

Lemma clean_trimStart (s : jstring) : clean (trimStart s) = clean s.
Proof.
  induction s as [|c s IH]; [reflexivity|]. cbn [trimStart].
  destruct (is_space c) eqn:Hc; [|reflexivity].
  rewrite IH, (clean_space_cons _ _ Hc). reflexivity.
Qed.

(** Two sentences with a dot and a space between them are split into the
    first one and the second one without its leading white space. *)
Lemma split_two_sentences (a b : jstring) :
  sentence a -> sentence b ->
  split_sentences (a ++ lit ". " ++ b) = [a; trimStart b].
Proof.
  intros [Ha _] [Hb Htb]. unfold split_sentences.
  change (a ++ lit ". " ++ b) with (a ++ ch_dot :: ch_space :: b).
  rewrite (split_loop_at_dot a [] ch_space b Ha eq_refl).
  rewrite split_loop_skip_space.
  change (trimStart (ch_space :: b)) with (trimStart b).
  apply has_text_strip in Htb. rewrite <- non_empty_trimStart in Htb.
  pose proof (split_loop_whole (trimStart b) [] (no_boundary_trimStart b Hb)) as Hw.
  destruct (trimStart b) as [|c t]; [discriminate|].
  rewrite Hw. reflexivity.
Qed.

Lemma Get_returns (data : value) (k k' : jstring) (v : value) :
  Get data k = Return v -> exists v', Get data k' = Return v'.
Proof. destruct data; simpl; intros H; try discriminate; eauto. Qed.

Lemma trimStart_blank (ws : jstring) : forallb is_space ws = true -> trimStart ws = [].
Proof.
  induction ws as [|c ws IH]; [reflexivity|]. cbn [forallb trimStart]. intros H.
  apply andb_true_iff in H as [Hc Hws]. rewrite Hc. exact (IH Hws).
Qed.

Lemma trimStart_app (s t : jstring) :
  has_text s = true -> trimStart (s ++ t) = trimStart s ++ t.
Proof.
  unfold has_text. induction s as [|c s IH]; [discriminate|].
  cbn [existsb app trimStart]. destruct (is_space c); [exact IH | reflexivity].
Qed.

(** The pieces of a text of two sentences that the filter keeps: the
    sentences, the second one without the white space before it.  The piece
    after a closing dot is empty, and dropped. *)
Lemma split_two_sentences_closed (a b tail : jstring) :
  sentence a -> sentence b -> closing tail = true ->
  filter not_blank (split_sentences (a ++ lit ". " ++ b ++ tail)) = [a; trimStart b].
Proof.
  intros Ha Hb Ht.
  assert (Hfa : not_blank a = true).
  { rewrite not_blank_has_text. destruct Ha as [_ Ha]. exact (has_text_strip _ _ Ha). }
  assert (Htb : has_text b = true).
  { destruct Hb as [_ Hb]. exact (has_text_strip _ _ Hb). }
  assert (Hfb : not_blank (trimStart b) = true).
  { rewrite not_blank_has_text, has_text_trimStart. exact Htb. }
  destruct tail as [|c ws].
  - rewrite app_nil_r, (split_two_sentences a b Ha Hb).
    cbn [filter]. rewrite Hfa, Hfb. reflexivity.
  - cbn [closing] in Ht. apply andb_true_iff in Ht as [Ht Hws].
    apply andb_true_iff in Ht as [Hc Hne]. apply N.eqb_eq in Hc. subst c.
    destruct ws as [|sp ws]; [discriminate|].
    pose proof (trimStart_blank _ Hws) as Hblank.
    cbn [forallb] in Hws. apply andb_true_iff in Hws as [Hsp _].
    unfold split_sentences.
    change (a ++ lit ". " ++ b ++ ch_dot :: sp :: ws)
      with (a ++ ch_dot :: ch_space :: b ++ ch_dot :: sp :: ws).
    rewrite (split_loop_at_dot a [] ch_space _ (proj1 Ha) eq_refl).
    rewrite split_loop_skip_space.
    change (trimStart (ch_space :: b ++ ch_dot :: sp :: ws))
      with (trimStart (b ++ ch_dot :: sp :: ws)).
    rewrite (trimStart_app b _ Htb).
    pose proof (no_boundary_trimStart b (proj1 Hb)) as Hnb.
    rewrite <- non_empty_trimStart in Htb.
    destruct (trimStart b) as [|d t] eqn:Hd; [discriminate|].
    cbn [app]. change (d :: t ++ ch_dot :: sp :: ws) with ((d :: t) ++ ch_dot :: sp :: ws).
    rewrite (split_loop_at_dot (d :: t) [] sp ws Hnb Hsp).
    rewrite split_loop_skip_space, Hblank.
    cbn [rev app filter]. rewrite Hfa, Hfb. reflexivity.
Qed.

(** C8 (as amended): a text of two sentences gives two steps.  For every
    record whose [recipeInstructions] is the string made of a sentence, a
    dot, a space and a second sentence, and then nothing or a last dot
    followed by white space (a sentence being text with no dot followed by
    white space and no line feed in it, and with a visible character outside
    its markup tags), the Normalizer returns a Recipe with exactly two
    instructions, the cleaned sentences, each of them non-empty and without
    white space at either end. *)
Theorem two_sentences_two_steps (data : value) (a b tail : jstring) :
  Get data (lit "recipeInstructions") = Return (VString (a ++ lit ". " ++ b ++ tail)) ->
  sentence a -> sentence b -> closing tail = true ->
  exists r,
    normalizeRecipe data = Return r
    /\ instructions r = [clean a; clean b]
    /\ Forall (fun step => non_empty step = true /\ trimmed step) (instructions r).
Proof.
  intros Hget Ha Hb Ht.
  destruct (Get_returns data _ (lit "name") _ Hget) as [name Hname].
  destruct (Get_returns data _ (lit "recipeIngredient") _ Hget) as [ing Hing].
  unfold normalizeRecipe, raw_instructions.
  rewrite Hname, Hing, Hget. cbn [bind ToBoolean].
  assert (Hne : non_empty (a ++ lit ". " ++ b ++ tail) = true).
  { destruct a; reflexivity. }
  rewrite Hne, (split_two_sentences_closed a b tail Ha Hb Ht).
  cbn [map mapM clean_instruction bind].
  rewrite clean_trimStart.
  eexists. split; [reflexivity|]. cbn [instructions]. split; [reflexivity|].
  destruct Ha as [_ Ha]. destruct Hb as [_ Hb].
  repeat constructor; try (rewrite non_empty_clean; assumption);
    apply trim_trimmed.
Qed.

(** A text of two sentences with markup, a decimal point, a space too many
    after the dot, and a closing dot followed by a space. *)
Lemma two_sentences_two_steps_witness :
  exists r,
    normalizeRecipe two_sentence_record = Return r
    /\ instructions r
       = [ clean (lit "Mix the <b>flour</b> and 1.5 cups of milk");
           clean (lit " Bake for 20 minutes") ]
    /\ Forall (fun step => non_empty step = true /\ trimmed step) (instructions r).
Proof.
  apply (two_sentences_two_steps two_sentence_record
           (lit "Mix the <b>flour</b> and 1.5 cups of milk")
           (lit " Bake for 20 minutes") (lit ". ")).
  - reflexivity.
  - split; vm_compute; reflexivity.
  - split; vm_compute; reflexivity.
  - reflexivity.
Defined.

(** C8 as stated fails in two ways.  A sentence that holds a dot followed by
    a space, as after an abbreviation, is split there as well: a text of two
    sentences gives three instructions.  And a sentence that is made of markup
    only passes the filter, which runs before the tags are stripped, and gives
    an empty instruction. *)
Lemma two_sentences_counterexample :
  normalizeRecipe
    (VObject [ (lit "recipeInstructions", VString (lit "Step 1 vs. Step 2. Mix well.")) ])
  = Return {| title := VString (lit "Untitled Recipe");
              ingredients := [];
              instructions := [lit "Step 1 vs"; lit "Step 2"; lit "Mix well."] |}
  /\ normalizeRecipe
       (VObject [ (lit "recipeInstructions", VString (lit "<br>. Bake.")) ])
     = Return {| title := VString (lit "Untitled Recipe");
                 ingredients := [];
                 instructions := [ []; lit "Bake." ] |}.
Proof. vm_compute. repeat split. Qed.

(** ** What the Normalizer returns *)

Lemma mapM_clean_inv (raw : list value) (cleaned : list jstring) :
  mapM clean_instruction raw = Return cleaned ->
  Forall (fun step => exists s, step = clean s) cleaned.
Proof.
  revert cleaned. induction raw as [|x raw IH]; intros cleaned H.
  - injection H as <-. constructor.
  - cbn [mapM] in H. apply bind_Return_inv in H as (y & Hy & H).
    apply bind_Return_inv in H as (ys & Hys & H). injection H as <-.
    constructor; [|exact (IH ys Hys)].
    destruct x; try discriminate. injection Hy as <-. eauto.
Qed.

(** A Recipe returned by the Normalizer has a truthy title, and each of its
    instructions is the clean-up of a string: it has no white space at either
    end. *)
Theorem normalizeRecipe_result (data : value) (r : Recipe) :
  normalizeRecipe data = Return r ->
  ToBoolean (title r) = true
  /\ Forall (fun step => (exists s, step = clean s) /\ trimmed step) (instructions r).
Proof.
  unfold normalizeRecipe. intros H.
  apply bind_Return_inv in H as (name & _ & H).
  apply bind_Return_inv in H as (ing & _ & H).
  apply bind_Return_inv in H as (raw & _ & H).
  apply bind_Return_inv in H as (cleaned & Hc & H). injection H as <-.
  cbn [title instructions]. split.
  - unfold or_else. destruct (ToBoolean name) eqn:Hn; [exact Hn|reflexivity].
  - apply mapM_clean_inv in Hc. eapply Forall_impl; [|exact Hc].
    intros step [s ->]. split; [eauto|]. apply trim_trimmed.
Qed.

(** The Recipe of the pie record. *)
Lemma normalizeRecipe_result_witness :
  ToBoolean (title pie) = true
  /\ Forall (fun step => (exists s, step = clean s) /\ trimmed step) (instructions pie).
Proof. apply (normalizeRecipe_result pie_record pie). reflexivity. Defined.

Lemma text_or_absent_cases (o : option value) :
  text_or_absent o = true ->
  o = None \/ exists s, o = Some (VString s).
Proof. destruct o as [[]|]; simpl; intros H; try discriminate; eauto. Qed.

(** What [x.text || x.name || ''] is on an object whose [text] and [name],
    when present, are strings. *)
Lemma text_or_name_plain (props : list (jstring * value)) :
  text_or_absent (own props (lit "text")) = true ->
  text_or_absent (own props (lit "name")) = true ->
  exists s, text_or_name (VObject props) = Return (VString s).
Proof.
  intros Ht Hn. unfold text_or_name, Get. cbn [bind].
  apply text_or_absent_cases in Ht as [->|[t ->]];
    apply text_or_absent_cases in Hn as [->|[n ->]]; cbn [ToBoolean or_else];
    try (destruct t as [|c t]); try (destruct n as [|d n]);
    cbn [non_empty ToBoolean or_else]; eauto.
Qed.

Lemma resolve_step_plain (x : value) :
  plain_step x = true -> exists s, resolve_step x = Return (VString s).
Proof.
  destruct x as [| | | |s|items|props]; simpl; intros H; try discriminate.
  - exists s. reflexivity.
  - apply andb_true_iff in H as [Ht Hn]. unfold resolve_step. cbn [is_string].
    apply text_or_name_plain; assumption.
Qed.

Lemma mapM_resolve_steps_plain (steps : list value) :
  forallb plain_step steps = true ->
  exists texts, mapM resolve_step steps = Return (map VString texts).
Proof.
  induction steps as [|x steps IH]; intros H; [exists []; reflexivity|].
  cbn [forallb] in H. apply andb_true_iff in H as [Hx Hr].
  destruct (resolve_step_plain x Hx) as [s Hs]. destruct (IH Hr) as [texts Ht].
  exists (s :: texts). cbn [mapM]. rewrite Hs, Ht. reflexivity.
Qed.

Lemma join_rest_strings (sep : jstring) (texts : list jstring) :
  exists s, join_rest join_element sep (map VString texts) = Return s.
Proof.
  induction texts as [|t texts [s IH]]; [exists []; reflexivity|].
  cbn [map join_rest join_element ToString bind]. rewrite IH. cbn [bind]. eauto.
Qed.

Lemma join_strings (sep : jstring) (texts : list jstring) :
  exists s, join sep (map VString texts) = Return s.
Proof.
  destruct texts as [|t texts]; [exists []; reflexivity|].
  unfold join. cbn [map join_with join_element ToString bind].
  destruct (join_rest_strings sep texts) as [s Hs]. rewrite Hs. cbn [bind]. eauto.
Qed.

(** The part of the callback of lines 126-140 after the tests of [text] and
    [name], on an object that has neither or has them empty. *)
Lemma resolve_item_untitled (props : list (jstring * value)) :
  (own props (lit "text") = None \/ own props (lit "text") = Some (VString [])) ->
  (own props (lit "name") = None \/ own props (lit "name") = Some (VString [])) ->
  match own props (lit "itemListElement") with
  | None => True
  | Some (VArray steps) => forallb plain_step steps = true
  | Some _ => False
  end ->
  exists s, resolve_item (VObject props) = Return (VString s).
Proof.
  intros Ht Hn Hl.
  assert (Htf : ToBoolean (match own props (lit "text") with
                           | Some x => x | None => VUndefined end) = false)
    by (destruct Ht as [->| ->]; reflexivity).
  assert (Hnf : ToBoolean (match own props (lit "name") with
                           | Some x => x | None => VUndefined end) = false)
    by (destruct Hn as [->| ->]; reflexivity).
  unfold resolve_item, text_or_name, Get. cbn [is_string bind].
  rewrite Htf, Hnf.
  destruct (strict_eq_string _ (lit "HowToStep")).
  - cbn [bind]. unfold or_else. rewrite ?Htf, ?Hnf. eauto.
  - destruct (strict_eq_string _ (lit "HowToSection")); [|eauto].
    destruct (own props (lit "itemListElement")) as [l|]; [|cbn [ToBoolean]; eauto].
    destruct l; try contradiction.
    cbn [ToBoolean call_map].
    destruct (mapM_resolve_steps_plain _ Hl) as [texts Hm]. rewrite Hm. cbn [bind].
    destruct (join_strings (lit " ") texts) as [j Hj]. rewrite Hj. cbn [bind]. eauto.
Qed.

Lemma resolve_item_plain (x : value) :
  plain_item x = true -> exists s, resolve_item x = Return (VString s).
Proof.
  destruct x as [| | | |s|items|props]; simpl; intros H; try discriminate.
  - exists s. reflexivity.
  - apply andb_true_iff in H as [H Hl]. apply andb_true_iff in H as [Ht Hn].
    assert (Hl' : match own props (lit "itemListElement") with
                  | None => True
                  | Some (VArray steps) => forallb plain_step steps = true
                  | Some _ => False
                  end).
    { destruct (own props (lit "itemListElement")) as [[]|]; try discriminate; auto. }
    apply text_or_absent_cases in Ht as [Ht|[[|c t] Ht]].
    + apply text_or_absent_cases in Hn as [Hn|[[|d n] Hn]].
      * apply resolve_item_untitled; auto.
      * apply resolve_item_untitled; auto.
      * exists (d :: n). unfold resolve_item, Get. cbn [is_string bind].
        rewrite Ht, Hn. reflexivity.
    + apply text_or_absent_cases in Hn as [Hn|[[|d n] Hn]].
      * apply resolve_item_untitled; auto.
      * apply resolve_item_untitled; auto.
      * exists (d :: n). unfold resolve_item, Get. cbn [is_string bind].
        rewrite Ht, Hn. reflexivity.
    + exists (c :: t). unfold resolve_item, Get. cbn [is_string bind].
      rewrite Ht. reflexivity.
Qed.

Lemma mapM_resolve_items_plain (items : list value) :
  forallb plain_item items = true ->
  exists texts, mapM resolve_item items = Return (map VString texts).
Proof.
  induction items as [|x items IH]; intros H; [exists []; reflexivity|].
  cbn [forallb] in H. apply andb_true_iff in H as [Hx Hr].
  destruct (resolve_item_plain x Hx) as [s Hs]. destruct (IH Hr) as [texts Ht].
  exists (s :: texts). cbn [mapM]. rewrite Hs, Ht. reflexivity.
Qed.

(** On a record whose [recipeInstructions] is a list of plain items the
    Normalizer returns a Recipe. *)
Theorem normalizeRecipe_returns_on_plain_items
  (props : list (jstring * value)) (items : list value) :
  own props (lit "recipeInstructions") = Some (VArray items) ->
  forallb plain_item items = true ->
  exists r, normalizeRecipe (VObject props) = Return r.
Proof.
  intros Hri Hp. unfold normalizeRecipe, raw_instructions, Get. cbn [bind].
  rewrite Hri. cbn [ToBoolean].
  destruct (mapM_resolve_items_plain items Hp) as [texts ->]. cbn [bind].
  rewrite filterM_length_strings. cbn [bind].
  rewrite mapM_clean_strings. cbn [bind]. eauto.
Qed.

(** A list of a string, a step object and a section of two plain steps. *)
Lemma normalizeRecipe_returns_on_plain_items_witness :
  exists r,
    normalizeRecipe
      (VObject [ (lit "recipeInstructions",
                   VArray [ VString (lit "Mix"); step_object (lit "Bake");
                            VObject [ (lit "@type", VString (lit "HowToSection"));
                                      (lit "itemListElement",
                                        VArray [VString (lit "Cool");
                                                step_object (lit "Serve")]) ] ]) ])
    = Return r.
Proof.
  eapply normalizeRecipe_returns_on_plain_items; reflexivity.
Defined.

(** ** The clean-up of an instruction *)

Lemma has_gt_strip (inside : bool) (s : jstring) :
  has_gt (strip_loop inside s) = true -> has_gt s = true.
Proof.
  revert inside. induction s as [|c s IH]; intros inside; [destruct inside; auto|].
  cbn [strip_loop has_gt]. intros H. apply orb_true_iff. destruct inside.
  - right. destruct (N.eqb c ch_gt); eapply IH; exact H.
  - destruct (N.eqb c ch_lt && has_gt s).
    + right. eapply IH; exact H.
    + cbn [has_gt] in H. apply orb_true_iff in H as [H|H]; [left; exact H|].
      right. eapply IH; exact H.
Qed.

Lemma tag_free_strip (inside : bool) (s : jstring) :
  tag_free (strip_loop inside s) = true.
Proof.
  revert inside. induction s as [|c s IH]; intros inside; [destruct inside; reflexivity|].
  cbn [strip_loop]. destruct inside.
  - destruct (N.eqb c ch_gt); apply IH.
  - destruct (N.eqb c ch_lt && has_gt s) eqn:Hc; [apply IH|].
    cbn [tag_free]. rewrite IH, andb_true_r. apply negb_true_iff.
    destruct (N.eqb c ch_lt); [|reflexivity]. simpl in Hc. simpl.
    destruct (has_gt (strip_loop false s)) eqn:Hg; [|reflexivity].
    apply has_gt_strip in Hg. congruence.
Qed.

Lemma space_is_not_gt (c : N) : is_space c = true -> N.eqb c ch_gt = false.
Proof.
  intros Hc. destruct (N.eqb_spec c ch_gt) as [->|]; [discriminate|reflexivity].
Qed.

Lemma has_gt_collapse (in_run : bool) (s : jstring) :
  has_gt (collapse_loop in_run s) = has_gt s.
Proof.
  revert in_run. induction s as [|c s IH]; intros in_run; [reflexivity|].
  cbn [collapse_loop has_gt]. destruct (is_space c) eqn:Hc.
  - rewrite (space_is_not_gt _ Hc). destruct in_run; cbn [has_gt orb]; rewrite IH;
      reflexivity.
  - cbn [has_gt]. rewrite IH. reflexivity.
Qed.

Lemma tag_free_collapse (in_run : bool) (s : jstring) :
  tag_free s = true -> tag_free (collapse_loop in_run s) = true.
Proof.
  revert in_run. induction s as [|c s IH]; intros in_run H; [reflexivity|].
  cbn [tag_free] in H. apply andb_true_iff in H as [Hc Hs].
  cbn [collapse_loop]. destruct (is_space c) eqn:Hsp.
  - destruct in_run; [apply IH; exact Hs|].
    cbn [tag_free]. rewrite (IH true Hs). reflexivity.
  - cbn [tag_free]. rewrite has_gt_collapse, Hc, (IH false Hs). reflexivity.
Qed.

Lemma trimStart_suffix (s : jstring) : exists w, s = w ++ trimStart s.
Proof.
  induction s as [|c s [w IH]]; [exists []; reflexivity|].
  cbn [trimStart]. destruct (is_space c); [|exists []; reflexivity].
  exists (c :: w). simpl. rewrite <- IH. reflexivity.
Qed.

Lemma trimEnd_prefix (s : jstring) : exists w, s = trimEnd s ++ w.
Proof.
  destruct (trimStart_suffix (rev s)) as [w Hw]. exists (rev w).
  unfold trimEnd. rewrite <- rev_app_distr, <- Hw, rev_involutive. reflexivity.
Qed.

Lemma has_gt_app (a b : jstring) : has_gt (a ++ b) = has_gt a || has_gt b.
Proof.
  induction a as [|c a IH]; [reflexivity|]. simpl. rewrite IH. apply orb_assoc.
Qed.

Lemma tag_free_app (a b : jstring) :
  tag_free (a ++ b) = true -> tag_free a = true /\ tag_free b = true.
Proof.
  induction a as [|c a IH]; [auto|]. simpl. intros H.
  apply andb_true_iff in H as [Hc H]. destruct (IH H) as [Ha Hb].
  split; [|exact Hb]. rewrite Ha, andb_true_r.
  apply negb_true_iff. apply negb_true_iff in Hc.
  destruct (N.eqb c ch_lt); [|reflexivity]. simpl in *.
  rewrite has_gt_app in Hc. apply orb_false_iff in Hc as [Hc _]. exact Hc.
Qed.

Lemma tag_free_trim (s : jstring) : tag_free s = true -> tag_free (trim s) = true.
Proof.
  intros H. unfold trim.
  destruct (trimStart_suffix s) as [w Hw]. rewrite Hw in H.
  apply tag_free_app in H as [_ H].
  destruct (trimEnd_prefix (trimStart s)) as [v Hv]. rewrite Hv in H.
  apply tag_free_app in H as [H _]. exact H.
Qed.

Lemma single_spaced_collapse (s : jstring) :
  single_spaced (collapse_loop false s) = true
  /\ single_spaced (collapse_loop true s) = true
  /\ starts_with_space (collapse_loop true s) = false.
Proof.
  induction s as [|c s (IHf & IHt & IHs)]; [auto|].
  cbn [collapse_loop]. destruct (is_space c) eqn:Hc.
  - repeat split; try assumption.
    cbn [single_spaced]. replace (is_space ch_space) with true by reflexivity.
    rewrite N.eqb_refl, IHs, IHt. reflexivity.
  - cbn [single_spaced starts_with_space]. rewrite Hc, IHf. auto.
Qed.

Lemma single_spaced_app (a b : jstring) :
  single_spaced (a ++ b) = true -> single_spaced a = true /\ single_spaced b = true.
Proof.
  induction a as [|c a IH]; [auto|]. simpl. intros H.
  apply andb_true_iff in H as [Hc H]. destruct (IH H) as [Ha Hb].
  split; [|exact Hb]. rewrite Ha, andb_true_r.
  destruct (is_space c); [|reflexivity].
  apply andb_true_iff in Hc as [Hc Hn]. rewrite Hc. simpl.
  destruct a; [reflexivity|exact Hn].
Qed.

Lemma single_spaced_trim (s : jstring) :
  single_spaced s = true -> single_spaced (trim s) = true.
Proof.
  intros H. unfold trim.
  destruct (trimStart_suffix s) as [w Hw]. rewrite Hw in H.
  apply single_spaced_app in H as [_ H].
  destruct (trimEnd_prefix (trimStart s)) as [v Hv]. rewrite Hv in H.
  apply single_spaced_app in H as [H _]. exact H.
Qed.

Lemma strip_tag_free (s : jstring) : tag_free s = true -> strip_tags s = s.
Proof.
  unfold strip_tags. induction s as [|c s IH]; [reflexivity|].
  cbn [tag_free strip_loop]. intros H. apply andb_true_iff in H as [Hc Hs].
  apply negb_true_iff in Hc. rewrite Hc, (IH Hs). reflexivity.
Qed.

Lemma collapse_single_spaced (s : jstring) :
  single_spaced s = true ->
  collapse_loop false s = s
  /\ (starts_with_space s = false -> collapse_loop true s = s).
Proof.
  induction s as [|c s IH]; [auto|].
  cbn [single_spaced collapse_loop starts_with_space]. intros H.
  apply andb_true_iff in H as [Hc Hs]. destruct (IH Hs) as [IHf IHt].
  destruct (is_space c) eqn:Hsp.
  - apply andb_true_iff in Hc as [Hc Hn]. apply N.eqb_eq in Hc. subst c.
    apply negb_true_iff in Hn. split; [|discriminate].
    rewrite (IHt Hn). reflexivity.
  - rewrite IHf. auto.
Qed.

Lemma trimStart_id (s : jstring) : starts_with_space s = false -> trimStart s = s.
Proof. destruct s as [|c s]; [reflexivity|]. simpl. intros ->. reflexivity. Qed.

Lemma trim_trimmed_id (s : jstring) : trimmed s -> trim s = s.
Proof.
  intros [Hs He]. unfold trim, trimEnd.
  rewrite (trimStart_id s Hs), (trimStart_id _ He). apply rev_involutive.
Qed.

(** What the clean-up returns holds no tag, no white space but single
    spaces, none of them at an end, and is left as it is by a second
    clean-up. *)
Lemma clean_normal_form (s : jstring) :
  tag_free (clean s) = true /\ single_spaced (clean s) = true
  /\ trimmed (clean s) /\ clean (clean s) = clean s.
Proof.
  assert (Ht : tag_free (clean s) = true).
  { unfold clean. apply tag_free_trim, tag_free_collapse, tag_free_strip. }
  assert (Hs : single_spaced (clean s) = true).
  { unfold clean. apply single_spaced_trim.
    apply (proj1 (single_spaced_collapse (strip_tags s))). }
  assert (Hm : trimmed (clean s)) by apply trim_trimmed.
  repeat split; try assumption; try apply Hm.
  unfold clean at 1. rewrite (strip_tag_free _ Ht).
  unfold collapse_spaces. rewrite (proj1 (collapse_single_spaced _ Hs)).
  apply trim_trimmed_id. exact Hm.
Qed.

(** Every instruction of a Recipe returned by the Normalizer is in normal
    form: it holds no markup tag (no [<] with a [>] after it), its only white
    space is single spaces between other characters, and cleaning it again
    changes nothing. *)
Theorem normalized_instructions (data : value) (r : Recipe) :
  normalizeRecipe data = Return r ->
  Forall (fun step =>
            tag_free step = true /\ single_spaced step = true
            /\ trimmed step /\ clean step = step)
         (instructions r).
Proof.
  unfold normalizeRecipe. intros H.
  apply bind_Return_inv in H as (name & _ & H).
  apply bind_Return_inv in H as (ing & _ & H).
  apply bind_Return_inv in H as (raw & _ & H).
  apply bind_Return_inv in H as (cleaned & Hc & H). injection H as <-.
  cbn [instructions]. apply mapM_clean_inv in Hc.
  eapply Forall_impl; [|exact Hc].
  intros step [s ->]. apply clean_normal_form.
Qed.

(** The Recipe of the pie record. *)
Lemma normalized_instructions_witness :
  Forall (fun step =>
            tag_free step = true /\ single_spaced step = true
            /\ trimmed step /\ clean step = step)
         (instructions pie).
Proof. apply (normalized_instructions pie_record pie). reflexivity. Defined.

(** ** Where the Normalizer can raise *)

Lemma raw_instructions_not_list (data ri : value) :
  Get data (lit "recipeInstructions") = Return ri ->
  isArray ri = false ->
  raw_instructions data
  = Return (match ri with
            | VString s => map VString (filter not_blank (split_sentences s))
            | _ => []
            end).
Proof.
  intros Hget Harr. unfold raw_instructions. rewrite Hget. cbn [bind].
  destruct ri as [| |b|x|s|items|props]; try discriminate; try reflexivity.
  - destruct (ToBoolean (VBool b)); reflexivity.
  - destruct (ToBoolean (VNumber x)); reflexivity.
  - destruct s; reflexivity.
Qed.

Lemma normalizeRecipe_not_list (data ri : value) :
  Get data (lit "recipeInstructions") = Return ri ->
  isArray ri = false ->
  exists r,
    normalizeRecipe data = Return r
    /\ instructions r
       = match ri with
         | VString s => map clean (filter not_blank (split_sentences s))
         | _ => []
         end.
Proof.
  intros Hget Harr.
  destruct (Get_returns data _ (lit "name") _ Hget) as [name Hname].
  destruct (Get_returns data _ (lit "recipeIngredient") _ Hget) as [ing Hing].
  unfold normalizeRecipe.
  rewrite Hname, Hing, (raw_instructions_not_list data ri Hget Harr). cbn [bind].
  destruct ri as [| |b|x|s|items|props]; try discriminate;
    try (eexists; split; reflexivity).
  rewrite mapM_clean_strings. eexists. split; reflexivity.
Qed.

(** The Normalizer raises on no record whose [recipeInstructions] is not a
    list: absent, falsy, a string, a number or an object, it gives the
    instructions of the split text or none, whatever the other properties
    hold. *)
Theorem normalizeRecipe_raises_only_on_lists (data ri : value) :
  Get data (lit "recipeInstructions") = Return ri ->
  isArray ri = false ->
  exists r,
    normalizeRecipe data = Return r
    /\ instructions r
       = match ri with
         | VString s => map clean (filter not_blank (split_sentences s))
         | _ => []
         end.
Proof. exact (normalizeRecipe_not_list data ri). Qed.

(** A record whose instructions are an object. *)
Lemma normalizeRecipe_raises_only_on_lists_witness :
  exists r,
    normalizeRecipe
      (VObject [ (lit "name", VNull);
                 (lit "recipeInstructions",
                   VObject [(lit "@type", VString (lit "ItemList"))]) ])
    = Return r
    /\ instructions r = [].
Proof.
  apply (normalizeRecipe_raises_only_on_lists _
           (VObject [(lit "@type", VString (lit "ItemList"))])); reflexivity.
Defined.

(** ** Text, then name, then the steps *)

(** An item object with a non-empty [text] gives that text; one without
    [text] but with a non-empty [name] gives that name.  Neither its type nor
    its [itemListElement] is looked at: a section that has a name gives its
    name and none of its steps. *)
Theorem resolve_item_text_then_name (props : list (jstring * value)) (s : jstring) :
  s <> [] ->
  (own props (lit "text") = Some (VString s)
   \/ ((own props (lit "text") = None \/ own props (lit "text") = Some (VString []))
       /\ own props (lit "name") = Some (VString s))) ->
  resolve_item (VObject props) = Return (VString s).
Proof.
  intros Hs H. apply non_empty_true in Hs.
  unfold resolve_item, Get. cbn [is_string bind].
  destruct H as [Ht|[[Ht|Ht] Hn]]; rewrite Ht; cbn [ToBoolean];
    rewrite ?Hn; cbn [ToBoolean non_empty]; rewrite ?Hs; reflexivity.
Qed.

(** A section with a name and two steps. *)
Lemma resolve_item_text_then_name_witness :
  resolve_item
    (VObject [ (lit "@type", VString (lit "HowToSection"));
               (lit "name", VString (lit "For the dough"));
               (lit "itemListElement",
                 VArray [step_object (lit "Mix"); step_object (lit "Knead")]) ])
  = Return (VString (lit "For the dough")).
Proof.
  apply resolve_item_text_then_name; [discriminate|].
  right. split; [left|]; reflexivity.
Defined.

(** ** Text without markup *)

Lemma split_loop_chars (P : N -> Prop) (skip : option (N -> bool)) (s cur : jstring) :
  Forall P cur -> Forall P s -> Forall (Forall P) (split_loop skip cur s).
Proof.
  revert skip cur. induction s as [|c s IH]; intros skip cur Hcur Hs.
  - cbn [split_loop]. constructor; [|constructor]. apply Forall_rev. exact Hcur.
  - apply Forall_cons_iff in Hs as [Hc Hs]. cbn [split_loop].
    destruct (match skip with Some p => p c | None => false end); [apply IH; assumption|].
    destruct (N.eqb c ch_dot && starts_with_space s).
    { constructor; [apply Forall_rev; exact Hcur | apply IH; [constructor | assumption]]. }
    destruct (is_newline c).
    { constructor; [apply Forall_rev; exact Hcur | apply IH; [constructor | assumption]]. }
    apply IH; [constructor|]; assumption.
Qed.

Lemma strip_no_lt (s : jstring) : no_lt s -> strip_tags s = s.
Proof.
  unfold strip_tags. induction 1 as [|c s Hc _ IH]; [reflexivity|].
  cbn [strip_loop]. rewrite Hc, IH. reflexivity.
Qed.

(** When [recipeInstructions] is a string that holds no [<], the Normalizer
    returns no empty instruction: each is the clean-up of a piece of the
    split that is not blank. *)
Theorem plain_text_gives_no_empty_step (data : value) (s : jstring) (r : Recipe) :
  Get data (lit "recipeInstructions") = Return (VString s) ->
  no_lt s ->
  normalizeRecipe data = Return r ->
  Forall (fun step => non_empty step = true) (instructions r).
Proof.
  intros Hget Hlt Hr.
  destruct (normalizeRecipe_not_list data (VString s) Hget eq_refl) as [r' [Hr' Hi]].
  rewrite Hr' in Hr. injection Hr as <-. rewrite Hi.
  apply Forall_map. apply Forall_forall. intros piece Hin.
  apply filter_In in Hin as [Hin Hb].
  assert (Hp : no_lt piece).
  { pose proof (split_loop_chars _ None s [] (Forall_nil _) Hlt) as Hall.
    rewrite Forall_forall in Hall. exact (Hall piece Hin). }
  rewrite non_empty_clean, (strip_no_lt _ Hp), <- not_blank_has_text. exact Hb.
Qed.

(** A text whose last sentence is followed by spaces only. *)
Lemma plain_text_gives_no_empty_step_witness :
  Forall (fun step => non_empty step = true)
    [lit "Mix"; lit "Bake 1.5 hours"].
Proof.
  apply (plain_text_gives_no_empty_step
           (VObject [(lit "recipeInstructions", VString (lit "Mix.  Bake 1.5 hours.   "))])
           (lit "Mix.  Bake 1.5 hours.   ")
           {| title := VString (lit "Untitled Recipe"); ingredients := [];
              instructions := [lit "Mix"; lit "Bake 1.5 hours"] |}).
  - reflexivity.
  - repeat constructor.
  - vm_compute. reflexivity.
Defined.

(** ** What the heuristic extractor returns *)

Lemma trimmed_nil : trimmed [].
Proof. split; reflexivity. Qed.

Lemma find_title_trimmed (doc : Document) (selectors : list jstring) :
  trimmed (find_title doc selectors).
Proof.
  induction selectors as [|s l IH]; cbn [find_title]; [exact trimmed_nil|].
  destruct (querySelector doc s) as [el|]; [|exact IH].
  destruct (non_empty (trim (textContent el))); [apply trim_trimmed | exact IH].
Qed.

Lemma find_texts_trimmed (doc : Document) (selectors : list jstring) :
  Forall trimmed (find_texts doc selectors).
Proof.
  induction selectors as [|s l IH]; cbn [find_texts]; [constructor|].
  destruct (Nat.ltb 0 (List.length (querySelectorAll doc s))); [|exact IH].
  apply Forall_map, Forall_forall. intros el _. apply trim_trimmed.
Qed.

(** A Recipe of the heuristic extractor has a non-empty text as title, texts
    as ingredients, and an ingredient or an instruction; no text of it starts
    or ends with white space.  Nothing more is cleaned: the texts keep the
    white space inside them and may be empty. *)
Theorem extractHtmlRecipe_result (doc : Document) (r : Recipe) :
  extractHtmlRecipe doc = Some r ->
  exists t ings,
    title r = VString t /\ t <> [] /\ trimmed t
    /\ ingredients r = map VString ings /\ Forall trimmed ings
    /\ Forall trimmed (instructions r)
    /\ (ings <> [] \/ instructions r <> []).
Proof.
  intros H.
  destruct (usable_dec doc) as [Hu|Hu].
  - rewrite (extractHtmlRecipe_usable doc Hu) in H. injection H as <-.
    destruct Hu as [Ht Hl].
    exists (find_title doc titleSelectors), (find_texts doc ingredientSelectors).
    cbn [heuristic_recipe title ingredients instructions].
    repeat split; try assumption.
    + apply find_title_trimmed.
    + apply find_title_trimmed.
    + apply find_texts_trimmed.
    + apply find_texts_trimmed.
  - rewrite (extractHtmlRecipe_unusable doc Hu) in H. discriminate.
Qed.

(** The pancake page, whose second ingredient is empty. *)
Lemma extractHtmlRecipe_result_witness :
  exists t ings,
    title (heuristic_recipe pancake_page) = VString t /\ t <> [] /\ trimmed t
    /\ ingredients (heuristic_recipe pancake_page) = map VString ings
    /\ Forall trimmed ings
    /\ Forall trimmed (instructions (heuristic_recipe pancake_page))
    /\ (ings <> [] \/ instructions (heuristic_recipe pancake_page) <> []).
Proof.
  apply (extractHtmlRecipe_result pancake_page). vm_compute. reflexivity.
Defined.

(** ** What parseRecipe returns *)

(** Whichever extractor it comes from, a Recipe that [parseRecipe] returns
    has a title that is not falsy, and instructions that neither start nor
    end with white space. *)
Theorem parseRecipe_result (doc : Document) (url : jstring) (r : Recipe) :
  parseRecipe doc url = Return (Some r) ->
  ToBoolean (title r) = true /\ Forall trimmed (instructions r).
Proof.
  unfold parseRecipe, extractJsonLdRecipe. intros H.
  apply bind_Return_inv in H as ([r'|] & Hscan & H).
  - injection H as ->.
    apply scan_scripts_sound in Hscan as (before & script & after & _ & _ & Hs).
    apply try_script_inv in Hs as (parsed & data & rec & _ & _ & _ & Hn).
    unfold normalizeRecipe in Hn.
    apply bind_Return_inv in Hn as (name & _ & Hn).
    apply bind_Return_inv in Hn as (ing & _ & Hn).
    apply bind_Return_inv in Hn as (raw & _ & Hn).
    apply bind_Return_inv in Hn as (cleaned & Hc & Hn). injection Hn as <-.
    cbn [title instructions]. split.
    + unfold or_else. destruct (ToBoolean name) eqn:Hname; [exact Hname|reflexivity].
    + apply mapM_clean_inv in Hc. eapply Forall_impl; [|exact Hc].
      intros step [s ->]. apply trim_trimmed.
  - injection H as H.
    destruct (usable_dec doc) as [Hu|Hu].
    + rewrite (extractHtmlRecipe_usable doc Hu) in H. injection H as <-.
      cbn [heuristic_recipe title instructions ToBoolean]. split.
      * apply non_empty_true. exact (proj1 Hu).
      * apply find_texts_trimmed.
    + rewrite (extractHtmlRecipe_unusable doc Hu) in H. discriminate.
Qed.

(** The page of the pie block. *)
Lemma parseRecipe_result_witness :
  ToBoolean (title pie) = true /\ Forall trimmed (instructions pie).
Proof.
  apply (parseRecipe_result (document_of [pie_block] []) (lit "https://example.org/pie")).
  vm_compute. reflexivity.
Defined.

(** ** encodeURIComponent *)

Lemma option_map_Some_inv (A B : Type) (f : A -> B) (o : option A) (y : B) :
  option_map f o = Some y -> exists x, o = Some x /\ y = f x.
Proof. destruct o as [x|]; simpl; intros H; [injection H as <-; eauto | discriminate]. Qed.

Lemma hex_digit_unreserved (n : N) : (n < 16)%N -> uri_unreserved (hex_digit n) = true.
Proof.
  intros H. rewrite <- (N2Nat.id n).
  assert (Hm : (N.to_nat n < 16)%nat) by lia.
  clear H. revert Hm. generalize (N.to_nat n). intros m Hm.
  do 16 (destruct m as [|m]; [reflexivity|]). lia.
Qed.

Lemma percent_octet_safe (o : N) : Forall (fun c => uri_safe c = true) (percent_octet o).
Proof.
  unfold percent_octet, uri_safe. repeat constructor.
  - rewrite hex_digit_unreserved; [reflexivity|]. apply N.mod_upper_bound. discriminate.
  - rewrite hex_digit_unreserved; [reflexivity|]. apply N.mod_upper_bound. discriminate.
Qed.

Lemma percent_encode_safe (cp : N) : Forall (fun c => uri_safe c = true) (percent_encode cp).
Proof.
  unfold percent_encode. induction (utf8 cp) as [|o l IH]; [constructor|].
  cbn [flat_map]. apply Forall_app. split; [apply percent_octet_safe | exact IH].
Qed.

Lemma encodeURIComponent_safe_upto (n : nat) (s enc : jstring) :
  (List.length s <= n)%nat ->
  encodeURIComponent s = Some enc ->
  Forall (fun c => uri_safe c = true) enc.
Proof.
  revert s enc. induction n as [|n IH]; intros s enc Hn H.
  - destruct s; [|simpl in Hn; lia]. injection H as <-. constructor.
  - destruct s as [|c r]; [injection H as <-; constructor|].
    cbn [encodeURIComponent] in H. simpl in Hn.
    destruct (uri_unreserved c) eqn:Hc.
    { apply option_map_Some_inv in H as (e & He & ->).
      constructor; [unfold uri_safe; rewrite Hc; reflexivity|].
      apply (IH r); [lia | exact He]. }
    destruct (is_trail c); [discriminate|].
    destruct (is_lead c).
    + destruct r as [|d r']; [discriminate|].
      destruct (is_trail d); [|discriminate].
      apply option_map_Some_inv in H as (e & He & ->).
      apply Forall_app. split; [apply percent_encode_safe|].
      apply (IH r'); [simpl in Hn; lia | exact He].
    + apply option_map_Some_inv in H as (e & He & ->).
      apply Forall_app. split; [apply percent_encode_safe|].
      apply (IH r); [lia | exact He].
Qed.

Lemma encodeURIComponent_safe (s enc : jstring) :
  encodeURIComponent s = Some enc -> Forall (fun c => uri_safe c = true) enc.
Proof. apply (encodeURIComponent_safe_upto (List.length s)). apply Nat.le_refl. Qed.

Lemma encodeURIComponent_returns (s : jstring) :
  no_surrogate s -> exists enc, encodeURIComponent s = Some enc.
Proof.
  induction 1 as [|c r [Hl Ht] _ [enc IH]]; [exists []; reflexivity|].
  cbn [encodeURIComponent]. rewrite Hl, Ht, IH.
  destruct (uri_unreserved c); simpl; eauto.
Qed.

(** [encodeURIComponent] raises on no text without surrogates, and what it
    returns holds unreserved characters and percent signs only: none of the
    separators of a URL ([: / ? # & = +]) and no white space, whatever the
    text holds. *)
Theorem encodeURIComponent_escapes (s : jstring) :
  no_surrogate s ->
  exists enc,
    encodeURIComponent s = Some enc
    /\ Forall (fun c => uri_safe c = true) enc
    /\ Forall (fun c => In c enc -> False)
         (lit ":/?#&=+ ").
Proof.
  intros Hs. destruct (encodeURIComponent_returns s Hs) as [enc He].
  exists enc. split; [exact He|].
  pose proof (encodeURIComponent_safe s enc He) as Hsafe.
  split; [exact Hsafe|].
  rewrite Forall_forall in Hsafe.
  repeat constructor; intros Hin; apply Hsafe in Hin; discriminate Hin.
Qed.

(** The URL of the sample page. *)
Lemma encodeURIComponent_escapes_witness :
  exists enc,
    encodeURIComponent (lit "https://example.org/pie?id=1&x=a b") = Some enc
    /\ Forall (fun c => uri_safe c = true) enc
    /\ Forall (fun c => In c enc -> False) (lit ":/?#&=+ ").
Proof.
  apply encodeURIComponent_escapes.
  repeat (constructor; [split; reflexivity|]). constructor.
Defined.

(** ** The page after displayRecipe *)

Lemma append_items_texts (items : list value) (texts shown : list jstring) :
  mapM to_text items = Return texts ->
  append_items items shown = (shown ++ texts, Return tt).
Proof.
  revert texts shown. induction items as [|x items IH]; intros texts shown H.
  - injection H as <-. rewrite app_nil_r. reflexivity.
  - cbn [mapM] in H. apply bind_Return_inv in H as (t & Ht & H).
    apply bind_Return_inv in H as (ts & Hts & H). injection H as <-.
    cbn [append_items]. rewrite Ht, (IH ts _ Hts), <- app_assoc. reflexivity.
Qed.

Lemma append_texts_app (texts shown : list jstring) :
  append_texts texts shown = shown ++ texts.
Proof.
  unfold append_texts. revert shown.
  induction texts as [|t texts IH]; intros shown; cbn [fold_left].
  - rewrite app_nil_r. reflexivity.
  - rewrite IH, <- app_assoc. reflexivity.
Qed.

Lemma mapM_to_text_strings (texts : list jstring) :
  mapM to_text (map VString texts) = Return texts.
Proof.
  induction texts as [|t texts IH]; [reflexivity|].
  cbn [map mapM to_text ToString bind]. rewrite IH. reflexivity.
Qed.

Lemma displayRecipe_returns (recipe : Recipe) (t : jstring) (ings : list jstring)
  (p : Page) :
  to_text (title recipe) = Return t ->
  mapM to_text (ingredients recipe) = Return ings ->
  displayRecipe recipe p
  = ({| urlInput_value := urlInput_value p;
        fetchBtn_disabled := fetchBtn_disabled p;
        errorDiv_textContent := errorDiv_textContent p;
        errorDiv_display := errorDiv_display p;
        loadingDiv_display := loadingDiv_display p;
        recipeCard_visible := true;
        actionsDiv_display := lit "flex";
        recipe_title := t;
        ingredients_list := ings;
        instructions_list := instructions recipe |},
     Return tt).
Proof.
  intros Ht Hi. unfold displayRecipe.
  rewrite Ht, (append_items_texts _ ings [] Hi), append_texts_app. reflexivity.
Qed.

(** What a call of [displayRecipe] does to the page apart from the title and
    the ingredients: nothing to the controls; the card and the actions are
    shown and the instructions replaced when it returns, and left as they
    were when it raises. *)
Lemma displayRecipe_page (recipe : Recipe) (p : Page) :
  same_controls p (fst (displayRecipe recipe p))
  /\ match snd (displayRecipe recipe p) with
     | Return _ =>
         recipeCard_visible (fst (displayRecipe recipe p)) = true
         /\ actionsDiv_display (fst (displayRecipe recipe p)) = lit "flex"
     | Throw _ =>
         recipeCard_visible (fst (displayRecipe recipe p)) = recipeCard_visible p
         /\ actionsDiv_display (fst (displayRecipe recipe p)) = actionsDiv_display p
         /\ instructions_list (fst (displayRecipe recipe p)) = instructions_list p
     end.
Proof.
  unfold displayRecipe, same_controls.
  destruct (to_text (title recipe)) as [t|e]; [|cbn; auto 10].
  destruct (append_items (ingredients recipe) []) as [children [[]|e]]; cbn; auto 10.
Qed.

(** When the title and the ingredients of a Recipe convert to text,
    [displayRecipe] returns, and the page then shows the card and the
    actions, with the title, the ingredients in their order and the
    instructions in theirs, in place of what the two lists held; the URL
    input, the button, the error box and the loading box are as before. *)
Theorem displayRecipe_shows_the_recipe (recipe : Recipe) (t : jstring)
  (ings : list jstring) (p : Page) :
  to_text (title recipe) = Return t ->
  mapM to_text (ingredients recipe) = Return ings ->
  displayRecipe recipe p
  = ({| urlInput_value := urlInput_value p;
        fetchBtn_disabled := fetchBtn_disabled p;
        errorDiv_textContent := errorDiv_textContent p;
        errorDiv_display := errorDiv_display p;
        loadingDiv_display := loadingDiv_display p;
        recipeCard_visible := true;
        actionsDiv_display := lit "flex";
        recipe_title := t;
        ingredients_list := ings;
        instructions_list := instructions recipe |},
     Return tt).
Proof. exact (displayRecipe_returns recipe t ings p). Qed.

(** The pie on the sample page, which showed a soup. *)
Lemma displayRecipe_shows_the_recipe_witness :
  displayRecipe pie sample_page
  = ({| urlInput_value := urlInput_value sample_page;
        fetchBtn_disabled := fetchBtn_disabled sample_page;
        errorDiv_textContent := errorDiv_textContent sample_page;
        errorDiv_display := errorDiv_display sample_page;
        loadingDiv_display := loadingDiv_display sample_page;
        recipeCard_visible := true;
        actionsDiv_display := lit "flex";
        recipe_title := lit "Pie";
        ingredients_list := [lit "1 egg"; lit "2 cups flour"];
        instructions_list := instructions pie |},
     Return tt).
Proof. apply displayRecipe_shows_the_recipe; reflexivity. Defined.

(** A call of [displayRecipe] that raises reveals nothing: the card and the
    actions are shown or hidden as before, the list of instructions holds
    what it held, and the controls are untouched.  Only the title and the
    list of ingredients may have changed. *)
Theorem displayRecipe_raising_keeps_the_card (recipe : Recipe) (p : Page) (e : exn) :
  snd (displayRecipe recipe p) = Throw e ->
  recipeCard_visible (fst (displayRecipe recipe p)) = recipeCard_visible p
  /\ actionsDiv_display (fst (displayRecipe recipe p)) = actionsDiv_display p
  /\ instructions_list (fst (displayRecipe recipe p)) = instructions_list p
  /\ same_controls p (fst (displayRecipe recipe p)).
Proof.
  intros H. destruct (displayRecipe_page recipe p) as [Hc Hr].
  rewrite H in Hr. destruct Hr as (Hv & Ha & Hi). auto.
Qed.

(** A Recipe whose second ingredient is an object with a property called
    [toString]: the first ingredient has replaced the list, the card stays
    hidden. *)
Lemma displayRecipe_raising_keeps_the_card_witness :
  ingredients_list
    (fst (displayRecipe
            {| title := VString (lit "Pie");
               ingredients := [VString (lit "1 egg");
                               VObject [(lit "toString", VString (lit "2 eggs"))]];
               instructions := [lit "Mix."] |}
            (resetCard sample_page)))
  = [lit "1 egg"]
  /\ recipeCard_visible
       (fst (displayRecipe
               {| title := VString (lit "Pie");
                  ingredients := [VString (lit "1 egg");
                                  VObject [(lit "toString", VString (lit "2 eggs"))]];
                  instructions := [lit "Mix."] |}
               (resetCard sample_page)))
     = false.
Proof.
  split; [reflexivity|].
  apply (displayRecipe_raising_keeps_the_card _ (resetCard sample_page) TypeError).
  reflexivity.
Defined.

(** Every Recipe of the heuristic extractor can be displayed: the call
    returns, and the page shows the title, the ingredients and the
    instructions as they were extracted. *)
Theorem heuristic_recipe_is_displayed (doc : Document) (r : Recipe) (p : Page) :
  extractHtmlRecipe doc = Some r ->
  snd (displayRecipe r p) = Return tt
  /\ VString (recipe_title (fst (displayRecipe r p))) = title r
  /\ map VString (ingredients_list (fst (displayRecipe r p))) = ingredients r
  /\ instructions_list (fst (displayRecipe r p)) = instructions r
  /\ recipeCard_visible (fst (displayRecipe r p)) = true.
Proof.
  intros H. destruct (usable_dec doc) as [Hu|Hu].
  - rewrite (extractHtmlRecipe_usable doc Hu) in H. injection H as <-.
    rewrite (displayRecipe_returns (heuristic_recipe doc)
               (find_title doc titleSelectors)
               (find_texts doc ingredientSelectors) p
               eq_refl (mapM_to_text_strings _)).
    cbn. auto.
  - rewrite (extractHtmlRecipe_unusable doc Hu) in H. discriminate.
Qed.

(** The pancake page. *)
Lemma heuristic_recipe_is_displayed_witness :
  snd (displayRecipe (heuristic_recipe pancake_page) sample_page) = Return tt
  /\ VString (recipe_title (fst (displayRecipe (heuristic_recipe pancake_page) sample_page)))
     = title (heuristic_recipe pancake_page)
  /\ map VString
       (ingredients_list (fst (displayRecipe (heuristic_recipe pancake_page) sample_page)))
     = ingredients (heuristic_recipe pancake_page)
  /\ instructions_list (fst (displayRecipe (heuristic_recipe pancake_page) sample_page))
     = instructions (heuristic_recipe pancake_page)
  /\ recipeCard_visible (fst (displayRecipe (heuristic_recipe pancake_page) sample_page))
     = true.
Proof.
  apply (heuristic_recipe_is_displayed pancake_page). vm_compute. reflexivity.
Defined.

(** ** The page after fetchRecipe *)

Lemma trim_nil_blank (s : jstring) : non_empty (trim s) = false -> trim s = [].
Proof. destruct (trim s); [reflexivity|discriminate]. Qed.

Lemma catch_error_page (error : Error) (p : Page) :
  loadingDiv_display (catch_error error p) = lit "none"
  /\ fetchBtn_disabled (catch_error error p) = false
  /\ errorDiv_display (catch_error error p) = lit "block"
  /\ errorDiv_textContent (catch_error error p) <> []
  /\ urlInput_value (catch_error error p) = urlInput_value p
  /\ recipeCard_visible (catch_error error p) = recipeCard_visible p
  /\ actionsDiv_display (catch_error error p) = actionsDiv_display p
  /\ same_content p (catch_error error p).
Proof.
  unfold catch_error, same_content. cbn. repeat split.
  destruct (non_empty (message error)) eqn:Hm; [|discriminate].
  apply non_empty_true. exact Hm.
Qed.

(** A call that makes no request ends with a message in the error box, which
    is shown, and changes neither the URL typed nor the recipe texts of the
    page; the call makes a request only for a URL that is not blank and that
    the browser accepts. *)
Theorem no_request_shows_a_message (b : Browser) (p q : Page) :
  fetchRecipe_start b p = Done q ->
  errorDiv_display q = lit "block"
  /\ errorDiv_textContent q <> []
  /\ urlInput_value q = urlInput_value p
  /\ same_content p q.
Proof.
  unfold fetchRecipe_start, isValidUrl, same_content.
  destruct (non_empty (trim (urlInput_value p))); cbn [negb].
  - destruct (URL_valid b (trim (urlInput_value p))); cbn [negb].
    + destruct (encodeURIComponent (trim (urlInput_value p))); [discriminate|].
      intros H. injection H as <-.
      match goal with
      | |- context [catch_error ?e ?p1] =>
          destruct (catch_error_page e p1) as (_ & _ & Hd & Ht & Hu & _ & _ & Hc)
      end.
      unfold same_content in Hc. cbn in Hu, Hc. repeat split; tauto.
    + intros H. injection H as <-. cbn. repeat split. discriminate.
  - intros H. injection H as <-. cbn. repeat split. discriminate.
Qed.

(** A page whose URL input holds spaces only. *)
Lemma no_request_shows_a_message_witness :
  errorDiv_textContent (showError (lit "Please enter a recipe URL")
                          (set_urlInput_value (lit "   ") sample_page))
  <> []
  /\ urlInput_value (showError (lit "Please enter a recipe URL")
                       (set_urlInput_value (lit "   ") sample_page))
     = lit "   ".
Proof.
  destruct (no_request_shows_a_message sample_browser
              (set_urlInput_value (lit "   ") sample_page)
              (showError (lit "Please enter a recipe URL")
                 (set_urlInput_value (lit "   ") sample_page))
              eq_refl) as (_ & Ht & Hu & _).
  split; [exact Ht | exact Hu].
Defined.

(** The request of a call: it is made only for a typed URL that, once
    trimmed, is not empty and is accepted by the browser; it goes to the
    proxy, and what follows the proxy prefix is the escaped URL, made of
    unreserved characters and percent signs only.  By then the error box is
    hidden, the loading box shown, the card and the actions hidden and the
    button disabled. *)
Theorem request_goes_through_the_proxy (b : Browser) (p p1 : Page)
  (request url : jstring) :
  fetchRecipe_start b p = AwaitFetch request url p1 ->
  url = trim (urlInput_value p)
  /\ url <> []
  /\ isValidUrl b url = true
  /\ (exists encoded,
        encodeURIComponent url = Some encoded
        /\ request = CORS_PROXY ++ encoded
        /\ Forall (fun c => uri_safe c = true) encoded)
  /\ errorDiv_display p1 = lit "none"
  /\ loadingDiv_display p1 = lit "block"
  /\ recipeCard_visible p1 = false
  /\ actionsDiv_display p1 = lit "none"
  /\ fetchBtn_disabled p1 = true
  /\ same_content p p1.
Proof.
  unfold fetchRecipe_start, isValidUrl, same_content.
  destruct (non_empty (trim (urlInput_value p))) eqn:Hn; cbn [negb]; [|discriminate].
  destruct (URL_valid b (trim (urlInput_value p))) eqn:Hv; cbn [negb]; [|discriminate].
  destruct (encodeURIComponent (trim (urlInput_value p))) as [encoded|] eqn:He;
    [|discriminate].
  intros H. injection H as <- <- <-.
  split; [reflexivity|]. split; [apply non_empty_true; exact Hn|].
  split; [exact Hv|].
  split; [exists encoded; rewrite He; repeat split;
          exact (encodeURIComponent_safe _ _ He)|].
  cbn. repeat split.
Qed.

(** The sample page. *)
Lemma request_goes_through_the_proxy_witness :
  exists encoded,
    encodeURIComponent (lit "https://example.org/pie?id=1&x=a b") = Some encoded
    /\ lit "https://corsproxy.io/?https%3A%2F%2Fexample.org%2Fpie%3Fid%3D1%26x%3Da%20b"
       = CORS_PROXY ++ encoded
    /\ Forall (fun c => uri_safe c = true) encoded.
Proof.
  destruct (request_goes_through_the_proxy sample_browser sample_page
              (set_fetchBtn_disabled true
                 (set_actionsDiv_display (lit "none")
                    (set_recipeCard_visible false (showLoading (hideError sample_page)))))
              (lit "https://corsproxy.io/?https%3A%2F%2Fexample.org%2Fpie%3Fid%3D1%26x%3Da%20b")
              (lit "https://example.org/pie?id=1&x=a b")
              eq_refl) as (_ & _ & _ & H & _).
  exact H.
Defined.

Lemma fetchRecipe_undisturbed (b : Browser) (network : jstring -> settled Response)
  (during_fetch during_text : Page -> Page) (p : Page) :
  undisturbed during_fetch -> undisturbed during_text ->
  fetchRecipe b network during_fetch during_text p
  = fetchRecipe b network (fun q => q) (fun q => q) p.
Proof.
  intros Hf Ht. unfold fetchRecipe.
  destruct (fetchRecipe_start b p) as [p'|request url p1|url p']; try reflexivity.
  rewrite (Hf p1).
  destruct (network request) as [response|error]; [|reflexivity].
  destruct (fetchRecipe_fetched (Fulfilled (ok response)) url p1)
    as [p'|request' url' p'|url' p2]; try reflexivity.
  rewrite (Ht p2). reflexivity.
Qed.

Lemma fetchRecipe_ends (b : Browser) (network : jstring -> settled Response)
  (during_fetch during_text : Page -> Page) (p : Page) :
  trim (urlInput_value p) <> [] ->
  isValidUrl b (trim (urlInput_value p)) = true ->
  loadingDiv_display (fetchRecipe b network during_fetch during_text p) = lit "none"
  /\ fetchBtn_disabled (fetchRecipe b network during_fetch during_text p) = false
  /\ ((recipeCard_visible (fetchRecipe b network during_fetch during_text p) = true
       /\ actionsDiv_display (fetchRecipe b network during_fetch during_text p)
          = lit "flex")
      \/ (errorDiv_display (fetchRecipe b network during_fetch during_text p)
          = lit "block"
          /\ errorDiv_textContent (fetchRecipe b network during_fetch during_text p)
             <> [])).
Proof.
  intros Hn Hv. apply non_empty_true in Hn. unfold isValidUrl in Hv.
  unfold fetchRecipe, fetchRecipe_start, isValidUrl. rewrite Hn, Hv. cbn [negb].
  assert (Hcatch : forall error q,
             loadingDiv_display (catch_error error q) = lit "none"
             /\ fetchBtn_disabled (catch_error error q) = false
             /\ ((recipeCard_visible (catch_error error q) = true
                  /\ actionsDiv_display (catch_error error q) = lit "flex")
                 \/ (errorDiv_display (catch_error error q) = lit "block"
                     /\ errorDiv_textContent (catch_error error q) <> []))).
  { intros error q.
    destruct (catch_error_page error q) as (Hl & Hb & Hd & Ht & _).
    split; [exact Hl|]. split; [exact Hb|]. right. split; [exact Hd | exact Ht]. }
  destruct (encodeURIComponent (trim (urlInput_value p))) as [encoded|];
    [|apply Hcatch].
  destruct (network (CORS_PROXY ++ encoded)) as [[[] body]|error];
    cbn [fetchRecipe_fetched ok text]; try apply Hcatch.
  unfold fetchRecipe_loaded.
  destruct body as [html|error]; [|apply Hcatch].
  destruct (parseRecipe (parseFromString b html) (trim (urlInput_value p)))
    as [[recipe|]|e]; try apply Hcatch.
  match goal with
  | |- context [displayRecipe recipe ?q] =>
      destruct (displayRecipe_page recipe q) as [_ Hr];
      destruct (displayRecipe recipe q) as [p' [[]|e]]
  end; cbn [fst snd] in Hr; [|apply Hcatch].
  destruct Hr as [Hc Ha]. cbn. split; [reflexivity|]. split; [reflexivity|].
  left. split; assumption.
Qed.

Lemma fetchRecipe_alone (b : Browser) (network : jstring -> settled Response)
  (p : Page) :
  trim (urlInput_value p) <> [] ->
  isValidUrl b (trim (urlInput_value p)) = true ->
  urlInput_value (fetchRecipe b network (fun q => q) (fun q => q) p) = urlInput_value p
  /\ (shows_card (fetchRecipe b network (fun q => q) (fun q => q) p)
      \/ shows_error (fetchRecipe b network (fun q => q) (fun q => q) p)).
Proof.
  intros Hn Hv. apply non_empty_true in Hn. unfold isValidUrl in Hv.
  unfold fetchRecipe, fetchRecipe_start, isValidUrl. rewrite Hn, Hv. cbn [negb].
  fold (awaiting p).
  assert (Hp1 : urlInput_value (awaiting p) = urlInput_value p
                /\ recipeCard_visible (awaiting p) = false
                /\ actionsDiv_display (awaiting p) = lit "none"
                /\ errorDiv_display (awaiting p) = lit "none") by (cbn; auto).
  destruct Hp1 as (Hu1 & Hc1 & Ha1 & He1).
  assert (Hcatch : forall error q,
             urlInput_value q = urlInput_value p ->
             recipeCard_visible q = false ->
             actionsDiv_display q = lit "none" ->
             urlInput_value (catch_error error q) = urlInput_value p
             /\ (shows_card (catch_error error q) \/ shows_error (catch_error error q))).
  { intros error q Hu Hc Ha.
    destruct (catch_error_page error q) as (Hl & Hb & Hd & Ht & Hu' & Hc' & Ha' & _).
    split; [congruence|].
    right. unfold shows_error.
    split; [congruence|]. split; [congruence|]. split; [exact Hd | exact Ht]. }
  destruct (encodeURIComponent (trim (urlInput_value p))) as [encoded|];
    [|apply Hcatch; assumption].
  destruct (network (CORS_PROXY ++ encoded)) as [[[] body]|error];
    cbn [fetchRecipe_fetched ok text]; try (apply Hcatch; assumption).
  unfold fetchRecipe_loaded.
  destruct body as [html|error]; [|apply Hcatch; assumption].
  destruct (parseRecipe (parseFromString b html) (trim (urlInput_value p)))
    as [[recipe|]|e]; try (apply Hcatch; assumption).
  destruct (displayRecipe_page recipe (awaiting p)) as [(Hu & Hb & Ht & Hd & Hl) Hr].
  destruct (displayRecipe recipe (awaiting p)) as [p' [[]|e]]; cbn [fst snd] in *.
  - destruct Hr as [Hc Ha]. cbn. split; [congruence|].
    left. unfold shows_card. cbn. repeat split; congruence.
  - destruct Hr as (Hc & Ha & _). apply Hcatch; congruence.
Qed.

(** A whole call on a typed URL that passes the two guards, whatever the
    network answers, whatever the page holds and whatever the other handlers
    do to the page while the call waits: when the call ends the loading box
    is hidden and the button is enabled, and the call has either shown the
    card and the actions or shown the error box with a message in it.  When
    no handler runs during the two waits, the URL input is moreover as it
    was, and the page is in one of two presentations: the card and the
    actions shown and no error, or an error with a message shown and neither
    card nor actions. *)
Theorem fetchRecipe_outcome (b : Browser) (network : jstring -> settled Response)
  (during_fetch during_text : Page -> Page) (p : Page) :
  trim (urlInput_value p) <> [] ->
  isValidUrl b (trim (urlInput_value p)) = true ->
  loadingDiv_display (fetchRecipe b network during_fetch during_text p) = lit "none"
  /\ fetchBtn_disabled (fetchRecipe b network during_fetch during_text p) = false
  /\ ((recipeCard_visible (fetchRecipe b network during_fetch during_text p) = true
       /\ actionsDiv_display (fetchRecipe b network during_fetch during_text p)
          = lit "flex")
      \/ (errorDiv_display (fetchRecipe b network during_fetch during_text p)
          = lit "block"
          /\ errorDiv_textContent (fetchRecipe b network during_fetch during_text p)
             <> []))
  /\ (undisturbed during_fetch -> undisturbed during_text ->
      urlInput_value (fetchRecipe b network during_fetch during_text p)
      = urlInput_value p
      /\ (shows_card (fetchRecipe b network during_fetch during_text p)
          \/ shows_error (fetchRecipe b network during_fetch during_text p))).
Proof.
  intros Hn Hv.
  destruct (fetchRecipe_ends b network during_fetch during_text p Hn Hv)
    as (Hl & Hb & Hshown).
  split; [exact Hl|]. split; [exact Hb|]. split; [exact Hshown|].
  intros Hf Ht.
  rewrite (fetchRecipe_undisturbed b network during_fetch during_text p Hf Ht).
  exact (fetchRecipe_alone b network p Hn Hv).
Qed.

(** The sample page: a call that succeeds while the user empties the input
    and presses Enter, and a call alone when the network is down. *)
Lemma fetchRecipe_outcome_witness :
  (loadingDiv_display
     (fetchRecipe sample_browser pie_network
        (enter_on_emptied_input sample_browser) (fun q => q) sample_page)
   = lit "none"
   /\ fetchBtn_disabled
        (fetchRecipe sample_browser pie_network
           (enter_on_emptied_input sample_browser) (fun q => q) sample_page)
      = false)
  /\ (shows_card
        (fetchRecipe sample_browser no_network (fun q => q) (fun q => q) sample_page)
      \/ shows_error
           (fetchRecipe sample_browser no_network (fun q => q) (fun q => q)
              sample_page)).
Proof.
  assert (Hn : trim (urlInput_value sample_page) <> []) by discriminate.
  assert (Hv : isValidUrl sample_browser (trim (urlInput_value sample_page)) = true)
    by reflexivity.
  split.
  - destruct (fetchRecipe_outcome sample_browser pie_network
                (enter_on_emptied_input sample_browser) (fun q => q) sample_page Hn Hv)
      as (Hl & Hb & _).
    split; [exact Hl | exact Hb].
  - destruct (fetchRecipe_outcome sample_browser no_network (fun q => q) (fun q => q)
                sample_page Hn Hv) as (_ & _ & _ & H).
    apply H; intros q; reflexivity.
Defined.

Lemma fetchRecipe_succeeds (b : Browser) (network : jstring -> settled Response)
  (during_fetch during_text : Page -> Page) (p : Page) (encoded html : jstring)
  (recipe : Recipe) (t : jstring) (ings : list jstring) :
  trim (urlInput_value p) <> [] ->
  isValidUrl b (trim (urlInput_value p)) = true ->
  encodeURIComponent (trim (urlInput_value p)) = Some encoded ->
  network (CORS_PROXY ++ encoded) = Fulfilled {| ok := true; text := Fulfilled html |} ->
  parseRecipe (parseFromString b html) (trim (urlInput_value p))
  = Return (Some recipe) ->
  to_text (title recipe) = Return t ->
  mapM to_text (ingredients recipe) = Return ings ->
  fetchRecipe b network during_fetch during_text p
  = {| urlInput_value := urlInput_value (during_text (during_fetch (awaiting p)));
       fetchBtn_disabled := false;
       errorDiv_textContent :=
         errorDiv_textContent (during_text (during_fetch (awaiting p)));
       errorDiv_display := errorDiv_display (during_text (during_fetch (awaiting p)));
       loadingDiv_display := lit "none";
       recipeCard_visible := true;
       actionsDiv_display := lit "flex";
       recipe_title := t;
       ingredients_list := ings;
       instructions_list := instructions recipe |}.
Proof.
  intros Hn Hv He Hnet Hparse Ht Hi. apply non_empty_true in Hn.
  unfold isValidUrl in Hv.
  unfold fetchRecipe, fetchRecipe_start, isValidUrl.
  rewrite Hn, Hv, He. cbn [negb]. rewrite Hnet.
  cbn [fetchRecipe_fetched ok text]. unfold fetchRecipe_loaded.
  rewrite Hparse, (displayRecipe_returns recipe t ings _ Ht Hi). reflexivity.
Qed.

(** A whole call that succeeds.  When the typed URL passes the guards, the
    proxy answers the request for its escaped form with a page, the page
    holds a Recipe, and the title and the ingredients of the Recipe convert
    to text, the page ends up with the card and the actions shown, holding
    that Recipe, with the loading box hidden and the button enabled; the URL
    input and the error box are as the handlers that ran during the two
    waits left them.  When none ran, the URL input is as it was and the error
    box is hidden, its old text still in it. *)
Theorem fetchRecipe_success (b : Browser) (network : jstring -> settled Response)
  (during_fetch during_text : Page -> Page) (p : Page) (encoded html : jstring)
  (recipe : Recipe) (t : jstring) (ings : list jstring) :
  trim (urlInput_value p) <> [] ->
  isValidUrl b (trim (urlInput_value p)) = true ->
  encodeURIComponent (trim (urlInput_value p)) = Some encoded ->
  network (CORS_PROXY ++ encoded) = Fulfilled {| ok := true; text := Fulfilled html |} ->
  parseRecipe (parseFromString b html) (trim (urlInput_value p))
  = Return (Some recipe) ->
  to_text (title recipe) = Return t ->
  mapM to_text (ingredients recipe) = Return ings ->
  fetchRecipe b network during_fetch during_text p
  = {| urlInput_value := urlInput_value (during_text (during_fetch (awaiting p)));
       fetchBtn_disabled := false;
       errorDiv_textContent :=
         errorDiv_textContent (during_text (during_fetch (awaiting p)));
       errorDiv_display := errorDiv_display (during_text (during_fetch (awaiting p)));
       loadingDiv_display := lit "none";
       recipeCard_visible := true;
       actionsDiv_display := lit "flex";
       recipe_title := t;
       ingredients_list := ings;
       instructions_list := instructions recipe |}
  /\ (undisturbed during_fetch -> undisturbed during_text ->
      fetchRecipe b network during_fetch during_text p
      = {| urlInput_value := urlInput_value p;
           fetchBtn_disabled := false;
           errorDiv_textContent := errorDiv_textContent p;
           errorDiv_display := lit "none";
           loadingDiv_display := lit "none";
           recipeCard_visible := true;
           actionsDiv_display := lit "flex";
           recipe_title := t;
           ingredients_list := ings;
           instructions_list := instructions recipe |}).
Proof.
  intros Hn Hv He Hnet Hparse Ht Hi.
  pose proof (fetchRecipe_succeeds b network during_fetch during_text p encoded html
                recipe t ings Hn Hv He Hnet Hparse Ht Hi) as H.
  split; [exact H|].
  intros Hf Hd. rewrite H, (Hf (awaiting p)), (Hd (awaiting p)). reflexivity.
Qed.

(** The sample page, when the proxy answers with the page of the pie and
    nothing else happens. *)
Lemma fetchRecipe_success_witness :
  fetchRecipe sample_browser pie_network (fun q => q) (fun q => q) sample_page
  = {| urlInput_value := urlInput_value sample_page;
       fetchBtn_disabled := false;
       errorDiv_textContent := lit "Please enter a recipe URL";
       errorDiv_display := lit "none";
       loadingDiv_display := lit "none";
       recipeCard_visible := true;
       actionsDiv_display := lit "flex";
       recipe_title := lit "Pie";
       ingredients_list := [lit "1 egg"; lit "2 cups flour"];
       instructions_list := instructions pie |}.
Proof.
  assert (Hparse : parseRecipe (parseFromString sample_browser (lit "<html>"))
                     (trim (urlInput_value sample_page))
                   = Return (Some pie)) by (vm_compute; reflexivity).
  assert (Hn : trim (urlInput_value sample_page) <> []) by discriminate.
  destruct (fetchRecipe_success sample_browser pie_network (fun q => q) (fun q => q)
              sample_page
              (lit "https%3A%2F%2Fexample.org%2Fpie%3Fid%3D1%26x%3Da%20b")
              (lit "<html>") pie (lit "Pie") [lit "1 egg"; lit "2 cups flour"]
              Hn eq_refl eq_refl eq_refl Hparse eq_refl eq_refl) as [_ H].
  apply H; intros q; reflexivity.
Defined.

(** Two calls that overlap.  Enter in the URL input starts a call while
    another one waits, the button alone being disabled.  When the user
    empties the input and presses Enter during the first wait of a call that
    then succeeds, the second call ends at its first guard and shows its
    message; the first call then shows the card without hiding the error
    box: the page ends with the card and the message of the second call both
    shown, and an empty URL input. *)
Theorem overlapping_calls_show_card_and_error (b : Browser)
  (network : jstring -> settled Response) (p : Page) (encoded html : jstring)
  (recipe : Recipe) (t : jstring) (ings : list jstring) :
  trim (urlInput_value p) <> [] ->
  isValidUrl b (trim (urlInput_value p)) = true ->
  encodeURIComponent (trim (urlInput_value p)) = Some encoded ->
  network (CORS_PROXY ++ encoded) = Fulfilled {| ok := true; text := Fulfilled html |} ->
  parseRecipe (parseFromString b html) (trim (urlInput_value p))
  = Return (Some recipe) ->
  to_text (title recipe) = Return t ->
  mapM to_text (ingredients recipe) = Return ings ->
  fetchRecipe b network (enter_on_emptied_input b) (fun q => q) p
  = {| urlInput_value := [];
       fetchBtn_disabled := false;
       errorDiv_textContent := lit "Please enter a recipe URL";
       errorDiv_display := lit "block";
       loadingDiv_display := lit "none";
       recipeCard_visible := true;
       actionsDiv_display := lit "flex";
       recipe_title := t;
       ingredients_list := ings;
       instructions_list := instructions recipe |}.
Proof.
  intros Hn Hv He Hnet Hparse Ht Hi.
  rewrite (fetchRecipe_succeeds b network _ _ p encoded html recipe t ings
             Hn Hv He Hnet Hparse Ht Hi).
  reflexivity.
Qed.

(** The sample page. *)
Lemma overlapping_calls_show_card_and_error_witness :
  recipeCard_visible
    (fetchRecipe sample_browser pie_network (enter_on_emptied_input sample_browser)
       (fun q => q) sample_page)
  = true
  /\ errorDiv_display
       (fetchRecipe sample_browser pie_network (enter_on_emptied_input sample_browser)
          (fun q => q) sample_page)
     = lit "block".
Proof.
  assert (Hparse : parseRecipe (parseFromString sample_browser (lit "<html>"))
                     (trim (urlInput_value sample_page))
                   = Return (Some pie)) by (vm_compute; reflexivity).
  assert (Hn : trim (urlInput_value sample_page) <> []) by discriminate.
  rewrite (overlapping_calls_show_card_and_error sample_browser pie_network sample_page
             (lit "https%3A%2F%2Fexample.org%2Fpie%3Fid%3D1%26x%3Da%20b")
             (lit "<html>") pie (lit "Pie") [lit "1 egg"; lit "2 cups flour"]
             Hn eq_refl eq_refl eq_refl Hparse eq_refl eq_refl).
  split; reflexivity.
Defined.

(** After [resetCard] the next call makes no request: the URL input is
    empty, so that the call ends at its first guard, with the card and the
    actions still hidden and the error box, which [resetCard] had hidden,
    shown again with the request for a URL. *)
Theorem fetchRecipe_after_resetCard (b : Browser) (network : jstring -> settled Response)
  (during_fetch during_text : Page -> Page) (p : Page) :
  fetchRecipe_start b (resetCard p)
  = Done (showError (lit "Please enter a recipe URL") (resetCard p))
  /\ shows_error (fetchRecipe b network during_fetch during_text (resetCard p))
  /\ errorDiv_textContent (fetchRecipe b network during_fetch during_text (resetCard p))
     = lit "Please enter a recipe URL"
  /\ same_content p (fetchRecipe b network during_fetch during_text (resetCard p)).
Proof.
  unfold fetchRecipe, fetchRecipe_start, shows_error, same_content. cbn.
  repeat split. discriminate.
Qed.

(** ** The request and the URL typed *)

Ltac div_lia := zify; Z.to_euclidean_division_equations; lia.

Lemma hex_value_digit (n : N) : (n < 16)%N -> hex_value (hex_digit n) = n.
Proof.
  intros H. rewrite <- (N2Nat.id n).
  assert (Hm : (N.to_nat n < 16)%nat) by lia.
  clear H. revert Hm. generalize (N.to_nat n). intros m Hm.
  do 16 (destruct m as [|m]; [reflexivity|]). lia.
Qed.

Lemma unescape_escape (h l : N) (r : jstring) :
  unescape (ch_percent :: h :: l :: r)
  = (16 * hex_value h + hex_value l)%N :: unescape r.
Proof. reflexivity. Qed.

Lemma unescape_octets (octets : list N) (r : jstring) :
  Forall (fun o => (o < 256)%N) octets ->
  unescape (flat_map percent_octet octets ++ r) = octets ++ unescape r.
Proof.
  induction 1 as [|o l Ho _ IH]; [reflexivity|].
  cbn [flat_map]. rewrite <- app_assoc. unfold percent_octet at 1.
  cbn [app]. rewrite unescape_escape, IH.
  rewrite !hex_value_digit by (apply N.mod_upper_bound; discriminate).
  cbn [app]. f_equal. div_lia.
Qed.

Lemma utf8_octets (cp : N) :
  (cp < 1114112)%N -> Forall (fun o => (o < 256)%N) (utf8 cp).
Proof.
  intros H. unfold utf8.
  destruct (N.ltb_spec cp 128); [repeat constructor; lia|].
  destruct (N.ltb_spec cp 2048); [repeat constructor; div_lia|].
  destruct (N.ltb_spec cp 65536); repeat constructor; div_lia.
Qed.

Lemma utf8_code_points_utf8 (cp : N) (r : list N) :
  (cp < 1114112)%N -> utf8_code_points (utf8 cp ++ r) = cp :: utf8_code_points r.
Proof.
  intros H. unfold utf8.
  destruct (N.ltb_spec cp 128) as [H1|H1].
  { cbn [app utf8_code_points]. apply N.ltb_lt in H1. rewrite H1. reflexivity. }
  destruct (N.ltb_spec cp 2048) as [H2|H2].
  { cbn [app utf8_code_points].
    replace (N.ltb (192 + cp / 64) 128) with false by (symmetry; apply N.ltb_ge; div_lia).
    replace (N.ltb (192 + cp / 64) 224) with true by (symmetry; apply N.ltb_lt; div_lia).
    f_equal. div_lia. }
  destruct (N.ltb_spec cp 65536) as [H3|H3].
  { cbn [app utf8_code_points].
    replace (N.ltb (224 + cp / 4096) 128) with false by (symmetry; apply N.ltb_ge; div_lia).
    replace (N.ltb (224 + cp / 4096) 224) with false by (symmetry; apply N.ltb_ge; div_lia).
    replace (N.ltb (224 + cp / 4096) 240) with true by (symmetry; apply N.ltb_lt; div_lia).
    f_equal. div_lia. }
  cbn [app utf8_code_points].
  replace (N.ltb (240 + cp / 262144) 128) with false by (symmetry; apply N.ltb_ge; div_lia).
  replace (N.ltb (240 + cp / 262144) 224) with false by (symmetry; apply N.ltb_ge; div_lia).
  replace (N.ltb (240 + cp / 262144) 240) with false by (symmetry; apply N.ltb_ge; div_lia).
  f_equal. div_lia.
Qed.

Lemma unescaped_percent_encode (cp : N) (r : jstring) :
  (cp < 1114112)%N -> unescaped (percent_encode cp ++ r) = utf16 cp ++ unescaped r.
Proof.
  intros H. unfold unescaped, percent_encode.
  rewrite (unescape_octets _ _ (utf8_octets cp H)), (utf8_code_points_utf8 _ _ H).
  reflexivity.
Qed.

Lemma uri_unreserved_ascii (c : N) :
  uri_unreserved c = true -> (c < 128)%N /\ c <> ch_percent.
Proof.
  unfold uri_unreserved, is_digit, ch_percent. intros H.
  rewrite !orb_true_iff, !andb_true_iff, !N.leb_le, !N.eqb_eq in H. lia.
Qed.

Lemma unescaped_unreserved (c : N) (r : jstring) :
  uri_unreserved c = true -> unescaped (c :: r) = c :: unescaped r.
Proof.
  intros H. apply uri_unreserved_ascii in H as [H1 H2].
  unfold unescaped. cbn [unescape].
  apply N.eqb_neq in H2. rewrite H2. cbn [utf8_code_points].
  apply N.ltb_lt in H1. rewrite H1. cbn [flat_map]. unfold utf16 at 1.
  replace (N.ltb c 65536) with true by (symmetry; apply N.ltb_lt; apply N.ltb_lt in H1; lia).
  reflexivity.
Qed.

Lemma utf16_pair (c d : N) :
  is_lead c = true -> is_trail d = true ->
  (pair_code_point c d < 1114112)%N /\ utf16 (pair_code_point c d) = [c; d].
Proof.
  unfold is_lead, is_trail, pair_code_point, utf16. intros Hc Hd.
  rewrite !andb_true_iff, !N.leb_le in Hc, Hd.
  split; [lia|].
  replace (N.ltb ((c - 55296) * 1024 + (d - 56320) + 65536) 65536) with false
    by (symmetry; apply N.ltb_ge; lia).
  f_equal; [div_lia|]. f_equal. div_lia.
Qed.

(** Reading the escaped text back gives the text that was escaped. *)
Lemma unescaped_encoded_upto (n : nat) (s encoded : jstring) :
  (List.length s <= n)%nat ->
  utf16_units s ->
  encodeURIComponent s = Some encoded ->
  unescaped encoded = s.
Proof.
  revert s encoded. induction n as [|n IH]; intros s encoded Hn Hs H.
  - destruct s; [|simpl in Hn; lia]. injection H as <-. reflexivity.
  - destruct s as [|c r]; [injection H as <-; reflexivity|].
    apply Forall_cons_iff in Hs as [Hc Hr].
    cbn [encodeURIComponent] in H. simpl in Hn.
    destruct (uri_unreserved c) eqn:Hu.
    { apply option_map_Some_inv in H as (e & He & ->).
      rewrite (unescaped_unreserved c e Hu), (IH r e); [reflexivity|lia|exact Hr|exact He]. }
    destruct (is_trail c); [discriminate|].
    destruct (is_lead c) eqn:Hl.
    + destruct r as [|d r']; [discriminate|].
      destruct (is_trail d) eqn:Ht; [|discriminate].
      apply option_map_Some_inv in H as (e & He & ->).
      apply Forall_cons_iff in Hr as [_ Hr'].
      destruct (utf16_pair c d Hl Ht) as [Hlt Hpair].
      rewrite (unescaped_percent_encode _ e Hlt), Hpair, (IH r' e);
        [reflexivity|simpl in Hn; lia|exact Hr'|exact He].
    + apply option_map_Some_inv in H as (e & He & ->).
      rewrite (unescaped_percent_encode c e) by lia.
      unfold utf16. apply N.ltb_lt in Hc. rewrite Hc.
      rewrite (IH r e); [reflexivity|lia|exact Hr|exact He].
Qed.

Lemma unescaped_encoded (s encoded : jstring) :
  utf16_units s -> encodeURIComponent s = Some encoded -> unescaped encoded = s.
Proof. apply (unescaped_encoded_upto (List.length s)). apply Nat.le_refl. Qed.

(** The request determines the URL it is made for: two calls, on any two
    pages and in any two browsers, that make the same request were made for
    the same trimmed URL.  The escaping loses nothing of a text of UTF-16
    code units. *)
Theorem request_determines_the_url (b b' : Browser) (p p' p1 p1' : Page)
  (request url url' : jstring) :
  utf16_units url -> utf16_units url' ->
  fetchRecipe_start b p = AwaitFetch request url p1 ->
  fetchRecipe_start b' p' = AwaitFetch request url' p1' ->
  url = url'.
Proof.
  unfold fetchRecipe_start. intros Hu Hu' H H'.
  destruct (negb (non_empty (trim (urlInput_value p)))); [discriminate|].
  destruct (negb (isValidUrl b (trim (urlInput_value p)))); [discriminate|].
  destruct (encodeURIComponent (trim (urlInput_value p))) as [e|] eqn:He;
    [|discriminate].
  destruct (negb (non_empty (trim (urlInput_value p')))); [discriminate|].
  destruct (negb (isValidUrl b' (trim (urlInput_value p')))); [discriminate|].
  destruct (encodeURIComponent (trim (urlInput_value p'))) as [e'|] eqn:He';
    [|discriminate].
  assert (Hreq : CORS_PROXY ++ e = request) by congruence.
  assert (Hurl : trim (urlInput_value p) = url) by congruence.
  assert (Hreq' : CORS_PROXY ++ e' = request) by congruence.
  assert (Hurl' : trim (urlInput_value p') = url') by congruence.
  rewrite Hurl in He. rewrite Hurl' in He'.
  rewrite <- Hreq' in Hreq. apply app_inv_head in Hreq. subst e'.
  rewrite <- (unescaped_encoded url e Hu He). exact (unescaped_encoded url' e Hu' He').
Qed.

(** The sample page, in the sample browser and in one that accepts every
    URL, with leading white space or not. *)
Lemma request_determines_the_url_witness :
  lit "https://example.org/pie?id=1&x=a b" = trim (urlInput_value sample_page).
Proof.
  apply (request_determines_the_url
           sample_browser
           {| URL_valid := fun _ => true;
              parseFromString := parseFromString sample_browser;
              exception_message := exception_message sample_browser;
              URIError_message := URIError_message sample_browser |}
           (set_urlInput_value (lit "https://example.org/pie?id=1&x=a b") sample_page)
           sample_page
           (set_fetchBtn_disabled true
              (set_actionsDiv_display (lit "none")
                 (set_recipeCard_visible false
                    (showLoading
                       (hideError
                          (set_urlInput_value (lit "https://example.org/pie?id=1&x=a b")
                             sample_page))))))
           (set_fetchBtn_disabled true
              (set_actionsDiv_display (lit "none")
                 (set_recipeCard_visible false (showLoading (hideError sample_page)))))
           (lit "https://corsproxy.io/?https%3A%2F%2Fexample.org%2Fpie%3Fid%3D1%26x%3Da%20b")).
  - repeat (constructor; [reflexivity|]). constructor.
  - repeat (constructor; [reflexivity|]). constructor.
  - reflexivity.
  - reflexivity.
Defined.
